(** * Sensitive-Log-Cleaner: masking engine and file pipeline

    A shallow embedding of [src/core/scrubber.js], [src/core/processor.js],
    the rule catalog of [src/core/config.js] and the batch handler of
    [main.js], with the properties of the specification stated over it.

    Layout:
    - [Str]       JavaScript strings as lists of UTF-16 code units;
    - [Rx]        the regular expressions the rules use: a backtracking
                  matcher in the style of the ECMAScript semantics, with
                  [String.prototype.replace] and [match];
    - [Json]      [JSON.parse] and [JSON.stringify];
    - [Config]    the constants of config.js;
    - [Scrubber]  class LogScrubber;
    - [Processor] class FileProcessor, class Semaphore, the helpers around
                  the abort signal, and the batch handler's final sort;
    - [Cleanup]   the removal of old temporary files;
    - [Main]      main.js: the options of a job, class PauseController, the
                  guard of the paths.

    What the embedding leaves to the runtime is said where it happens: case
    mapping outside ASCII, the double-precision reading of JSON numbers. *)

From Stdlib Require Import String Ascii.
From Stdlib Require Import List NArith ZArith Bool Arith Lia.
From Stdlib Require Import Permutation Sorted.
From Stdlib Require Floats Uint63.
Import ListNotations.

Set Implicit Arguments.
Set Warnings "-register-all,-inexact-float".

(* ===================================================================== *)
(** ** JavaScript strings *)
(* ===================================================================== *)

Module Str.

(** A JavaScript string is a sequence of 16-bit code units. *)
Definition char := N.
Bind Scope N_scope with char.
Definition jsstring := list char.

(** Literals: [js "abc"] is the string abc.  [jsq] reads an apostrophe as a
    double quote, so that JSON text stays legible. *)
Definition js (s : string) : jsstring :=
  map N_of_ascii (list_ascii_of_string s).

Definition jsq (s : string) : jsstring :=
  map (fun c => if N.eqb c 39 then 34%N else c) (js s).

Fixpoint str_eqb (a b : jsstring) : bool :=
  match a, b with
  | [], [] => true
  | x :: a', y :: b' => N.eqb x y && str_eqb a' b'
  | _, _ => false
  end.

Definition between (lo hi c : char) : bool := (N.leb lo c && N.leb c hi)%bool.

Definition isDigit (c : char) : bool := between 48 57 c.
Definition isUpper (c : char) : bool := between 65 90 c.
Definition isLower (c : char) : bool := between 97 122 c.
Definition isAlpha (c : char) : bool := isUpper c || isLower c.

(** [\w] of a regular expression without the u flag: [A-Za-z0-9_]. *)
Definition isWord (c : char) : bool := isAlpha c || isDigit c || N.eqb c 95.

(** WhiteSpace and LineTerminator of ECMAScript: what [\s] matches and what
    [String.prototype.trim] strips. *)
Definition isSpace (c : char) : bool :=
  between 9 13 c || N.eqb c 32 || N.eqb c 160 || N.eqb c 5760
  || between 8192 8202 c || N.eqb c 8232 || N.eqb c 8233 || N.eqb c 8239
  || N.eqb c 8287 || N.eqb c 12288 || N.eqb c 65279.

Definition isLineTerminator (c : char) : bool :=
  N.eqb c 10 || N.eqb c 13 || N.eqb c 8232 || N.eqb c 8233.

(** Case mapping is the ASCII one; code units outside ASCII map to
    themselves. *)
Definition lowerChar (c : char) : char := if isUpper c then (c + 32)%N else c.
Definition upperChar (c : char) : char := if isLower c then (c - 32)%N else c.

Definition toLowerCase (s : jsstring) : jsstring := map lowerChar s.

Fixpoint trimStart (s : jsstring) : jsstring :=
  match s with
  | c :: s' => if isSpace c then trimStart s' else s
  | [] => []
  end.

Definition trimEnd (s : jsstring) : jsstring := rev (trimStart (rev s)).
Definition trim (s : jsstring) : jsstring := trimEnd (trimStart s).

Fixpoint startsWith (s prefix : jsstring) : bool :=
  match prefix, s with
  | [], _ => true
  | p :: prefix', c :: s' => N.eqb p c && startsWith s' prefix'
  | _ :: _, [] => false
  end.

(** [s.indexOf(t)]: the first position where [t] occurs in [s]. *)
Fixpoint indexOf (s t : jsstring) : option nat :=
  if startsWith s t then Some 0
  else match s with
       | [] => None
       | _ :: s' => option_map S (indexOf s' t)
       end.

(** [s.split(sep)[0]] for a one-character separator. *)
Fixpoint beforeChar (sep : char) (s : jsstring) : jsstring :=
  match s with
  | [] => []
  | c :: s' => if N.eqb c sep then [] else c :: beforeChar sep s'
  end.

(** [xs.join(sep)] *)
Fixpoint join (sep : jsstring) (xs : list jsstring) : jsstring :=
  match xs with
  | [] => []
  | [x] => x
  | x :: xs' => x ++ sep ++ join sep xs'
  end.

(** Decimal digits of a natural number, as [String(n)] prints it. *)
Fixpoint digitsOf (fuel : nat) (n : N) (acc : jsstring) : jsstring :=
  match fuel with
  | 0 => acc
  | S f =>
      let d := (48 + n mod 10)%N in
      if (n <? 10)%N then d :: acc else digitsOf f (n / 10)%N (d :: acc)
  end.

Definition ofN (n : N) : jsstring := digitsOf (S (N.size_nat n)) n [].
Definition ofNat (n : nat) : jsstring := ofN (N.of_nat n).

End Str.

Import Str.
Arguments js s%_string.
Arguments jsq s%_string.

(* ===================================================================== *)
(** ** Exceptions *)
(* ===================================================================== *)

(** An Error object: its [name], its [code] when it has one, its
    [message]. *)
Record JsError := mkError {
  err_name : jsstring;
  err_code : option jsstring;
  err_message : jsstring
}.

(** A computation that returns a value or throws. *)
Inductive result (A : Type) : Type :=
| Ok (a : A)
| Throw (e : JsError).
Arguments Ok {A} a.
Arguments Throw {A} e.

Definition bind {A B} (m : result A) (f : A -> result B) : result B :=
  match m with
  | Ok a => f a
  | Throw e => Throw e
  end.

Notation "x <- m ;; k" := (bind m (fun x => k))
  (at level 61, m at next level, right associativity).
Notation "' p <- m ;; k" := (bind m (fun x => let p := x in k))
  (at level 61, p pattern, m at next level, right associativity).

Definition newError (msg : jsstring) : JsError :=
  mkError (js "Error") None msg.
Definition newTypeError (msg : jsstring) : JsError :=
  mkError (js "TypeError") None msg.

(* ===================================================================== *)
(** ** Regular expressions *)
(* ===================================================================== *)

Module Rx.

(** The syntax the rules of this program use.  [Repeat min extra r] is the
    greedy quantifier [r{min,min+extra}], unbounded when [extra] is [None];
    [Group i r] is the capturing group number [i]. *)
Inductive Regex : Type :=
| Eps
| Lit (c : char)
| Class (neg : bool) (p : char -> bool)
| Dot
| Seq (r1 r2 : Regex)
| Alt (r1 r2 : Regex)
| Repeat (min : nat) (extra : option nat) (r : Regex)
| Group (i : nat) (r : Regex)
| WordB
| NotWordB
| Bol
| Eol.

Definition Star (r : Regex) : Regex := Repeat 0 None r.
Definition Plus (r : Regex) : Regex := Repeat 1 None r.
Definition Opt (r : Regex) : Regex := Repeat 0 (Some 1) r.
Definition Times (n : nat) (r : Regex) : Regex := Repeat n (Some 0) r.
Definition AtLeast (n : nat) (r : Regex) : Regex := Repeat n None r.
Definition FromTo (n m : nat) (r : Regex) : Regex := Repeat n (Some (m - n)) r.

Fixpoint seqs (rs : list Regex) : Regex :=
  match rs with
  | [] => Eps
  | [r] => r
  | r :: rs' => Seq r (seqs rs')
  end.

(** [a|b|c]; the empty source is the empty pattern. *)
Fixpoint alts (rs : list Regex) : Regex :=
  match rs with
  | [] => Eps
  | [r] => r
  | r :: rs' => Alt r (alts rs')
  end.

(** The characters of [s], one after the other. *)
Definition lit (s : jsstring) : Regex := seqs (map Lit s).

(** A compiled regular expression with the flags [g], [i] and [m]. *)
Record RegExp := mkRegExp {
  re_body : Regex;
  re_global : bool;
  re_ignoreCase : bool;
  re_multiline : bool
}.

Fixpoint groups (r : Regex) : list nat :=
  match r with
  | Seq r1 r2 | Alt r1 r2 => groups r1 ++ groups r2
  | Repeat _ _ r1 => groups r1
  | Group i r1 => i :: groups r1
  | _ => []
  end.

(** Number of capturing groups. *)
Definition ngroups (r : Regex) : nat := fold_right Nat.max 0 (groups r).

(** The state of a match: the input before the current position (nearest
    character first), the input from it on, and the captures so far. *)
Record MState := mkMState {
  ms_before : jsstring;
  ms_rest : jsstring;
  ms_caps : list (nat * jsstring)
}.

Definition consumed (x y : MState) : nat :=
  length (ms_before y) - length (ms_before x).

(** The input between the positions of [x] and [y]. *)
Definition between_states (x y : MState) : jsstring :=
  rev (firstn (consumed x y) (ms_before y)).

Definition setCap (i : nat) (s : jsstring) (y : MState) : MState :=
  mkMState (ms_before y) (ms_rest y) ((i, s) :: ms_caps y).

Definition clearCaps (gs : list nat) (x : MState) : MState :=
  mkMState (ms_before x) (ms_rest x)
    (filter (fun p => negb (existsb (Nat.eqb (fst p)) gs)) (ms_caps x)).

Fixpoint getCap (i : nat) (caps : list (nat * jsstring)) : option jsstring :=
  match caps with
  | [] => None
  | (j, s) :: caps' => if Nat.eqb i j then Some s else getCap i caps'
  end.

(** Canonicalize of the ECMAScript semantics. *)
Definition canon (ic : bool) (c : char) : char :=
  if ic then upperChar c else c.

Definition classHas (ic : bool) (p : char -> bool) (c : char) : bool :=
  if ic then p c || p (lowerChar c) || p (upperChar c) else p c.

Definition charOk (ic : bool) (r : Regex) (c : char) : bool :=
  match r with
  | Lit x => N.eqb (canon ic x) (canon ic c)
  | Class neg p => xorb neg (classHas ic p c)
  | Dot => negb (isLineTerminator c)
  | _ => false
  end.

Definition isWordAt (s : jsstring) : bool :=
  match s with
  | c :: _ => isWord c
  | [] => false
  end.

Definition atWordBoundary (x : MState) : bool :=
  xorb (isWordAt (ms_before x)) (isWordAt (ms_rest x)).

(** [^] looking at the input before the position, [$] looking at the input
    after it: the end of the input, and with the flag [m] a line
    terminator next to the position. *)
Definition atLineEdge (ml : bool) (s : jsstring) : bool :=
  match s with
  | [] => true
  | c :: _ => ml && isLineTerminator c
  end.

(** A matcher takes a state and a continuation, and answers with the
    state of the first match the continuation accepts. *)
Definition Matcher := MState -> (MState -> option MState) -> option MState.

(** The rounds of a quantifier after the mandatory ones, for the matcher
    [m] of its body, at most [extra] of them: a round is tried before the
    continuation (the quantifier is greedy), with the captures [gs] of the
    body cleared, and a round that consumes nothing is rejected.  Every
    round lasts at least one character, so [fuel], the length of the rest
    of the input, is never used up. *)
Fixpoint optionalRounds (m : Matcher) (gs : list nat)
    (k : MState -> option MState) (fuel : nat) (extra : option nat)
    (x : MState) {struct fuel} : option MState :=
  match extra, fuel with
  | Some 0, _ => k x
  | _, 0 => k x
  | _, S fuel' =>
      match m (clearCaps gs x)
              (fun y =>
                 if Nat.eqb (length (ms_rest y)) (length (ms_rest x))
                 then None
                 else optionalRounds m gs k fuel' (option_map pred extra) y) with
      | Some z => Some z
      | None => k x
      end
  end.

(** The [n] mandatory rounds of a quantifier, then the optional ones. *)
Fixpoint mandatoryRounds (m : Matcher) (gs : list nat)
    (k : MState -> option MState) (extra : option nat) (n : nat)
    (x : MState) {struct n} : option MState :=
  match n with
  | 0 => optionalRounds m gs k (length (ms_rest x)) extra x
  | S n' => m (clearCaps gs x) (mandatoryRounds m gs k extra n')
  end.

(** The matcher of [r]: the first way, in backtracking order, to match [r]
    from [x] so that [k] accepts what follows. *)
Fixpoint rmatch (ic ml : bool) (r : Regex) (x : MState)
    (k : MState -> option MState) {struct r} : option MState :=
  match r with
  | Eps => k x
  | Lit _ | Class _ _ | Dot =>
      match ms_rest x with
      | c :: rest =>
          if charOk ic r c
          then k (mkMState (c :: ms_before x) rest (ms_caps x))
          else None
      | [] => None
      end
  | Seq r1 r2 => rmatch ic ml r1 x (fun y => rmatch ic ml r2 y k)
  | Alt r1 r2 =>
      match rmatch ic ml r1 x k with
      | Some z => Some z
      | None => rmatch ic ml r2 x k
      end
  | Group i r1 =>
      rmatch ic ml r1 x (fun y => k (setCap i (between_states x y) y))
  | Repeat min extra r1 =>
      mandatoryRounds (rmatch ic ml r1) (groups r1) k extra min x
  | WordB => if atWordBoundary x then k x else None
  | NotWordB => if atWordBoundary x then None else k x
  | Bol => if atLineEdge ml (ms_before x) then k x else None
  | Eol => if atLineEdge ml (ms_rest x) then k x else None
  end.

(** One match: where it starts, the matched text, the captures. *)
Record Match := mkMatch {
  m_index : nat;
  m_str : jsstring;
  m_caps : list (nat * jsstring)
}.

(** Capture [i] of a match; [undefined] when the group took no part. *)
Definition cap (i : nat) (m : Match) : option jsstring := getCap i (m_caps m).

Definition capStr (i : nat) (m : Match) : jsstring :=
  match cap i m with
  | Some s => s
  | None => []
  end.

(** A match attempt at one position. *)
Definition execAt (re : RegExp) (before rest : jsstring) : option Match :=
  let x := mkMState before rest [] in
  match rmatch (re_ignoreCase re) (re_multiline re) (re_body re) x Some with
  | Some y => Some (mkMatch (length before) (firstn (consumed x y) rest) (ms_caps y))
  | None => None
  end.

(** The input cut by the successive matches of a global search: the
    characters outside every match, and the matches, in order. *)
Inductive piece : Type :=
| Keep (c : char)
| Hit (m : Match).

(** The loop of a global regular expression over the input: the search
    resumes where the previous match ended, one character further after an
    empty match.  [skip] counts the characters of the current match still to
    pass. *)
Fixpoint scan (re : RegExp) (before rest : jsstring) (skip : nat)
    {struct rest} : list piece :=
  match skip with
  | S skip' =>
      match rest with
      | [] => []
      | c :: rest' => scan re (c :: before) rest' skip'
      end
  | 0 =>
      match execAt re before rest with
      | Some m =>
          Hit m ::
          match rest with
          | [] => []
          | c :: rest' =>
              match length (m_str m) with
              | 0 => Keep c :: scan re (c :: before) rest' 0
              | S n => scan re (c :: before) rest' n
              end
          end
      | None =>
          match rest with
          | [] => []
          | c :: rest' => Keep c :: scan re (c :: before) rest' 0
          end
      end
  end.

(** Without the [g] flag only the first match counts. *)
Fixpoint scanFirst (re : RegExp) (before rest : jsstring) {struct rest}
    : list piece :=
  match execAt re before rest with
  | Some m => Hit m :: map Keep (skipn (length (m_str m)) rest)
  | None =>
      match rest with
      | [] => []
      | c :: rest' => Keep c :: scanFirst re (c :: before) rest'
      end
  end.

Definition pieces (re : RegExp) (s : jsstring) : list piece :=
  if re_global re then scan re [] s 0 else scanFirst re [] s.

Definition hits (ps : list piece) : list Match :=
  flat_map (fun p => match p with Hit m => [m] | Keep _ => [] end) ps.

(** [(s.match(re) || []).length]: with [g] the number of matches, without
    it the length of the match array of the first match, the match and its
    groups. *)
Definition matchLength (re : RegExp) (s : jsstring) : nat :=
  if re_global re then length (hits (pieces re s))
  else match hits (pieces re s) with
       | [] => 0
       | _ :: _ => S (ngroups (re_body re))
       end.

(** [s.replace(re, f)] for a replacer function that may throw. *)
Fixpoint rebuild (f : Match -> result jsstring) (ps : list piece)
    : result jsstring :=
  match ps with
  | [] => Ok []
  | Keep c :: ps' => out <- rebuild f ps' ;; Ok (c :: out)
  | Hit m :: ps' => t <- f m ;; out <- rebuild f ps' ;; Ok (t ++ out)
  end.

Definition replaceWith (re : RegExp) (f : Match -> result jsstring)
    (s : jsstring) : result jsstring :=
  rebuild f (pieces re s).

(** [s.replace(re, f)] for a replacer that returns. *)
Fixpoint rebuildPure (f : Match -> jsstring) (ps : list piece) : jsstring :=
  match ps with
  | [] => []
  | Keep c :: ps' => c :: rebuildPure f ps'
  | Hit m :: ps' => f m ++ rebuildPure f ps'
  end.

Definition replaceFn (re : RegExp) (f : Match -> jsstring) (s : jsstring)
    : jsstring :=
  rebuildPure f (pieces re s).

(** GetSubstitution: the expansion of a replacement template.  [ncaps] is
    the number of groups, [s] the whole input.  Dollar is code 36. *)
Fixpoint substitute (ncaps : nat) (s : jsstring) (m : Match)
    (template : jsstring) {struct template} : jsstring :=
  match template with
  | [] => []
  | c :: t =>
      if negb (N.eqb c 36) then c :: substitute ncaps s m t
      else
        match t with
        | [] => [c]
        | d :: t' =>
            if N.eqb d 36 then 36%N :: substitute ncaps s m t'
            else if N.eqb d 38 then m_str m ++ substitute ncaps s m t'
            else if N.eqb d 96 then firstn (m_index m) s ++ substitute ncaps s m t'
            else if N.eqb d 39
            then skipn (m_index m + length (m_str m)) s ++ substitute ncaps s m t'
            else if isDigit d then
              let one := N.to_nat (d - 48) in
              let single :=
                if (1 <=? one) && (one <=? ncaps)
                then capStr one m ++ substitute ncaps s m t'
                else c :: d :: substitute ncaps s m t' in
              match t' with
              | e :: t'' =>
                  if isDigit e then
                    let two := one * 10 + N.to_nat (e - 48) in
                    if two <=? ncaps then
                      if 1 <=? two
                      then capStr two m ++ substitute ncaps s m t''
                      else c :: d :: e :: substitute ncaps s m t''
                    else single
                  else single
              | [] => single
              end
            else c :: substitute ncaps s m t
        end
  end.

(** [s.replace(re, template)] *)
Definition replaceTemplate (re : RegExp) (template : jsstring) (s : jsstring)
    : jsstring :=
  replaceFn re (fun m => substitute (ngroups (re_body re)) s m template) s.

(** [s.replace(search, template)] for a string [search]: the first
    occurrence only, no captures. *)
Definition replaceString (search template : jsstring) (s : jsstring) : jsstring :=
  match indexOf s search with
  | Some i =>
      firstn i s
      ++ substitute 0 s (mkMatch i search []) template
      ++ skipn (i + length search) s
  | None => s
  end.

End Rx.

(* ===================================================================== *)
(** ** JSON *)
(* ===================================================================== *)

(** What is left to the JavaScript runtime: the text [JSON.stringify]
    prints for the number a JSON number literal denotes (the shortest
    decimal of its double-precision value, [null] when it is not finite). *)
Class Runtime := {
  serializeNumber : jsstring -> jsstring
}.

Module Json.

(** A parsed JSON value.  A number keeps the text of its literal.  An
    object is its own properties in enumeration order. *)
Inductive json : Type :=
| JNull
| JBool (b : bool)
| JNum (literal : jsstring)
| JStr (s : jsstring)
| JArr (elems : list json)
| JObj (members : list (jsstring * json)).

(** *** Objects as ordered property lists *)

Fixpoint decimalValue (s : jsstring) (acc : N) : option N :=
  match s with
  | [] => Some acc
  | c :: s' =>
      if isDigit c then decimalValue s' (acc * 10 + (c - 48))%N else None
  end.

(** An array index: a canonical numeric string below 2^32 - 1.  Such keys
    come first in the enumeration order, in numeric order. *)
Definition arrayIndex (k : jsstring) : option N :=
  match k with
  | [] => None
  | c :: k' =>
      if N.eqb c 48 && negb (Nat.eqb (length k') 0) then None
      else if 10 <? length k then None
      else match decimalValue k 0 with
           | Some n => if (n <? 4294967295)%N then Some n else None
           | None => None
           end
  end.

Section Objects.
Variable V : Type.

Fixpoint obj_get (k : jsstring) (m : list (jsstring * V)) : option V :=
  match m with
  | [] => None
  | (k', v) :: m' => if str_eqb k k' then Some v else obj_get k m'
  end.

Definition obj_has (k : jsstring) (m : list (jsstring * V)) : bool :=
  match obj_get k m with
  | Some _ => true
  | None => false
  end.

Fixpoint obj_update (k : jsstring) (v : V) (m : list (jsstring * V))
    : list (jsstring * V) :=
  match m with
  | [] => []
  | (k', v') :: m' =>
      if str_eqb k k' then (k', v) :: m' else (k', v') :: obj_update k v m'
  end.

(** Where a new array-index key goes: before the first key that is not an
    index or is a larger one. *)
Fixpoint obj_insert_index (i : N) (k : jsstring) (v : V)
    (m : list (jsstring * V)) : list (jsstring * V) :=
  match m with
  | [] => [(k, v)]
  | (k', v') :: m' =>
      match arrayIndex k' with
      | Some j =>
          if (i <? j)%N then (k, v) :: m
          else (k', v') :: obj_insert_index i k v m'
      | None => (k, v) :: m
      end
  end.

(** Defining the own property [k]: an existing property keeps its place, a
    new one is enumerated after the older ones of its kind. *)
Definition obj_set (k : jsstring) (v : V) (m : list (jsstring * V))
    : list (jsstring * V) :=
  if obj_has k m then obj_update k v m
  else match arrayIndex k with
       | Some i => obj_insert_index i k v m
       | None => m ++ [(k, v)]
       end.

(** The assignment [obj[k] = v] on an object made by an object literal:
    as [obj_set], but the key [__proto__] reaches the setter of
    [Object.prototype] and makes no own property. *)
Definition obj_assign (k : jsstring) (v : V) (m : list (jsstring * V))
    : list (jsstring * V) :=
  if str_eqb k (js "__proto__") then m else obj_set k v m.

End Objects.

(** *** JSON.parse *)

Inductive token : Type :=
| TLBrace | TRBrace | TLBracket | TRBracket | TColon | TComma
| TString (s : jsstring)
| TNumber (literal : jsstring)
| TTrue | TFalse | TNull.

(** Where the lexer stands inside a number literal. *)
Inductive numState : Type :=
| NMinus | NZero | NInt | NDot | NFrac | NExp | NExpSign | NExpDigits.

Definition numAccepting (n : numState) : bool :=
  match n with
  | NZero | NInt | NFrac | NExpDigits => true
  | _ => false
  end.

Definition numStep (n : numState) (c : char) : option numState :=
  let isE := N.eqb c 101 || N.eqb c 69 in
  match n with
  | NMinus => if N.eqb c 48 then Some NZero
              else if isDigit c then Some NInt else None
  | NZero => if N.eqb c 46 then Some NDot
             else if isE then Some NExp else None
  | NInt => if isDigit c then Some NInt
            else if N.eqb c 46 then Some NDot
            else if isE then Some NExp else None
  | NDot => if isDigit c then Some NFrac else None
  | NFrac => if isDigit c then Some NFrac
             else if isE then Some NExp else None
  | NExp => if isDigit c then Some NExpDigits
            else if N.eqb c 43 || N.eqb c 45 then Some NExpSign else None
  | NExpSign => if isDigit c then Some NExpDigits else None
  | NExpDigits => if isDigit c then Some NExpDigits else None
  end.

(** The lexer's mode; accumulated text is kept reversed. *)
Inductive lexMode : Type :=
| LNormal
| LString (acc : jsstring)
| LEscape (acc : jsstring)
| LUnicode (acc : jsstring) (todo : nat) (value : N)
| LNumber (acc : jsstring) (n : numState)
| LWord (expected : jsstring) (t : token).

Definition hexValue (c : char) : option N :=
  if isDigit c then Some (c - 48)%N
  else if between 97 102 c then Some (c - 87)%N
  else if between 65 70 c then Some (c - 55)%N
  else None.

Definition isJsonSpace (c : char) : bool :=
  N.eqb c 32 || N.eqb c 9 || N.eqb c 10 || N.eqb c 13.

(** One character in normal mode. *)
Definition lexNormal (c : char) (out : list token)
    : option (lexMode * list token) :=
  if isJsonSpace c then Some (LNormal, out)
  else if N.eqb c 123 then Some (LNormal, TLBrace :: out)
  else if N.eqb c 125 then Some (LNormal, TRBrace :: out)
  else if N.eqb c 91 then Some (LNormal, TLBracket :: out)
  else if N.eqb c 93 then Some (LNormal, TRBracket :: out)
  else if N.eqb c 58 then Some (LNormal, TColon :: out)
  else if N.eqb c 44 then Some (LNormal, TComma :: out)
  else if N.eqb c 34 then Some (LString [], out)
  else if N.eqb c 45 then Some (LNumber [c] NMinus, out)
  else if N.eqb c 48 then Some (LNumber [c] NZero, out)
  else if isDigit c then Some (LNumber [c] NInt, out)
  else if N.eqb c 116 then Some (LWord (js "rue") TTrue, out)
  else if N.eqb c 102 then Some (LWord (js "alse") TFalse, out)
  else if N.eqb c 110 then Some (LWord (js "ull") TNull, out)
  else None.

Definition unescape (c : char) : option char :=
  if N.eqb c 34 then Some 34%N
  else if N.eqb c 92 then Some 92%N
  else if N.eqb c 47 then Some 47%N
  else if N.eqb c 98 then Some 8%N
  else if N.eqb c 102 then Some 12%N
  else if N.eqb c 110 then Some 10%N
  else if N.eqb c 114 then Some 13%N
  else if N.eqb c 116 then Some 9%N
  else None.

Definition lexStep (st : lexMode * list token) (c : char)
    : option (lexMode * list token) :=
  let (mode, out) := st in
  match mode with
  | LNormal => lexNormal c out
  | LString acc =>
      if N.eqb c 34 then Some (LNormal, TString (rev acc) :: out)
      else if N.eqb c 92 then Some (LEscape acc, out)
      else if (c <? 32)%N then None
      else Some (LString (c :: acc), out)
  | LEscape acc =>
      if N.eqb c 117 then Some (LUnicode acc 4 0%N, out)
      else match unescape c with
           | Some d => Some (LString (d :: acc), out)
           | None => None
           end
  | LUnicode acc todo value =>
      match hexValue c with
      | Some h =>
          let value' := (value * 16 + h)%N in
          match todo with
          | 0 | 1 => Some (LString (value' :: acc), out)
          | S todo' => Some (LUnicode acc todo' value', out)
          end
      | None => None
      end
  | LNumber acc n =>
      match numStep n c with
      | Some n' => Some (LNumber (c :: acc) n', out)
      | None =>
          if numAccepting n then lexNormal c (TNumber (rev acc) :: out)
          else None
      end
  | LWord expected t =>
      match expected with
      | e :: expected' =>
          if N.eqb c e
          then match expected' with
               | [] => Some (LNormal, t :: out)
               | _ :: _ => Some (LWord expected' t, out)
               end
          else None
      | [] => None
      end
  end.

Fixpoint lexAll (st : lexMode * list token) (s : jsstring)
    : option (lexMode * list token) :=
  match s with
  | [] => Some st
  | c :: s' =>
      match lexStep st c with
      | Some st' => lexAll st' s'
      | None => None
      end
  end.

Definition tokenize (s : jsstring) : option (list token) :=
  match lexAll (LNormal, []) s with
  | Some (LNormal, out) => Some (rev out)
  | Some (LNumber acc n, out) =>
      if numAccepting n then Some (rev (TNumber (rev acc) :: out)) else None
  | _ => None
  end.

(** The parser's stack: the containers that are open, innermost first. *)
Inductive frame : Type :=
| FArr (done : list json)
| FObj (done : list (jsstring * json))
| FObjKey (done : list (jsstring * json)) (key : jsstring).

Inductive parseMode : Type :=
| PValue
| PValueOrEnd
| PKeyOrEnd
| PKey
| PColon
| PNext
| PDone (v : json).

(** A value is complete: it goes to the innermost open container. *)
Definition complete (v : json) (stack : list frame)
    : option (list frame * parseMode) :=
  match stack with
  | [] => Some ([], PDone v)
  | FArr done :: stack' => Some (FArr (v :: done) :: stack', PNext)
  | FObjKey done k :: stack' => Some (FObj (obj_set k v done) :: stack', PNext)
  | FObj _ :: _ => None
  end.

Definition startValue (t : token) (stack : list frame)
    : option (list frame * parseMode) :=
  match t with
  | TLBrace => Some (FObj [] :: stack, PKeyOrEnd)
  | TLBracket => Some (FArr [] :: stack, PValueOrEnd)
  | TString s => complete (JStr s) stack
  | TNumber l => complete (JNum l) stack
  | TTrue => complete (JBool true) stack
  | TFalse => complete (JBool false) stack
  | TNull => complete JNull stack
  | _ => None
  end.

Definition closeArray (stack : list frame) : option (list frame * parseMode) :=
  match stack with
  | FArr done :: stack' => complete (JArr (rev done)) stack'
  | _ => None
  end.

Definition closeObject (stack : list frame) : option (list frame * parseMode) :=
  match stack with
  | FObj done :: stack' => complete (JObj done) stack'
  | _ => None
  end.

Definition takeKey (t : token) (stack : list frame)
    : option (list frame * parseMode) :=
  match t, stack with
  | TString k, FObj done :: stack' => Some (FObjKey done k :: stack', PColon)
  | _, _ => None
  end.

Definition parseStep (st : list frame * parseMode) (t : token)
    : option (list frame * parseMode) :=
  let (stack, mode) := st in
  match mode with
  | PValue => startValue t stack
  | PValueOrEnd =>
      match t with
      | TRBracket => closeArray stack
      | _ => startValue t stack
      end
  | PKeyOrEnd =>
      match t with
      | TRBrace => closeObject stack
      | _ => takeKey t stack
      end
  | PKey => takeKey t stack
  | PColon =>
      match t with
      | TColon => Some (stack, PValue)
      | _ => None
      end
  | PNext =>
      match t, stack with
      | TComma, FArr _ :: _ => Some (stack, PValue)
      | TComma, FObj _ :: _ => Some (stack, PKey)
      | TRBracket, FArr _ :: _ => closeArray stack
      | TRBrace, FObj _ :: _ => closeObject stack
      | _, _ => None
      end
  | PDone _ => None
  end.

Fixpoint parseAll (st : list frame * parseMode) (ts : list token)
    : option (list frame * parseMode) :=
  match ts with
  | [] => Some st
  | t :: ts' =>
      match parseStep st t with
      | Some st' => parseAll st' ts'
      | None => None
      end
  end.

(** [JSON.parse(text)]; [None] stands for its SyntaxError. *)
Definition parse (text : jsstring) : option json :=
  match tokenize text with
  | Some ts =>
      match parseAll ([], PValue) ts with
      | Some ([], PDone v) => Some v
      | _ => None
      end
  | None => None
  end.

(** *** JSON.stringify *)

Definition hexDigit (n : N) : char :=
  if (n <? 10)%N then (48 + n)%N else (87 + n)%N.

Definition unicodeEscape (c : char) : jsstring :=
  [92; 117; hexDigit (c / 4096 mod 16); hexDigit (c / 256 mod 16);
   hexDigit (c / 16 mod 16); hexDigit (c mod 16)]%N.

Definition isHighSurrogate (c : char) : bool := between 55296 56319 c.
Definition isLowSurrogate (c : char) : bool := between 56320 57343 c.

(** QuoteJSONString, without the enclosing quotes: the short escapes,
    [\uXXXX] for the other control characters and for a surrogate that has
    no partner. *)
Fixpoint quoteChars (s : jsstring) : jsstring :=
  match s with
  | [] => []
  | c :: s' =>
      if N.eqb c 8 then js "\b" ++ quoteChars s'
      else if N.eqb c 9 then js "\t" ++ quoteChars s'
      else if N.eqb c 10 then js "\n" ++ quoteChars s'
      else if N.eqb c 12 then js "\f" ++ quoteChars s'
      else if N.eqb c 13 then js "\r" ++ quoteChars s'
      else if N.eqb c 34 then [92; 34]%N ++ quoteChars s'
      else if N.eqb c 92 then [92; 92]%N ++ quoteChars s'
      else if (c <? 32)%N then unicodeEscape c ++ quoteChars s'
      else if isHighSurrogate c then
        match s' with
        | d :: s'' =>
            if isLowSurrogate d then c :: d :: quoteChars s''
            else unicodeEscape c ++ quoteChars s'
        | [] => unicodeEscape c
        end
      else if isLowSurrogate c then unicodeEscape c ++ quoteChars s'
      else c :: quoteChars s'
  end.

Definition quote (s : jsstring) : jsstring := [34%N] ++ quoteChars s ++ [34%N].

Section Stringify.
Context {RT : Runtime}.

Fixpoint stringify (v : json) : jsstring :=
  match v with
  | JNull => js "null"
  | JBool true => js "true"
  | JBool false => js "false"
  | JNum l => serializeNumber l
  | JStr s => quote s
  | JArr elems =>
      js "[" ++ join (js ",") (map stringify elems) ++ js "]"
  | JObj members =>
      js "{"
      ++ join (js ",")
           (map (fun kv => quote (fst kv) ++ js ":" ++ stringify (snd kv)) members)
      ++ js "}"
  end.

End Stringify.

End Json.

(* ===================================================================== *)
(** ** Rules: keys and patterns *)
(* ===================================================================== *)

Import Rx Json.

(** A sensitive key is spliced as it is into the source of a regular
    expression.  The keys of this development are the ones that mean
    themselves there: letters, digits, underscore, hyphen and space.  Keys
    that carry pattern syntax are not modelled. *)
Definition plainChar (c : char) : bool :=
  isWord c || N.eqb c 45 || N.eqb c 32.

Record Key := mkKey {
  key_text : jsstring;
  key_plain : forallb plainChar key_text = true
}.

Definition toKey (s : jsstring) : option Key :=
  match forallb plainChar s as b return (forallb plainChar s = b -> option Key) with
  | true => fun H => Some (mkKey s H)
  | false => fun _ => None
  end eq_refl.

Definition keysOf (l : list jsstring) : list Key :=
  flat_map (fun s => match toKey s with Some k => [k] | None => [] end) l.

(** [String(key).toLowerCase()] *)
Definition lowerKey (k : Key) : Key :=
  match toKey (toLowerCase (key_text k)) with
  | Some k' => k'
  | None => k
  end.

(** The replacement of a pattern: a template string, a function of the
    match and the whole input, nothing, or a value of another type. *)
Inductive Replacement : Type :=
| RString (template : jsstring)
| RFunction (f : Match -> jsstring -> result jsstring)
| RUndefined
| RInvalid.

Record Pattern := mkPattern {
  p_name : jsstring;
  p_regex : option RegExp;
  p_replacement : Replacement;
  p_enabled : bool
}.

Module Config.

Definition SENSITIVE_KEYS : list Key := keysOf (map js [
  "password"; "passwd"; "pwd"; "pass"; "passphrase";
  "token"; "access_token"; "refresh_token"; "auth_token"; "api_token";
  "bearer_token"; "authorization"; "auth"; "bearer"; "oauth"; "jwt";
  "cookie"; "session"; "sessionid"; "jsessionid"; "csrf_token"; "xsrf_token";
  "secret"; "key"; "private_key"; "public_key"; "api_key"; "app_key";
  "app_secret"; "client_secret"; "consumer_secret"; "encryption_key";
  "decrypt_key";
  "credential"; "credentials"; "cred"; "cert"; "certificate";
  "signature"; "sign"; "hash"; "salt";
  "pin"; "code"; "otp"; "captcha"; "verification_code"; "verify_code";
  "db_password"; "database_password"; "mysql_password"; "redis_password";
  "connection_string"; "dsn";
  "cvv"; "cvc"; "security_code"; "card_number"; "account_number";
  "bank_account"; "payment_method"
]%string).

(** The character classes of the rules: [\d], [[a-b]], a class of listed
    characters, [[A-Za-z0-9]], [[A-Z0-9]], [[0-9A-Fa-f]], [[0-9a-f]] and
    [[\u4e00-\u9fa5]]. *)
Definition digit : Regex := Class false isDigit.
Definition inRange (lo hi : string) (c : char) : bool :=
  match js lo, js hi with
  | [a], [b] => between a b c
  | _, _ => false
  end.
Definition range (lo hi : string) : Regex := Class false (inRange lo hi).
Definition oneOf (s : string) (c : char) : bool := existsb (N.eqb c) (js s).
Definition among (cs : list char) (c : char) : bool := existsb (N.eqb c) cs.
Definition alnum (c : char) : bool := isAlpha c || isDigit c.
Definition upperAlnum (c : char) : bool := isUpper c || isDigit c.
Definition lowerHex (c : char) : bool := isDigit c || between 97 102 c.
Definition hex (c : char) : bool := lowerHex c || between 65 70 c.
Definition han (c : char) : bool := between 19968 40869 c.
Definition backslash : char := 92.
Definition str (s : string) : Regex := lit (js s).

(** [(match, x) => match.replace(x, t)], where [x] is the first group. *)
Definition replaceGroup (t : jsstring) : Replacement :=
  RFunction (fun m _ =>
    let x := match cap 1 m with
             | Some s => s
             | None => js "undefined"
             end in
    Ok (replaceString x t (m_str m))).

(** The flags [g], [gi] and [gm]. *)
Definition g (r : Regex) : RegExp := mkRegExp r true false false.
Definition gi (r : Regex) : RegExp := mkRegExp r true true false.
Definition gm (r : Regex) : RegExp := mkRegExp r true false true.

(** [/\b(1[3-9]\d)(\d{4})(\d{4})\b/g] *)
Definition chinese_phone : Pattern :=
  mkPattern (js "chinese_phone")
    (Some (g (seqs [WordB;
                    Group 1 (seqs [str "1"; range "3" "9"; digit]);
                    Group 2 (Times 4 digit);
                    Group 3 (Times 4 digit);
                    WordB])))
    (RString (js "$1****$3"))
    true.

(** [/\b[A-Za-z0-9._%+-]+@[A-Za-z0-9.-]+\.[A-Za-z]{2,}\b/g] *)
Definition email : Pattern :=
  mkPattern (js "email")
    (Some (g (seqs [WordB;
                    Plus (Class false (fun c => alnum c || oneOf "._%+-" c));
                    str "@";
                    Plus (Class false (fun c => alnum c || oneOf ".-" c));
                    str ".";
                    AtLeast 2 (Class false isAlpha);
                    WordB])))
    (RString (js "***@***.***"))
    true.

(** [/\b(\d{3})\d{6}(19|20)\d{2}(0[1-9]|1[0-2])(0[1-9]|[12]\d|3[01])\d{3}[\dXx]\b/g] *)
Definition chinese_id_card : Pattern :=
  mkPattern (js "chinese_id_card")
    (Some (g (seqs [WordB;
                    Group 1 (Times 3 digit);
                    Times 6 digit;
                    Group 2 (Alt (str "19") (str "20"));
                    Times 2 digit;
                    Group 3 (Alt (Seq (str "0") (range "1" "9"))
                                 (Seq (str "1") (range "0" "2")));
                    Group 4 (alts [Seq (str "0") (range "1" "9");
                                   Seq (Class false (oneOf "12")) digit;
                                   Seq (str "3") (Class false (oneOf "01"))]);
                    Times 3 digit;
                    Class false (fun c => isDigit c || oneOf "Xx" c);
                    WordB])))
    (RString (js "$1***************"))
    true.

(** [/\b\d{4}[\s-]?\d{4}[\s-]?\d{4}[\s-]?\d{4,7}\b/g] *)
Definition bank_card : Pattern :=
  let sep := Opt (Class false (fun c => isSpace c || oneOf "-" c)) in
  mkPattern (js "bank_card")
    (Some (g (seqs [WordB; Times 4 digit; sep; Times 4 digit; sep;
                    Times 4 digit; sep; FromTo 4 7 digit; WordB])))
    (RString (js "****-****-****-****"))
    false.

(** [/\b[A-Za-z0-9-_]+\.[A-Za-z0-9-_]+\.[A-Za-z0-9-_]+\b/g] *)
Definition jwt_token : Pattern :=
  let part := Plus (Class false (fun c => alnum c || oneOf "-_" c)) in
  mkPattern (js "jwt_token")
    (Some (g (seqs [WordB; part; str "."; part; str "."; part; WordB])))
    (RString (js "eyJ***.***.***.***"))
    true.

(** [/\b(?:(?:25[0-5]|2[0-4][0-9]|[01]?[0-9][0-9]?)\.){3}(?:25[0-5]|2[0-4][0-9]|[01]?[0-9][0-9]?)\b/g] *)
Definition ipv4_address : Pattern :=
  let octet := alts [Seq (str "25") (range "0" "5");
                     seqs [str "2"; range "0" "4"; digit];
                     seqs [Opt (Class false (oneOf "01")); digit; Opt digit]] in
  mkPattern (js "ipv4_address")
    (Some (g (seqs [WordB; Times 3 (Seq octet (str ".")); octet; WordB])))
    (RString (js "***.***.***.***"))
    false.

(** [/https?:\/\/[^\s]+[?&]([^=\s]+=[^&\s]+)/g], with the replacement
    [(match) => { const [baseUrl] = match.split('?'); return `${baseUrl}?***=***`; }] *)
Definition url_with_params : Pattern :=
  mkPattern (js "url_with_params")
    (Some (g (seqs [str "http"; Opt (str "s"); str "://";
                    Plus (Class true isSpace);
                    Class false (oneOf "?&");
                    Group 1 (seqs [Plus (Class true (fun c => oneOf "=" c || isSpace c));
                                   str "=";
                                   Plus (Class true (fun c => oneOf "&" c || isSpace c))])])))
    (RFunction (fun m _ => Ok (beforeChar 63 (m_str m) ++ js "?***=***")))
    false.

(** [/\b\d{4,}\b/g] *)
Definition numeric_ids : Pattern :=
  mkPattern (js "numeric_ids")
    (Some (g (seqs [WordB; AtLeast 4 digit; WordB])))
    (RString (js "***"))
    false.

(** [/\b\d{2}:\d{2}:\d{2}\b/g] *)
Definition timestamps : Pattern :=
  mkPattern (js "timestamps")
    (Some (g (seqs [WordB; Times 2 digit; str ":"; Times 2 digit; str ":";
                    Times 2 digit; WordB])))
    (RString (js "**:**:**"))
    false.

(** [/(?:姓名|用户名|真实姓名|name)[:=]\s*([\u4e00-\u9fa5]{2,4})/gi],
    with the replacement [(match, name) => match.replace(name, '***')] *)
Definition chinese_name : Pattern :=
  mkPattern (js "chinese_name")
    (Some (gi (seqs [alts [lit [22995; 21517]%N;
                           lit [29992; 25143; 21517]%N;
                           lit [30495; 23454; 22995; 21517]%N;
                           str "name"];
                     Class false (oneOf ":=");
                     Star (Class false isSpace);
                     Group 1 (FromTo 2 4 (Class false han))])))
    (replaceGroup (js "***"))
    false.

(** [/\b[京津沪渝冀豫云辽黑湘皖鲁新苏浙赣鄂桂甘晋蒙陕吉闽贵粤青藏川宁琼使领][A-Z][A-Z0-9]{4,5}[A-Z0-9挂学警港澳]\b/g] *)
Definition license_plate : Pattern :=
  mkPattern (js "license_plate")
    (Some (g (seqs [WordB;
                    Class false (among [20140; 27941; 27818; 28189; 20864;
                        35947; 20113; 36797; 40657; 28248; 30358; 40065;
                        26032; 33487; 27993; 36195; 37122; 26690; 29976;
                        26187; 33945; 38485; 21513; 38397; 36149; 31908;
                        38738; 34255; 24029; 23425; 29756; 20351; 39046]%N);
                    Class false isUpper;
                    FromTo 4 5 (Class false upperAlnum);
                    Class false (fun c => upperAlnum c ||
                        among [25346; 23398; 35686; 28207; 28595]%N c);
                    WordB])))
    (RString (js "***A12345"))
    false.

(** [/\b[A-Z]{1,2}\d{7,9}\b/g] *)
Definition passport_number : Pattern :=
  mkPattern (js "passport_number")
    (Some (g (seqs [WordB;
                    FromTo 1 2 (Class false isUpper);
                    FromTo 7 9 digit;
                    WordB])))
    (RString (js "G********"))
    false.

(** [/\b([0-9A-Fa-f]{2}[:-]){5}([0-9A-Fa-f]{2})\b/g] *)
Definition mac_address : Pattern :=
  mkPattern (js "mac_address")
    (Some (g (seqs [WordB;
                    Times 5 (Group 1 (seqs [Times 2 (Class false hex);
                                            Class false (oneOf ":-")]));
                    Group 2 (Times 2 (Class false hex));
                    WordB])))
    (RString (js "**:**:**:**:**:**"))
    false.

(** [/\b\d{15}\b/g] *)
Definition imei : Pattern :=
  mkPattern (js "imei")
    (Some (g (seqs [WordB; Times 15 digit; WordB])))
    (RString (js "***************"))
    false.

(** [/\b[0-9a-f]{8}-[0-9a-f]{4}-[0-9a-f]{4}-[0-9a-f]{4}-[0-9a-f]{12}\b/gi] *)
Definition uuid : Pattern :=
  mkPattern (js "uuid")
    (Some (gi (seqs [WordB;
                     Times 8 (Class false lowerHex);
                     str "-";
                     Times 4 (Class false lowerHex);
                     str "-";
                     Times 4 (Class false lowerHex);
                     str "-";
                     Times 4 (Class false lowerHex);
                     str "-";
                     Times 12 (Class false lowerHex);
                     WordB])))
    (RString (js "********-****-****-****-************"))
    false.

(** [/\bcvv[:=]\s*\d{3,4}\b/gi] *)
Definition cvv_code : Pattern :=
  mkPattern (js "cvv_code")
    (Some (gi (seqs [WordB;
                     str "cvv";
                     Class false (oneOf ":=");
                     Star (Class false isSpace);
                     FromTo 3 4 digit;
                     WordB])))
    (RString (js "cvv=***"))
    false.

(** [/(?:金额|amount|price|总价)[:=]\s*[¥$€£]?([1-9]\d{4,}(?:\.\d{2})?)/gi],
    with the replacement [(match, amount) => match.replace(amount, '*****.00')] *)
Definition amount : Pattern :=
  mkPattern (js "amount")
    (Some (gi (seqs [alts [lit [37329; 39069]%N;
                           str "amount";
                           str "price";
                           lit [24635; 20215]%N];
                     Class false (oneOf ":=");
                     Star (Class false isSpace);
                     Opt (Class false (among [165; 36; 8364; 163]%N));
                     Group 1 (seqs [range "1" "9";
                                    AtLeast 4 digit;
                                    Opt (seqs [str "."; Times 2 digit])])])))
    (replaceGroup (js "*****.00"))
    false.

(** [/\b\d{1,3}\.\d{4,}[,，]\s*\d{1,3}\.\d{4,}\b/g] *)
Definition gps_coordinates : Pattern :=
  mkPattern (js "gps_coordinates")
    (Some (g (seqs [WordB;
                    FromTo 1 3 digit;
                    str ".";
                    AtLeast 4 digit;
                    Class false (among [44; 65292]%N);
                    Star (Class false isSpace);
                    FromTo 1 3 digit;
                    str ".";
                    AtLeast 4 digit;
                    WordB])))
    (RString (js "***.****,***.****"))
    false.

(** [/(?:地址|住址|address)[:=]\s*([\u4e00-\u9fa5\w\s]{10,})/gi],
    with the replacement [(match, addr) => match.replace(addr, '***详细地址***')] *)
Definition address : Pattern :=
  mkPattern (js "address")
    (Some (gi (seqs [alts [lit [22320; 22336]%N;
                           lit [20303; 22336]%N;
                           str "address"];
                     Class false (oneOf ":=");
                     Star (Class false isSpace);
                     Group 1 (AtLeast 10 (Class false (fun c => han c ||
                                              isWord c || isSpace c)))])))
    (replaceGroup (js "***" ++ [35814; 32454; 22320; 22336]%N ++ js "***"))
    false.

(** [/\b[A-Za-z0-9+/]{20,}={0,2}\b/g] *)
Definition base64_data : Pattern :=
  mkPattern (js "base64_data")
    (Some (g (seqs [WordB;
                    AtLeast 20 (Class false (fun c => alnum c || oneOf "+/" c));
                    FromTo 0 2 (str "=");
                    WordB])))
    (RString (js "base64EncodedData***"))
    true.

(** [/^(==> Parameters: )(.+)$/gm],
    with the replacement [(match, prefix, params) => { return match; }] *)
Definition sql_parameter_masking : Pattern :=
  mkPattern (js "sql_parameter_masking")
    (Some (gm (seqs [Bol;
                     Group 1 (str "==> Parameters: ");
                     Group 2 (Plus Dot);
                     Eol])))
    (RFunction (fun m _ => Ok (m_str m)))
    false.

(** [/\b[0-9a-fA-F]{32,}\b/g] *)
Definition hex_key : Pattern :=
  mkPattern (js "hex_key")
    (Some (g (seqs [WordB; AtLeast 32 (Class false hex); WordB])))
    (RString (js "hexKey***"))
    false.

(** [/[C-Z]:\\(?:Users|用户)\\[^\s\\]+/gi] *)
Definition file_path : Pattern :=
  mkPattern (js "file_path")
    (Some (gi (seqs [range "C" "Z";
                     str ":";
                     Lit backslash;
                     alts [str "Users"; lit [29992; 25143]%N];
                     Lit backslash;
                     Plus (Class true (fun c => isSpace c ||
                               N.eqb backslash c))])))
    (RString (js "C:\Users\***"))
    false.

(** [/(jdbc|mongodb|redis|mysql):\/\/[^\s;]+/gi] *)
Definition database_connection : Pattern :=
  mkPattern (js "database_connection")
    (Some (gi (seqs [Group 1 (alts [str "jdbc";
                                    str "mongodb";
                                    str "redis";
                                    str "mysql"]);
                     str "://";
                     Plus (Class true (fun c => isSpace c || oneOf ";" c))])))
    (RString (js "$1://***:***@***:****/***"))
    false.

(** [/\+\d{1,3}[\s-]?\d{3,4}[\s-]?\d{3,4}[\s-]?\d{3,4}/g] *)
Definition international_phone : Pattern :=
  mkPattern (js "international_phone")
    (Some (g (seqs [str "+";
                    FromTo 1 3 digit;
                    Opt (Class false (fun c => isSpace c || oneOf "-" c));
                    FromTo 3 4 digit;
                    Opt (Class false (fun c => isSpace c || oneOf "-" c));
                    FromTo 3 4 digit;
                    Opt (Class false (fun c => isSpace c || oneOf "-" c));
                    FromTo 3 4 digit])))
    (RString (js "+***-***-***-***"))
    false.

(** [/\b\d{3}-\d{2}-\d{4}\b/g] *)
Definition ssn : Pattern :=
  mkPattern (js "ssn")
    (Some (g (seqs [WordB;
                    Times 3 digit;
                    str "-";
                    Times 2 digit;
                    str "-";
                    Times 4 digit;
                    WordB])))
    (RString (js "***-**-****"))
    false.

(** [/(?:驾照|驾驶证|license)[:=]\s*([A-Z0-9]{10,20})/gi],
    with the replacement [(match, license) => match.replace(license, '***')] *)
Definition driver_license : Pattern :=
  mkPattern (js "driver_license")
    (Some (gi (seqs [alts [lit [39550; 29031]%N;
                           lit [39550; 39542; 35777]%N;
                           str "license"];
                     Class false (oneOf ":=");
                     Star (Class false isSpace);
                     Group 1 (FromTo 10 20 (Class false upperAlnum))])))
    (replaceGroup (js "***"))
    false.

(** [/(?:学号|工号|员工号|student_id|employee_id)[:=]\s*([A-Z0-9]{6,15})/gi],
    with the replacement [(match, id) => match.replace(id, '***')] *)
Definition student_id : Pattern :=
  mkPattern (js "student_id")
    (Some (gi (seqs [alts [lit [23398; 21495]%N;
                           lit [24037; 21495]%N;
                           lit [21592; 24037; 21495]%N;
                           str "student_id";
                           str "employee_id"];
                     Class false (oneOf ":=");
                     Star (Class false isSpace);
                     Group 1 (FromTo 6 15 (Class false upperAlnum))])))
    (replaceGroup (js "***"))
    false.

(** [/(?:医保|社保|保险|medical|insurance)[:=]\s*([0-9]{10,20})/gi],
    with the replacement [(match, id) => match.replace(id, '***')] *)
Definition medical_id : Pattern :=
  mkPattern (js "medical_id")
    (Some (gi (seqs [alts [lit [21307; 20445]%N;
                           lit [31038; 20445]%N;
                           lit [20445; 38505]%N;
                           str "medical";
                           str "insurance"];
                     Class false (oneOf ":=");
                     Star (Class false isSpace);
                     Group 1 (FromTo 10 20 digit)])))
    (replaceGroup (js "***"))
    false.

(** [/(?:fingerprint|face_id|biometric|生物特征)[:=]\s*([a-f0-9]{32,})/gi],
    with the replacement [(match, hash) => match.replace(hash, 'bioHash***')] *)
Definition biometric_hash : Pattern :=
  mkPattern (js "biometric_hash")
    (Some (gi (seqs [alts [str "fingerprint";
                           str "face_id";
                           str "biometric";
                           lit [29983; 29289; 29305; 24449]%N];
                     Class false (oneOf ":=");
                     Star (Class false isSpace);
                     Group 1 (AtLeast 32 (Class false lowerHex))])))
    (replaceGroup (js "bioHash***"))
    false.

(** [/(?:病历|诊断|症状|medication|diagnosis)[:=]\s*([\u4e00-\u9fa5\w\s]{5,})/gi],
    with the replacement [(match, info) => match.replace(info, '***医疗信息***')] *)
Definition health_info : Pattern :=
  mkPattern (js "health_info")
    (Some (gi (seqs [alts [lit [30149; 21382]%N;
                           lit [35786; 26029]%N;
                           lit [30151; 29366]%N;
                           str "medication";
                           str "diagnosis"];
                     Class false (oneOf ":=");
                     Star (Class false isSpace);
                     Group 1 (AtLeast 5 (Class false (fun c => han c ||
                                             isWord c || isSpace c)))])))
    (replaceGroup (js "***" ++ [21307; 30103; 20449; 24687]%N ++ js "***"))
    false.

(** [/\b[A-Z]{2}\d{2}[A-Z0-9]{4}\d{7}([A-Z0-9]?){0,16}\b/g] *)
Definition iban : Pattern :=
  mkPattern (js "iban")
    (Some (g (seqs [WordB;
                    Times 2 (Class false isUpper);
                    Times 2 digit;
                    Times 4 (Class false upperAlnum);
                    Times 7 digit;
                    FromTo 0 16 (Group 1 (Opt (Class false upperAlnum)));
                    WordB])))
    (RString (js "GB**ABCD***********"))
    false.

(** [/\b[A-Z]{6}[A-Z0-9]{2}([A-Z0-9]{3})?\b/g] *)
Definition swift_code : Pattern :=
  mkPattern (js "swift_code")
    (Some (g (seqs [WordB;
                    Times 6 (Class false isUpper);
                    Times 2 (Class false upperAlnum);
                    Opt (Group 1 (Times 3 (Class false upperAlnum)));
                    WordB])))
    (RString (js "ABCD***"))
    false.

(** [/\b(1|3|bc1)[A-Za-z0-9]{25,62}\b|\b0x[a-fA-F0-9]{40}\b/g] *)
Definition crypto_address : Pattern :=
  mkPattern (js "crypto_address")
    (Some (g (alts [seqs [WordB;
                          Group 1 (alts [str "1"; str "3"; str "bc1"]);
                          FromTo 25 62 (Class false alnum);
                          WordB];
                    seqs [WordB;
                          str "0x";
                          Times 40 (Class false hex);
                          WordB]])))
    (RString (js "crypto***"))
    false.

(** [/(?:serial|序列号|sn)[:=]\s*([A-Z0-9]{8,20})/gi],
    with the replacement [(match, sn) => match.replace(sn, 'SN***')] *)
Definition serial_number : Pattern :=
  mkPattern (js "serial_number")
    (Some (gi (seqs [alts [str "serial";
                           lit [24207; 21015; 21495]%N;
                           str "sn"];
                     Class false (oneOf ":=");
                     Star (Class false isSpace);
                     Group 1 (FromTo 8 20 (Class false upperAlnum))])))
    (replaceGroup (js "SN***"))
    false.

(** [/(?:device_id|fingerprint|设备指纹)[:=]\s*([a-f0-9]{16,})/gi],
    with the replacement [(match, fp) => match.replace(fp, 'deviceFP***')] *)
Definition device_fingerprint : Pattern :=
  mkPattern (js "device_fingerprint")
    (Some (gi (seqs [alts [str "device_id";
                           str "fingerprint";
                           lit [35774; 22791; 25351; 32441]%N];
                     Class false (oneOf ":=");
                     Star (Class false isSpace);
                     Group 1 (AtLeast 16 (Class false lowerHex))])))
    (replaceGroup (js "deviceFP***"))
    false.

(** [/(?:wifi|wlan|wireless).*(?:password|pwd|pass)[:=]\s*([^\s]{6,})/gi],
    with the replacement [(match, pwd) => match.replace(pwd, '***')] *)
Definition wifi_password : Pattern :=
  mkPattern (js "wifi_password")
    (Some (gi (seqs [alts [str "wifi"; str "wlan"; str "wireless"];
                     Star Dot;
                     alts [str "password"; str "pwd"; str "pass"];
                     Class false (oneOf ":=");
                     Star (Class false isSpace);
                     Group 1 (AtLeast 6 (Class true isSpace))])))
    (replaceGroup (js "***"))
    false.

(** [/(https?:\/\/)[^:]+:[^@]+@/gi] *)
Definition domain_credentials : Pattern :=
  mkPattern (js "domain_credentials")
    (Some (gi (seqs [Group 1 (seqs [str "http"; Opt (str "s"); str "://"]);
                     Plus (Class true (oneOf ":"));
                     str ":";
                     Plus (Class true (oneOf "@"));
                     str "@"])))
    (RString (js "$1***:***@"))
    false.

(** [/(?:订单|order)[:=]\s*([A-Z0-9]{10,})/gi],
    with the replacement [(match, order) => match.replace(order, 'ORDER***')] *)
Definition order_number : Pattern :=
  mkPattern (js "order_number")
    (Some (gi (seqs [alts [lit [35746; 21333]%N; str "order"];
                     Class false (oneOf ":=");
                     Star (Class false isSpace);
                     Group 1 (AtLeast 10 (Class false upperAlnum))])))
    (replaceGroup (js "ORDER***"))
    false.

(** [/(?:交易|transaction|流水)[:=]\s*([A-Z0-9]{12,})/gi],
    with the replacement [(match, txn) => match.replace(txn, 'TXN***')] *)
Definition transaction_id : Pattern :=
  mkPattern (js "transaction_id")
    (Some (gi (seqs [alts [lit [20132; 26131]%N;
                           str "transaction";
                           lit [27969; 27700]%N];
                     Class false (oneOf ":=");
                     Star (Class false isSpace);
                     Group 1 (AtLeast 12 (Class false upperAlnum))])))
    (replaceGroup (js "TXN***"))
    false.

(** [/(?:商户|merchant)[:=]\s*([0-9]{8,})/gi],
    with the replacement [(match, mid) => match.replace(mid, 'MERCHANT***')] *)
Definition merchant_id : Pattern :=
  mkPattern (js "merchant_id")
    (Some (gi (seqs [alts [lit [21830; 25143]%N; str "merchant"];
                     Class false (oneOf ":=");
                     Star (Class false isSpace);
                     Group 1 (AtLeast 8 digit)])))
    (replaceGroup (js "MERCHANT***"))
    false.

(** [/[C-Z]:\\(?:Users|用户)\\[^\s\\]+/gi] *)
Definition windows_path : Pattern :=
  mkPattern (js "windows_path")
    (Some (gi (seqs [range "C" "Z";
                     str ":";
                     Lit backslash;
                     alts [str "Users"; lit [29992; 25143]%N];
                     Lit backslash;
                     Plus (Class true (fun c => isSpace c ||
                               N.eqb backslash c))])))
    (RString (js "C:\Users\***"))
    false.

(** [/\/home\/[^\s\/\\]+/g] *)
Definition linux_path : Pattern :=
  mkPattern (js "linux_path")
    (Some (g (seqs [str "/home/";
                    Plus (Class true (fun c => isSpace c ||
                              among [47; backslash]%N c))])))
    (RString (js "/home/***"))
    false.

(** [/(https?:\/\/[^\/]+)(\/api\/v\d+\/[^\s?]+)/gi] *)
Definition api_endpoint : Pattern :=
  mkPattern (js "api_endpoint")
    (Some (gi (seqs [Group 1 (seqs [str "http";
                                    Opt (str "s");
                                    str "://";
                                    Plus (Class true (oneOf "/"))]);
                     Group 2 (seqs [str "/api/v";
                                    Plus digit;
                                    str "/";
                                    Plus (Class true (fun c => isSpace c ||
                                              oneOf "?" c))])])))
    (RString (js "$1/api/v*/***"))
    false.

(** [/\bqq[:=]?\s*([1-9][0-9]{4,10})\b/gi],
    with the replacement [(match, qq) => match.replace(qq, '***')] *)
Definition qq_number : Pattern :=
  mkPattern (js "qq_number")
    (Some (gi (seqs [WordB;
                     str "qq";
                     Opt (Class false (oneOf ":="));
                     Star (Class false isSpace);
                     Group 1 (seqs [range "1" "9"; FromTo 4 10 digit]);
                     WordB])))
    (replaceGroup (js "***"))
    false.

(** [/(?:微信|wechat|wx)[:=]\s*([a-zA-Z][a-zA-Z0-9_-]{5,19})/gi],
    with the replacement [(match, wx) => match.replace(wx, 'wx***')] *)
Definition wechat_id : Pattern :=
  mkPattern (js "wechat_id")
    (Some (gi (seqs [alts [lit [24494; 20449]%N; str "wechat"; str "wx"];
                     Class false (oneOf ":=");
                     Star (Class false isSpace);
                     Group 1 (seqs [Class false isAlpha;
                                    FromTo 5 19 (Class false (fun c => alnum c
                                                     || oneOf "_-" c))])])))
    (replaceGroup (js "wx***"))
    false.

(** [/(?:学校|大学|university|school)[:=]\s*([\u4e00-\u9fa5\w\s]{4,})/gi],
    with the replacement [(match, school) => match.replace(school, '***学校***')] *)
Definition education_record : Pattern :=
  mkPattern (js "education_record")
    (Some (gi (seqs [alts [lit [23398; 26657]%N;
                           lit [22823; 23398]%N;
                           str "university";
                           str "school"];
                     Class false (oneOf ":=");
                     Star (Class false isSpace);
                     Group 1 (AtLeast 4 (Class false (fun c => han c ||
                                             isWord c || isSpace c)))])))
    (replaceGroup (js "***" ++ [23398; 26657]%N ++ js "***"))
    false.

(** [/(?:公司|employer|company)[:=]\s*([\u4e00-\u9fa5\w\s]{4,})/gi],
    with the replacement [(match, company) => match.replace(company, '***公司***')] *)
Definition company_info : Pattern :=
  mkPattern (js "company_info")
    (Some (gi (seqs [alts [lit [20844; 21496]%N;
                           str "employer";
                           str "company"];
                     Class false (oneOf ":=");
                     Star (Class false isSpace);
                     Group 1 (AtLeast 4 (Class false (fun c => han c ||
                                             isWord c || isSpace c)))])))
    (replaceGroup (js "***" ++ [20844; 21496]%N ++ js "***"))
    false.

(** [PATTERNS], in the order of config.js. *)
Definition PATTERNS : list Pattern :=
  [chinese_phone; email; chinese_id_card; bank_card; jwt_token; ipv4_address;
   url_with_params; numeric_ids; timestamps; chinese_name; license_plate;
   passport_number; mac_address; imei; uuid; cvv_code; amount;
   gps_coordinates; address; base64_data; sql_parameter_masking; hex_key;
   file_path; database_connection; international_phone; ssn; driver_license;
   student_id; medical_id; biometric_hash; health_info; iban; swift_code;
   crypto_address; serial_number; device_fingerprint; wifi_password;
   domain_credentials; order_number; transaction_id; merchant_id;
   windows_path; linux_path; api_endpoint; qq_number; wechat_id;
   education_record; company_info].

Definition KV_SEPARATORS : list jsstring := map js ["="; ":"; "=>"; "->"]%string.

Definition DEFAULT_MASK : jsstring := js "***".

Record Options := mkOptions {
  outputSuffix : jsstring;
  encoding : jsstring;
  highWaterMark : N;
  preserveLineEndings : bool;
  skipBinaryFiles : bool;
  maxFileSize : N;
  concurrency : nat
}.

Definition DEFAULT_OPTIONS : Options :=
  mkOptions (js ".masked.log") (js "utf8") (64 * 1024) true true
    (10 * 1024 * 1024 * 1024) 4.

End Config.

(* ===================================================================== *)
(** ** class LogScrubber (src/core/scrubber.js) *)
(* ===================================================================== *)

(** A value passed where a line is expected. *)
Inductive jsval : Type :=
| VUndefined
| VNull
| VBool (b : bool)
| VNumber (n : Z)
| VString (s : jsstring).

Module Scrubber.

(** The options object given to the constructor; [None] is an absent (or
    ill-typed) field. *)
Record ScrubberOptions := mkScrubberOptions {
  o_enableMasking : option bool;
  o_maskUrlParams : option bool;
  o_sensitiveKeys : option (list Key);
  o_patterns : option (list Pattern);
  o_kvSeparators : option (list jsstring);
  o_defaultMask : option jsstring
}.

(** The fields the constructor sets and no method writes. *)
Record Scrubber := mkScrubber {
  enableMasking : bool;
  maskUrlParams : bool;
  sensitiveKeys : list Key;
  patterns : list Pattern;
  kvSeparators : list jsstring;
  defaultMask : jsstring
}.

(** [this.stats] *)
Record Stats := mkStats {
  totalLines : nat;
  maskedLines : nat;
  errors : nat;
  patternMatches : list (jsstring * nat)
}.

(** A [Set] keeps the first occurrence of each element. *)
Fixpoint dedupKeys (seen : list jsstring) (ks : list Key) : list Key :=
  match ks with
  | [] => []
  | k :: ks' =>
      if existsb (str_eqb (key_text k)) seen then dedupKeys seen ks'
      else k :: dedupKeys (key_text k :: seen) ks'
  end.

Definition orDefault {A} (o : option A) (d : A) : A :=
  match o with
  | Some a => a
  | None => d
  end.

(** [!== false] *)
Definition notFalse (o : option bool) : bool := orDefault o true.

Definition emptyStats : Stats := mkStats 0 0 0 [].

(** [constructor(options = {})] *)
Definition new (opts : ScrubberOptions) : Scrubber * Stats :=
  (mkScrubber
     (notFalse (o_enableMasking opts))
     (notFalse (o_maskUrlParams opts))
     (dedupKeys [] (map lowerKey (orDefault (o_sensitiveKeys opts) Config.SENSITIVE_KEYS)))
     (filter p_enabled (orDefault (o_patterns opts) Config.PATTERNS))
     (orDefault (o_kvSeparators opts) Config.KV_SEPARATORS)
     (match o_defaultMask opts with
      | Some (c :: m) => c :: m
      | _ => Config.DEFAULT_MASK
      end),
   emptyStats).

Definition noOptions : ScrubberOptions :=
  mkScrubberOptions None None None None None None.

Definition resetStats (st : Stats) : Stats := emptyStats.

(** [this.sensitiveKeys.has(k)] *)
Definition hasKey (this : Scrubber) (k : jsstring) : bool :=
  existsb (fun key => str_eqb k (key_text key)) (sensitiveKeys this).

(** The result of [maskJsonLine] on a string. *)
Record JsonLine := mkJsonLine {
  isJson : bool;
  jl_masked : jsstring;
  jl_hasChanges : bool
}.

Definition notJson (line : jsstring) : JsonLine := mkJsonLine false line false.

Definition space : Regex := Class false isSpace.

(** [new RegExp(`(${key}\\s*[:=]\\s* )([^\\s\\n\\r,;&Q']+)`, 'gi')], where
    Q stands for the double quote (and the source has no blank before the
    closing parenthesis). *)
Definition leafRegex (key : Key) : RegExp :=
  mkRegExp
    (Seq (Group 1 (seqs [lit (key_text key); Star space;
                         Class false (Config.oneOf ":="); Star space]))
         (Group 2 (Plus (Class true (fun c =>
            isSpace c || N.eqb c 10 || N.eqb c 13 || Config.oneOf ",;&'" c
            || N.eqb c 34)))))
    true true false.

(** [value !== this.defaultMask] *)
Definition strictNotEqual (value : json) (s : jsstring) : bool :=
  match value with
  | JStr t => negb (str_eqb t s)
  | _ => true
  end.

Section MaskJson.
Context {RT : Runtime}.
Variable this : Scrubber.

(** The loop over the sensitive keys on a string value: each key's
    expression replaces its matches by the prefix and the mask. *)
Definition maskLeaf (value : jsstring) : jsstring * bool :=
  fold_left
    (fun (acc : jsstring * bool) key =>
       let ps := pieces (leafRegex key) (fst acc) in
       (rebuildPure (fun m => capStr 1 m ++ defaultMask this) ps,
        snd acc || negb (Nat.eqb (length (hits ps)) 0)))
    (sensitiveKeys this) (value, false).

(** [maskValue], the closure of [maskJsonLine]; [nested] is
    [this.maskJsonLine] on a string value. *)
Fixpoint maskValue (nested : jsstring -> JsonLine) (value : json)
    {struct value} : json * bool :=
  match value with
  | JNull => (value, false)
  | JStr s =>
      if str_eqb s (defaultMask this) then (JStr s, false)
      else
        let nestedResult := nested s in
        if isJson nestedResult
        then (JStr (jl_masked nestedResult), jl_hasChanges nestedResult)
        else
          let (result, changed) := maskLeaf s in
          (JStr (if changed then result else s), changed)
  | JArr elems =>
      let masked := map (maskValue nested) elems in
      (JArr (map fst masked), existsb snd masked)
  | JObj members =>
      let (maskedObj, objChanged) :=
        fold_left
          (fun (acc : list (jsstring * json) * bool) (kv : jsstring * json) =>
             let (k, v) := kv in
             let lowerKey := toLowerCase k in
             let (mv, c) :=
               if hasKey this lowerKey
               then (JStr (defaultMask this), strictNotEqual value (defaultMask this))
               else maskValue nested v in
             (obj_assign k mv (fst acc), snd acc || c))
          members ([], false) in
      (JObj maskedObj, objChanged)
  | JBool _ | JNum _ => (value, false)
  end.

(** The body of [maskJsonLine] for a string. *)
Definition maskJsonBody (nested : jsstring -> JsonLine) (line : jsstring)
    : JsonLine :=
  let trimmed := trim line in
  if negb (startsWith trimmed (js "{")) && negb (startsWith trimmed (js "["))
  then notJson line
  else
    match parse trimmed with
    | None => notJson line
    | Some parsed =>
        let (maskedValue, changed) := maskValue nested parsed in
        if negb changed then mkJsonLine true line false
        else mkJsonLine true (stringify maskedValue) true
    end.

(** [maskJsonLine] calls itself on the string values of the parsed line,
    each of which is shorter than the line; [depth] bounds the nesting. *)
Fixpoint maskJsonDepth (depth : nat) (line : jsstring) : JsonLine :=
  match depth with
  | 0 => notJson line
  | S depth' => maskJsonBody (maskJsonDepth depth') line
  end.

Definition maskJsonString (line : jsstring) : JsonLine :=
  maskJsonDepth (S (length line)) line.

(** [maskJsonLine(line)]: [{ isJson, masked, hasChanges }] *)
Definition maskJsonLine (line : jsval) : bool * jsval * bool :=
  match line with
  | VString s =>
      let r := maskJsonString s in
      (isJson r, VString (jl_masked r), jl_hasChanges r)
  | _ => (false, line, false)
  end.

End MaskJson.

(** [new RegExp(`(\\b[\\w.-]+)(\\s*(?:${separatorPattern})\\s* )([^\\s\\n\\r]+)`, "gi")]
    (the source has no blank before the closing parenthesis), where
    [separatorPattern] joins the separators, each with its pattern
    characters escaped, by a bar. *)
Definition kvRegex (this : Scrubber) : RegExp :=
  mkRegExp
    (seqs [Group 1 (Seq WordB
                      (Plus (Class false (fun c => isWord c || Config.oneOf ".-" c))));
           Group 2 (seqs [Star space; alts (map lit (kvSeparators this)); Star space]);
           Group 3 (Plus (Class true (fun c =>
              isSpace c || N.eqb c 10 || N.eqb c 13)))])
    true true false.

(** The replacer of [maskKeyValuePairs]. *)
Definition kvReplacer (this : Scrubber) (m : Match) : jsstring :=
  if hasKey this (toLowerCase (capStr 1 m))
  then capStr 1 m ++ capStr 2 m ++ defaultMask this
  else m_str m.

(** [maskKeyValuePairs(line)]: [{ masked, hasChanges }].  The call of
    [masked.replace] throws when the line is not a string. *)
Definition maskKeyValuePairs (this : Scrubber) (line : jsval)
    : result (jsstring * bool) :=
  match line with
  | VString s =>
      let ps := pieces (kvRegex this) s in
      Ok (rebuildPure (kvReplacer this) ps,
          existsb (fun m => hasKey this (toLowerCase (capStr 1 m))) (hits ps))
  | VUndefined =>
      Throw (newTypeError (js "Cannot read properties of undefined (reading 'replace')"))
  | VNull =>
      Throw (newTypeError (js "Cannot read properties of null (reading 'replace')"))
  | VBool _ | VNumber _ =>
      Throw (newTypeError (js "masked.replace is not a function"))
  end.

(** [new RegExp(`\\b(?:${keywordPattern})\\b\\s*[:=]\\s*([^\\s\\n\\r,;&]+)`, "gi")] *)
Definition keywordRegex (this : Scrubber) : RegExp :=
  mkRegExp
    (seqs [WordB; alts (map (fun k => lit (key_text k)) (sensitiveKeys this)); WordB;
           Star space; Class false (Config.oneOf ":="); Star space;
           Group 1 (Plus (Class true (fun c =>
              isSpace c || N.eqb c 10 || N.eqb c 13 || Config.oneOf ",;&" c)))])
    true true false.

(** [maskSensitiveKeywords(line)]: [{ masked, hasChanges }] *)
Definition maskSensitiveKeywords (this : Scrubber) (line : jsstring)
    : jsstring * bool :=
  match sensitiveKeys this with
  | [] => (line, false)
  | _ :: _ =>
      let ps := pieces (keywordRegex this) line in
      (rebuildPure (fun m => replaceString (capStr 1 m) (defaultMask this) (m_str m)) ps,
       negb (Nat.eqb (length (hits ps)) 0))
  end.

(** The state of the loop of [maskPatterns]. *)
Record PatternsResult := mkPatternsResult {
  pr_masked : jsval;
  pr_hasChanges : bool;
  pr_matches : list (jsstring * nat)
}.

(** [replacement || this.defaultMask] *)
Definition templateOr (this : Scrubber) (t : jsstring) : jsstring :=
  match t with
  | [] => defaultMask this
  | _ :: _ => t
  end.

(** The call of [masked.replace] for one rule; with a replacer function it
    throws when the function does. *)
Definition applyReplacement (this : Scrubber) (re : RegExp) (r : Replacement)
    (masked : jsstring) : result jsstring :=
  match r with
  | RFunction f => replaceWith re (fun m => f m masked) masked
  | RString t => Ok (replaceTemplate re (templateOr this t) masked)
  | RUndefined => Ok (replaceTemplate re (defaultMask this) masked)
  | RInvalid => Ok (replaceTemplate re (defaultMask this) masked)
  end.

(** One round of the loop of [maskPatterns].  What the try block throws
    (a line that is not a string has no [match]; a replacer function may
    throw) is caught in the round and leaves [masked] as it was. *)
Definition patternStep (this : Scrubber) (acc : PatternsResult) (pattern : Pattern)
    : PatternsResult :=
  match p_regex pattern with
  | None => acc
  | Some regex =>
      if str_eqb (p_name pattern) (js "url_with_params") && negb (maskUrlParams this)
      then acc
      else
        match pr_masked acc with
        | VString masked =>
            let matchCount := matchLength regex masked in
            if 0 <? matchCount then
              let matches := obj_assign (p_name pattern) matchCount (pr_matches acc) in
              match applyReplacement this regex (p_replacement pattern) masked with
              | Ok masked' => mkPatternsResult (VString masked') true matches
              | Throw _ => mkPatternsResult (VString masked) true matches
              end
            else acc
        | _ => acc
        end
  end.

(** [maskPatterns(line)]: [{ masked, hasChanges, matches }] *)
Definition maskPatterns (this : Scrubber) (line : jsval) : PatternsResult :=
  fold_left (patternStep this) (patterns this) (mkPatternsResult line false []).

(** What [processLine] returns. *)
Record LineResult := mkLineResult {
  original : jsval;
  masked : jsval;
  hasChanges : bool;
  matches : option (list (jsstring * nat));
  error : option jsstring
}.

Section ProcessLine.
Context {RT : Runtime}.
Variable this : Scrubber.

(** The steps of the try block after the counter of lines: the masked
    line, the change flag and the matches, or what was thrown. *)
Definition maskLine (line : jsval) : result PatternsResult :=
  let result := line in
  let lineHasChanges := false in
  let '(jsonIsJson, jsonMasked, jsonHasChanges) := maskJsonLine this result in
  '(result, lineHasChanges) <-
    (if jsonIsJson then Ok (jsonMasked, jsonHasChanges)
     else
       '(kvMasked, kvHasChanges) <- maskKeyValuePairs this result ;;
       let lineHasChanges := lineHasChanges || kvHasChanges in
       let (keywordMasked, keywordHasChanges) := maskSensitiveKeywords this kvMasked in
       Ok (VString keywordMasked, lineHasChanges || keywordHasChanges)) ;;
  let patternResult := maskPatterns this result in
  Ok (mkPatternsResult (pr_masked patternResult)
        (lineHasChanges || pr_hasChanges patternResult)
        (pr_matches patternResult)).

(** The update of [this.stats.patternMatches] by the matches of a line. *)
Definition addMatches (allMatches pm : list (jsstring * nat))
    : list (jsstring * nat) :=
  fold_left
    (fun pm (entry : jsstring * nat) =>
       let (patternName, count) := entry in
       obj_assign patternName (orDefault (obj_get patternName pm) 0 + count) pm)
    allMatches pm.

(** [processLine(line)], with [this.stats] before and after. *)
Definition processLine (st : Stats) (line : jsval) : LineResult * Stats :=
  let st := mkStats (S (totalLines st)) (maskedLines st) (errors st)
              (patternMatches st) in
  if negb (enableMasking this) then
    (mkLineResult line line false (Some []) None, st)
  else
    match maskLine line with
    | Ok r =>
        (mkLineResult line (pr_masked r) (pr_hasChanges r) (Some (pr_matches r)) None,
         mkStats (totalLines st)
           (if pr_hasChanges r then S (maskedLines st) else maskedLines st)
           (errors st)
           (addMatches (pr_matches r) (patternMatches st)))
    | Throw e =>
        (mkLineResult line (VString (defaultMask this)) true None (Some (err_message e)),
         mkStats (totalLines st) (maskedLines st) (S (errors st))
           (patternMatches st))
    end.

End ProcessLine.

(** [getStats()] *)
Definition getStats (st : Stats) : Stats := st.

End Scrubber.

(* ===================================================================== *)
(** ** Double-precision arithmetic *)
(* ===================================================================== *)

Module Double.
Import Stdlib.Floats.PrimFloat.

Definition ofNat (n : nat) : float :=
  of_uint63 (Uint63.of_Z (Z.of_nat n)).

(** The test [(nonPrintable / bytesRead) > 0.3] of [isBinaryFile], in
    IEEE 754 binary64 as JavaScript computes it. *)
Definition ratioOver (nonPrintable bytesRead : nat) : bool :=
  ltb 0.3%float (div (ofNat nonPrintable) (ofNat bytesRead)).

End Double.

(* ===================================================================== *)
(** ** src/core/processor.js: the abort signal *)
(* ===================================================================== *)

Module Abort.

(** [signal.reason] as [throwIfAborted] reads it: a string, an object with
    a message, or anything else. *)
Inductive Reason : Type :=
| ReasonString (s : jsstring)
| ReasonObject (message : option jsstring)
| ReasonOther.

(** An [AbortSignal]. *)
Record Signal := mkSignal {
  aborted : bool;
  reason : Reason
}.

(** The text of the default message and of the result of a cancelled
    run. *)
Definition msgCancelled : jsstring := [22788; 29702; 24050; 21462; 28040]%N.
Definition msgCancelledShort : jsstring := [24050; 21462; 28040]%N.

(** [createAbortError(message)] *)
Definition createAbortError (message : jsstring) : JsError :=
  mkError (js "AbortError") (Some (js "ABORT_ERR")) message.

Definition nonBlank (s : jsstring) : bool :=
  match trim s with
  | [] => false
  | _ :: _ => true
  end.

(** The message [throwIfAborted] gives its error. *)
Definition abortMessage (r : Reason) : jsstring :=
  match r with
  | ReasonString s => if nonBlank s then s else msgCancelled
  | ReasonObject (Some m) => if nonBlank m then m else msgCancelled
  | _ => msgCancelled
  end.

(** [throwIfAborted(signal)]; [None] is a null or absent signal. *)
Definition throwIfAborted (signal : option Signal) : result unit :=
  match signal with
  | None => Ok tt
  | Some sg =>
      if negb (aborted sg) then Ok tt
      else Throw (createAbortError (abortMessage (reason sg)))
  end.

(** [isAbortError(error)] *)
Definition isAbortError (error : JsError) : bool :=
  str_eqb (err_name error) (js "AbortError")
  || match err_code error with
     | Some c => str_eqb c (js "ABORT_ERR")
     | None => false
     end.

(** [signal && signal.aborted] *)
Definition signalAborted (signal : option Signal) : bool :=
  match signal with
  | Some sg => aborted sg
  | None => false
  end.

(** What an event does to a pending wait. *)
Inductive Wake : Type :=
| StillWaiting
| Settled (r : result unit).

(** The events a writable stream and a signal can send to [waitForDrain]. *)
Inductive DrainEvent : Type :=
| OnDrain
| OnError (e : JsError)
| OnAbort.

(** [waitForDrain(writable, signal)] up to its promise: the first
    [throwIfAborted]. *)
Definition waitForDrain_begin (signal : option Signal) : result unit :=
  throwIfAborted signal.

(** [waitForDrain(writable, signal)] once its promise is pending, on an
    event; [signal] is the signal as the event leaves it.  The listener of
    [abort] is there only when a signal was given; after the promise
    resolves comes the second [throwIfAborted]. *)
Definition waitForDrain_on (signal : option Signal) (ev : DrainEvent) : Wake :=
  match ev with
  | OnDrain => Settled (throwIfAborted signal)
  | OnError e => Settled (Throw e)
  | OnAbort =>
      match signal with
      | Some _ => Settled (throwIfAborted signal)
      | None => StillWaiting
      end
  end.

End Abort.

(* ===================================================================== *)
(** ** src/core/processor.js: class FileProcessor, one file *)
(* ===================================================================== *)

Module Processor.
Import Abort Scrubber.

(** What the file system says of a path when [validateFile] looks. *)
Record FileView := mkFileView {
  accessError : option JsError;   (* [access(F_OK | R_OK)] rejects *)
  statError : option JsError;     (* [stat] rejects *)
  isFile : bool;                  (* [stats.isFile()] *)
  size : N;                       (* [stats.size] *)
  openError : option JsError;     (* [openSync] or [readSync] throws *)
  content : list N                (* the bytes of the file *)
}.

Definition countIf (p : N -> bool) (l : list N) : nat :=
  length (filter p l).

Definition ratioOver := Double.ratioOver.

Definition nonPrintableByte (byte : N) : bool :=
  (byte <? 32)%N && negb (N.eqb byte 9) && negb (N.eqb byte 10)
  && negb (N.eqb byte 13).

(** [isBinaryFile(filePath)] *)
Definition isBinaryFile (f : FileView) : bool :=
  match openError f with
  | Some _ => false
  | None =>
      let buffer := firstn 512 (content f) in
      let bytesRead := length buffer in
      if existsb (N.eqb 0) buffer then true
      else ratioOver (countIf nonPrintableByte buffer) bytesRead
  end.

(** [{ valid: true, size }] or [{ valid: false, error }] *)
Inductive Validation : Type :=
| Valid (size : N)
| Invalid (error : jsstring).

(** [validateFile(filePath)] *)
Definition validateFile (options : Config.Options) (f : FileView) : Validation :=
  match accessError f with
  | Some e => Invalid (err_message e)
  | None =>
      match statError f with
      | Some e => Invalid (err_message e)
      | None =>
          if negb (isFile f) then Invalid (js "Path is not a file")
          else if (Config.maxFileSize options <? size f)%N then
            Invalid (js "File size (" ++ ofN (size f)
                     ++ js ") exceeds maximum allowed size ("
                     ++ ofN (Config.maxFileSize options) ++ js ")")
          else if Config.skipBinaryFiles options && isBinaryFile f then
            Invalid (js "File appears to be binary")
          else Valid (size f)
      end
  end.

(** *** generateOutputPath *)

(** The functions of Node's [path] module that the processor calls. *)
Record PathApi := mkPathApi {
  dirname : jsstring -> jsstring;
  extname : jsstring -> jsstring;
  basename : jsstring -> jsstring -> jsstring;
  pathJoin : jsstring -> jsstring -> jsstring
}.

(** [generateOutputPath(inputPath, outputDir = null)] *)
Definition generateOutputPath (P : PathApi) (options : Config.Options)
    (inputPath : jsstring) (outputDir : option jsstring) : jsstring :=
  let dir := match outputDir with
             | Some (c :: d) => c :: d
             | _ => dirname P inputPath
             end in
  let ext := extname P inputPath in
  let base := basename P inputPath ext in
  pathJoin P dir (base ++ Config.outputSuffix options).

(** *** processFile *)

(** The object [processFile] returns. *)
Record ProcessingResult := mkResult {
  inputPath : jsstring;
  outputPath : option jsstring;
  success : bool;
  cancelled : bool;
  error : option jsstring;
  stats : option Stats;
  processingTime : N
}.

(** What the host answers to the synchronous calls of one run. *)
Record Host := mkHost {
  pathApi : PathApi;
  pid : N;                            (* [process.pid] *)
  now : N;                            (* [Date.now()] in the temp name *)
  win32 : bool;                       (* [process.platform === 'win32'] *)
  dirExists : bool;                   (* [fs.existsSync(outputDirPath)] *)
  mkdirError : option JsError;        (* what [fs.mkdirSync] throws *)
  isEncoding : jsstring -> bool;      (* [Buffer.isEncoding] *)
  outputExists : bool;                (* [fs.existsSync(outputPath)] before the rename *)
  unlinkOutputError : option JsError; (* what [fs.unlinkSync(outputPath)] throws *)
  renameError : option JsError;       (* what [fs.renameSync] throws *)
  tempExists : bool;                  (* [fs.existsSync(tempPath)] in the catch block *)
  elapsed : N                         (* [Date.now() - startTime] at the end *)
}.

(** The arguments of a run and the processor it runs on. *)
Record Call := mkCall {
  options : Config.Options;
  scrubber : Scrubber;
  host : Host;
  c_inputPath : jsstring;
  c_outputDir : option jsstring
}.

(** The operations of a run on the file system, as they happen. *)
Inductive FsOp : Type :=
| OpMkdir (dir : jsstring)
| OpCreate (file : jsstring)          (* [fs.createWriteStream] *)
| OpUnlink (file : jsstring)
| OpRename (from to : jsstring).

(** Where the run is suspended, or what it returned. *)
Inductive Phase : Type :=
| Validating                                  (* [await this.validateFile] *)
| AwaitingLine                                (* [for await (const line of rl)] *)
| WaitingPause (line : jsstring) (writeOk : bool)  (* [await pauseController.waitIfPaused(signal)] *)
| WaitingDrain                                (* [await waitForDrain(writer, null)] *)
| WaitingFinish                               (* [await waitForFinishOrError] *)
| Returned (r : ProcessingResult).

Record Run := mkRun {
  phase : Phase;
  signal : option Signal;            (* [runtime.signal], as it is now *)
  paused : option bool;              (* [pauseController.paused], when there is one *)
  r_stats : Stats;                   (* [this.scrubber.stats] *)
  r_outputPath : option jsstring;    (* [result.outputPath] *)
  tempPath : jsstring;
  tempFileCreated : bool;
  written : list jsstring;           (* the chunks given to [writer.write] *)
  fsLog : list FsOp
}.

(** The streams whose [error] event a run can hear. *)
Inductive Source : Type :=
| SrcInput          (* the readline interface and its input *)
| SrcWriter         (* [writer] *)
| SrcOther.         (* the other streams of the run *)

(** What happens to a run from outside. *)
Inductive Event : Type :=
| Abort (r : Reason)                          (* the signal aborts *)
| Pause                                       (* [pauseController.pause()] *)
| Resume                                      (* [pauseController.resume()] *)
| Validated (f : FileView)                    (* [validateFile] has looked at the file *)
| Line (line : jsstring) (writeOk : bool)     (* a line, and what [writer.write] will return *)
| InputEnd                                    (* the input is exhausted or closed *)
| ErrorEvent (src : Source) (e : JsError)
| Drain
| Finish
| Close.

Section ProcessFile.
Context {RT : Runtime}.
Variable call : Call.

Definition setPhase (run : Run) (p : Phase) : Run :=
  mkRun p (signal run) (paused run) (r_stats run) (r_outputPath run)
    (tempPath run) (tempFileCreated run) (written run) (fsLog run).

Definition logOp (run : Run) (op : FsOp) : Run :=
  mkRun (phase run) (signal run) (paused run) (r_stats run) (r_outputPath run)
    (tempPath run) (tempFileCreated run) (written run) (fsLog run ++ [op]).

(** [error?.message || String(error)] *)
Definition messageOf (e : JsError) : jsstring :=
  match err_message e with
  | [] => err_name e
  | _ :: _ => err_message e
  end.

(** The catch block of [processFile], and the return. *)
Definition catchBlock (run : Run) (e : JsError) : Run :=
  let run :=
    if tempFileCreated run && tempExists (host call)
    then logOp run (OpUnlink (tempPath run))
    else run in
  let isCancelled := isAbortError e || signalAborted (signal run) in
  setPhase run
    (Returned
       (mkResult (c_inputPath call) (r_outputPath run) false isCancelled
          (Some (if isCancelled then msgCancelledShort else messageOf e))
          None 0%N)).

(** The call of [processFile] up to its first await. *)
Definition start (sg : option Signal) (pausedNow : option bool) (st : Stats) : Run :=
  let run := mkRun Validating sg pausedNow st None [] false [] [] in
  match throwIfAborted sg with
  | Throw e => catchBlock run e
  | Ok _ => run
  end.

(** From the answer of [validateFile] to the loop over the lines. *)
Definition afterValidation (run : Run) (f : FileView) : Run :=
  match validateFile (options call) f with
  | Invalid err => catchBlock run (newError err)
  | Valid _ =>
      let H := host call in
      let out := generateOutputPath (pathApi H) (options call)
                   (c_inputPath call) (c_outputDir call) in
      let run := mkRun (phase run) (signal run) (paused run) (r_stats run)
                   (Some out) (tempPath run) false (written run) (fsLog run) in
      let outputDirPath := dirname (pathApi H) out in
      match (if dirExists H then None else mkdirError H) with
      | Some e => catchBlock run e
      | None =>
          let run := if dirExists H then run else logOp run (OpMkdir outputDirPath) in
          let temp := out ++ js ".tmp." ++ ofN (pid H) ++ js "." ++ ofN (now H) in
          let run := mkRun (phase run) (signal run) (paused run)
                       (resetStats (r_stats run)) (r_outputPath run) temp false
                       (written run) (fsLog run) in
          let requestedEncoding := Config.encoding (options call) in
          let normalizedEncoding := toLowerCase requestedEncoding in
          let iconvEncoding :=
            if str_eqb normalizedEncoding (js "gb2312") then js "gbk"
            else normalizedEncoding in
          let useIconv := str_eqb iconvEncoding (js "gbk") in
          let useNativeEncoding := isEncoding H normalizedEncoding in
          if negb useNativeEncoding && negb useIconv then
            catchBlock run (newError (js "Unsupported encoding: " ++ requestedEncoding))
          else
            let run := logOp run (OpCreate temp) in
            mkRun AwaitingLine (signal run) (paused run) (r_stats run)
              (r_outputPath run) temp true (written run) (fsLog run)
      end
  end.

(** [processResult.masked + lineEnding] *)
Definition textOf (v : jsval) : jsstring :=
  match v with
  | VString s => s
  | VUndefined => js "undefined"
  | VNull => js "null"
  | VBool true => js "true"
  | VBool false => js "false"
  | VNumber n =>
      if (n <? 0)%Z then js "-" ++ ofN (Z.to_N (- n)) else ofN (Z.to_N n)
  end.

Definition lineEnding : jsstring :=
  if Config.preserveLineEndings (options call)
  then (if win32 (host call) then [13; 10]%N else [10]%N)
  else [10]%N.

(** The body of the loop from [throwIfAborted(signal)] on. *)
Definition afterPause (run : Run) (line : jsstring) (writeOk : bool) : Run :=
  match throwIfAborted (signal run) with
  | Throw e => catchBlock run e
  | Ok _ =>
      let (processResult, st) := processLine (scrubber call) (r_stats run) (VString line) in
      let chunk := textOf (Scrubber.masked processResult) ++ lineEnding in
      let run := mkRun (phase run) (signal run) (paused run) st (r_outputPath run)
                   (tempPath run) (tempFileCreated run) (written run ++ [chunk])
                   (fsLog run) in
      if writeOk then setPhase run AwaitingLine
      else
        match waitForDrain_begin None with
        | Throw e => catchBlock run e
        | Ok _ => setPhase run WaitingDrain
        end
  end.

(** The body of the loop for a line: [waitIfPaused] goes on at once when
    the controller is not paused or the signal has aborted. *)
Definition onLine (run : Run) (line : jsstring) (writeOk : bool) : Run :=
  match paused run with
  | Some true =>
      if signalAborted (signal run) then afterPause run line writeOk
      else setPhase run (WaitingPause line writeOk)
  | _ => afterPause run line writeOk
  end.

(** After the write stream has finished: the output replaces the final
    path, and the run succeeds. *)
Definition publish (run : Run) : Run :=
  let H := host call in
  let out := match r_outputPath run with Some o => o | None => [] end in
  let saveFailed := catchBlock run (newError (js "Failed to save output file")) in
  let succeed (run : Run) :=
    setPhase run
      (Returned (mkResult (c_inputPath call) (r_outputPath run) true false None
                   (Some (getStats (r_stats run))) (elapsed H))) in
  if tempFileCreated run then
    match (if outputExists H then unlinkOutputError H else None) with
    | Some _ => saveFailed
    | None =>
        let run' := if outputExists H then logOp run (OpUnlink out) else run in
        match renameError H with
        | Some _ => saveFailed
        | None => succeed (logOp run' (OpRename (tempPath run) out))
        end
    end
  else succeed run.

Definition withSignal (run : Run) (sg : option Signal) : Run :=
  mkRun (phase run) sg (paused run) (r_stats run) (r_outputPath run)
    (tempPath run) (tempFileCreated run) (written run) (fsLog run).

Definition withPaused (run : Run) (p : option bool) : Run :=
  mkRun (phase run) (signal run) p (r_stats run) (r_outputPath run)
    (tempPath run) (tempFileCreated run) (written run) (fsLog run).

(** The wait for [drain], to which [processFile] gives [null] for the
    signal. *)
Definition onDrainWait (run : Run) (ev : DrainEvent) : Run :=
  match waitForDrain_on None ev with
  | StillWaiting => run
  | Settled (Ok _) => setPhase run AwaitingLine
  | Settled (Throw e) => catchBlock run e
  end.

(** One event.  An event the run does not listen to where it stands
    changes nothing but the signal or the pause flag. *)
Definition step (run : Run) (ev : Event) : Run :=
  match ev with
  | Abort r =>
      match signal run with
      | None => run
      | Some _ =>
          let run := withSignal run (Some (mkSignal true r)) in
          match phase run with
          | WaitingPause line writeOk => afterPause run line writeOk
          | WaitingDrain => onDrainWait run OnAbort
          | _ => run
          end
      end
  | Pause =>
      match paused run with
      | Some _ => withPaused run (Some true)
      | None => run
      end
  | Resume =>
      match paused run with
      | Some true =>
          let run := withPaused run (Some false) in
          match phase run with
          | WaitingPause line writeOk => afterPause run line writeOk
          | _ => run
          end
      | _ => run
      end
  | Validated f =>
      match phase run with
      | Validating => afterValidation run f
      | _ => run
      end
  | Line line writeOk =>
      match phase run with
      | AwaitingLine => onLine run line writeOk
      | _ => run
      end
  | InputEnd =>
      match phase run with
      | AwaitingLine => setPhase run WaitingFinish
      | _ => run
      end
  | ErrorEvent src e =>
      match phase run, src with
      | AwaitingLine, SrcInput => catchBlock run e
      | WaitingDrain, SrcWriter => onDrainWait run (OnError e)
      | WaitingFinish, _ => catchBlock run e
      | _, _ => run
      end
  | Drain =>
      match phase run with
      | WaitingDrain => onDrainWait run OnDrain
      | _ => run
      end
  | Finish =>
      match phase run with
      | WaitingFinish => publish run
      | _ => run
      end
  | Close =>
      match phase run with
      | WaitingFinish =>
          catchBlock run (newError [20889; 20837; 27969; 25552; 21069; 20851; 38381]%N)
      | _ => run
      end
  end.

(** [processFile(inputPath, outputDir, runtime)] under a sequence of
    events. *)
Definition processFile (sg : option Signal) (pausedNow : option bool)
    (st : Stats) (events : list Event) : Run :=
  fold_left step events (start sg pausedNow st).

End ProcessFile.

End Processor.

(* ===================================================================== *)
(** ** src/core/processor.js: class Semaphore and processFiles *)
(* ===================================================================== *)

Module Batch.
Import Abort Scrubber Processor.

(** An entry of the queue: the promise of a task ([resolve], [reject]) and
    whether a signal came with it.  The tasks of a batch share one
    signal. *)
Record Entry := mkEntry {
  e_task : nat;
  e_hasSignal : bool
}.

Record Semaphore := mkSemaphore {
  max : Z;
  current : Z;
  queue : list Entry
}.

(** [new Semaphore(max)] *)
Definition newSemaphore (max : Z) : Semaphore := mkSemaphore max 0 [].

(** What becomes of the promise of [acquire]. *)
Inductive Acquired : Type :=
| Granted
| Rejected
| Queued.

(** [acquire(signal)] for the task [task]. *)
Definition acquire (sem : Semaphore) (task : nat) (sg : option Signal)
    : Semaphore * Acquired :=
  if signalAborted sg then (sem, Rejected)
  else if (current sem <? max sem)%Z
  then (mkSemaphore (max sem) (current sem + 1) (queue sem), Granted)
  else (mkSemaphore (max sem) (current sem)
          (queue sem ++ [mkEntry task (match sg with Some _ => true | None => false end)]),
        Queued).

(** The loop of [release] over the queue: entries whose signal has aborted
    are rejected, the first other one gets the slot.  Returns the count,
    the queue that is left and who was told what. *)
Fixpoint releaseLoop (isAborted : bool) (cur : Z) (q : list Entry)
    : Z * list Entry * list (nat * Acquired) :=
  match q with
  | [] => (cur, [], [])
  | entry :: q' =>
      if e_hasSignal entry && isAborted then
        let '(cur', q'', told) := releaseLoop isAborted cur q' in
        (cur', q'', (e_task entry, Rejected) :: told)
      else ((cur + 1)%Z, q', [(e_task entry, Granted)])
  end.

(** [release()] *)
Definition release (sem : Semaphore) (sg : option Signal)
    : Semaphore * list (nat * Acquired) :=
  let '(cur, q, told) :=
    releaseLoop (signalAborted sg) (current sem - 1)%Z (queue sem) in
  (mkSemaphore (max sem) cur q, told).

(** The [onAbort] listeners of the queued entries, when the signal
    aborts: each entry leaves the queue and its promise is rejected. *)
Definition abortQueue (sem : Semaphore) : Semaphore * list (nat * Acquired) :=
  (mkSemaphore (max sem) (current sem)
     (filter (fun e => negb (e_hasSignal e)) (queue sem)),
   map (fun e => (e_task e, Rejected)) (filter e_hasSignal (queue sem))).

(** Where the async function of one input path stands. *)
Inductive TaskState : Type :=
| TQueued        (* its [acquire] is pending in the queue *)
| TGranted       (* [acquire] has resolved, the function has not resumed *)
| TRejected      (* [acquire] has rejected, the function has not resumed *)
| TRunning       (* inside [this.processFile] *)
| TDone.         (* its result is in [results] *)

Record Batch := mkBatch {
  sem : Semaphore;
  b_signal : option Signal;
  tasks : list (jsstring * TaskState);
  results : list ProcessingResult
}.

Definition taskOf (a : Acquired) : TaskState :=
  match a with
  | Granted => TGranted
  | Rejected => TRejected
  | Queued => TQueued
  end.

(** [inputPaths.map(async (inputPath) => ...)]: each function runs to its
    first await, the call of [acquire]. *)
Fixpoint launch (sem : Semaphore) (sg : option Signal) (i : nat)
    (inputPaths : list jsstring) : Semaphore * list (jsstring * TaskState) :=
  match inputPaths with
  | [] => (sem, [])
  | p :: ps =>
      let (sem1, a) := acquire sem i sg in
      let (sem2, ts) := launch sem1 sg (S i) ps in
      (sem2, (p, taskOf a) :: ts)
  end.

(** [processFiles(inputPaths, outputDir, runtime)] up to [Promise.all]. *)
Definition startBatch (concurrency : Z) (sg : option Signal)
    (inputPaths : list jsstring) : Batch :=
  let (sem, ts) := launch (newSemaphore concurrency) sg 0 inputPaths in
  mkBatch sem sg ts [].

Fixpoint setTask (i : nat) (st : TaskState) (ts : list (jsstring * TaskState))
    : list (jsstring * TaskState) :=
  match ts, i with
  | [], _ => []
  | (p, _) :: ts', 0 => (p, st) :: ts'
  | t :: ts', S i' => t :: setTask i' st ts'
  end.

(** The promises settled by the semaphore reach their tasks. *)
Definition tell (told : list (nat * Acquired)) (ts : list (jsstring * TaskState))
    : list (jsstring * TaskState) :=
  fold_left (fun ts (n : nat * Acquired) => setTask (fst n) (taskOf (snd n)) ts)
    told ts.

(** The result the catch block of a task pushes for an abort error. *)
Definition cancelledResult (inputPath : jsstring) : ProcessingResult :=
  mkResult inputPath None false true (Some msgCancelledShort) None 0.

Inductive BatchEvent : Type :=
| BAbort (r : Reason)                       (* the signal aborts *)
| BContinue (i : nat)                       (* task [i] resumes after [acquire] *)
| BReturn (i : nat) (r : ProcessingResult). (* [processFile] of task [i] returns [r] *)

(** The finally block of a task that holds a slot. *)
Definition finish (b : Batch) (i : nat) (r : ProcessingResult) : Batch :=
  let (sem', told) := release (sem b) (b_signal b) in
  mkBatch sem' (b_signal b) (tell told (setTask i TDone (tasks b)))
    (results b ++ [r]).

Definition batchStep (b : Batch) (ev : BatchEvent) : Batch :=
  match ev with
  | BAbort r =>
      match b_signal b with
      | Some sg =>
          if aborted sg then b
          else
            let (sem', told) := abortQueue (sem b) in
            mkBatch sem' (Some (mkSignal true r)) (tell told (tasks b)) (results b)
      | None => b
      end
  | BContinue i =>
      match nth_error (tasks b) i with
      | Some (p, TGranted) =>
          match throwIfAborted (b_signal b) with
          | Throw _ => finish b i (cancelledResult p)
          | Ok _ => mkBatch (sem b) (b_signal b) (setTask i TRunning (tasks b)) (results b)
          end
      | Some (p, TRejected) =>
          mkBatch (sem b) (b_signal b) (setTask i TDone (tasks b))
            (results b ++ [cancelledResult p])
      | _ => b
      end
  | BReturn i r =>
      match nth_error (tasks b) i with
      | Some (p, TRunning) =>
          if str_eqb (inputPath r) p then finish b i r else b
      | _ => b
      end
  end.

(** A batch under a sequence of events. *)
Definition processFiles (concurrency : Z) (sg : option Signal)
    (inputPaths : list jsstring) (events : list BatchEvent) : Batch :=
  fold_left batchStep events (startBatch concurrency sg inputPaths).

Definition isDone (t : jsstring * TaskState) : bool :=
  match snd t with
  | TDone => true
  | _ => false
  end.

(** [Promise.all(processPromises)] has resolved: [processFiles] returns
    [results]. *)
Definition settled (b : Batch) : bool := forallb isDone (tasks b).

(** Runs that hold a slot of the semaphore. *)
Definition isActive (t : jsstring * TaskState) : bool :=
  match snd t with
  | TGranted | TRunning => true
  | _ => false
  end.

Definition active (b : Batch) : nat := length (filter isActive (tasks b)).

(** The runs inside [processFile]. *)
Definition isRunning (t : jsstring * TaskState) : bool :=
  match snd t with
  | TRunning => true
  | _ => false
  end.

Definition running (b : Batch) : nat := length (filter isRunning (tasks b)).

(** *** The batch handler of main.js: the final order *)

(** [indexByPath.get(path) ?? 0] for
    [indexByPath = new Map(safePaths.map((p, i) => [p, i]))]: the last
    position of the path. *)
Fixpoint indexByPath (safePaths : list jsstring) (i : nat) (p : jsstring)
    : option nat :=
  match safePaths with
  | [] => None
  | q :: qs =>
      match indexByPath qs (S i) p with
      | Some j => Some j
      | None => if str_eqb p q then Some i else None
      end
  end.

Definition indexOfResult (safePaths : list jsstring) (r : ProcessingResult) : nat :=
  match indexByPath safePaths 0 (inputPath r) with
  | Some i => i
  | None => 0
  end.

(** [results.sort((a, b) => ai - bi)]: the sort of an array is stable, so
    the outcome is that of an insertion sort that keeps equal keys in their
    order. *)
Fixpoint insertByIndex (safePaths : list jsstring) (r : ProcessingResult)
    (sorted : list ProcessingResult) : list ProcessingResult :=
  match sorted with
  | [] => [r]
  | x :: sorted' =>
      if indexOfResult safePaths r <=? indexOfResult safePaths x
      then r :: sorted
      else x :: insertByIndex safePaths r sorted'
  end.

Definition sortByIndex (safePaths : list jsstring) (results : list ProcessingResult)
    : list ProcessingResult :=
  fold_right (insertByIndex safePaths) [] results.

End Batch.


(* ===================================================================== *)
(** ** [RegExp.prototype.test] *)
(* ===================================================================== *)

(** [re.test(s)] for an expression without the flags [g] and [y]. *)
Definition test (re : RegExp) (s : jsstring) : bool :=
  match hits (scanFirst re [] s) with
  | [] => false
  | _ :: _ => true
  end.

(* ===================================================================== *)
(** ** src/core/processor.js: cleanupTempFiles *)
(* ===================================================================== *)

Module Cleanup.
Import Processor.

(** [/\.tmp\.\d+\.\d+$/] *)
Definition tempPattern : RegExp :=
  mkRegExp
    (seqs [Config.str ".tmp."; Plus Config.digit; Config.str "."; Plus Config.digit;
           Eol])
    false false false.

(** An entry of the directory: its name; what [statSync] answers, the
    time of modification in milliseconds rounded down, or that it throws;
    and [Date.now()] when the entry is looked at. *)
Record DirEntry := mkDirEntry {
  de_name : jsstring;
  de_mtime : result Z;
  de_now : Z
}.

(** [stats.mtimeMs < Date.now() - (60 * 60 * 1000)] *)
Definition expired (mtime now : Z) : bool := (mtime <? now - 60 * 60 * 1000)%Z.

(** The body of the loop of [cleanupTempFiles] for one entry: the call
    of [fs.unlinkSync], if any. *)
Definition cleanupEntry (P : PathApi) (directory : jsstring) (e : DirEntry)
    : list FsOp :=
  if test tempPattern (de_name e) then
    match de_mtime e with
    | Ok mtime =>
        if expired mtime (de_now e)
        then [OpUnlink (pathJoin P directory (de_name e))]
        else []
    | Throw _ => []
    end
  else [].

(** [cleanupTempFiles(directory)]: the calls of [fs.unlinkSync], in
    order.  [files] is what [readdirSync] answers.  What [unlinkSync]
    throws is caught for each file. *)
Definition cleanupTempFiles (P : PathApi) (directory : jsstring)
    (directoryExists : bool) (files : result (list DirEntry)) : list FsOp :=
  if negb directoryExists then []
  else
    match files with
    | Throw _ => []
    | Ok entries => flat_map (cleanupEntry P directory) entries
    end.

End Cleanup.

(* ===================================================================== *)
(** ** main.js: the options of a job, the pause controller, the paths *)
(* ===================================================================== *)

Module Main.
Import Scrubber.

(** *** normalizeScrubberOptions *)

(** An element of [scrubberOptions.patterns] as the renderer sends it:
    [name] when it is a string, and whether [enabled] is [true]. *)
Record PatternMeta := mkPatternMeta {
  pm_name : option jsstring;
  pm_enabled : bool
}.

(** [scrubberOptions] as [normalizeScrubberOptions] reads it; [None] is a
    field that is absent or of another type, and in [ro_patterns] an
    element that is null. *)
Record RendererOptions := mkRendererOptions {
  ro_patterns : option (list (option PatternMeta));
  ro_sensitiveKeys : option (list Key);
  ro_kvSeparators : option (list jsstring);
  ro_defaultMask : option jsstring;
  ro_enableMasking : option bool;
  ro_maskUrlParams : option bool
}.

(** The map [enabledByName]: a later entry of a name replaces an earlier
    one. *)
Fixpoint enabledByName (metas : list (option PatternMeta)) (name : jsstring)
    : option bool :=
  match metas with
  | [] => None
  | m :: metas' =>
      match enabledByName metas' name with
      | Some e => Some e
      | None =>
          match m with
          | Some (mkPatternMeta (Some n) e) =>
              if str_eqb n name then Some e else None
          | _ => None
          end
      end
  end.

(** [{ ...p, enabled }] *)
Definition withEnabled (p : Pattern) (enabled : bool) : Pattern :=
  mkPattern (p_name p) (p_regex p) (p_replacement p) enabled.

(** [normalizeScrubberOptions(scrubberOptions = {})] *)
Definition normalizeScrubberOptions (ro : RendererOptions) : ScrubberOptions :=
  let metas := orDefault (ro_patterns ro) [] in
  let patterns :=
    map (fun p => withEnabled p (orDefault (enabledByName metas (p_name p))
                                   (p_enabled p)))
      Config.PATTERNS in
  let sensitiveKeys :=
    match ro_sensitiveKeys ro with
    | Some (k :: ks) => k :: ks
    | _ => Config.SENSITIVE_KEYS
    end in
  mkScrubberOptions
    (Some (notFalse (ro_enableMasking ro)))
    (Some (notFalse (ro_maskUrlParams ro)))
    (Some sensitiveKeys)
    (Some patterns)
    (Some (orDefault (ro_kvSeparators ro) Config.KV_SEPARATORS))
    (Some (orDefault (ro_defaultMask ro) Config.DEFAULT_MASK)).

(** The metadata of the rules that [config:getDefault] sends to the
    renderer. *)
Definition defaultPatternMeta : list (option PatternMeta) :=
  map (fun p => Some (mkPatternMeta (Some (p_name p)) (p_enabled p)))
    Config.PATTERNS.

(** *** class PauseController *)

(** [bindings] holds the bound readline interfaces, [resumeWaiters] the
    pending calls of [waitIfPaused], both in the order of their arrival (a
    [Set] iterates in insertion order).  A binding is an object of its
    own: [b_id] tells two bindings of one interface apart. *)
Record Binding := mkBinding {
  b_id : nat;
  b_rl : nat
}.

Record PauseController := mkPauseController {
  pc_paused : bool;
  bindings : list Binding;
  resumeWaiters : list nat
}.

(** [new PauseController()] *)
Definition newPauseController : PauseController :=
  mkPauseController false [] [].

(** What a method does to the outside: calls of [rl.pause()] and
    [rl.resume()], and promises of [waitIfPaused] resolved. *)
Inductive Effect : Type :=
| RlPause (rl : nat)
| RlResume (rl : nat)
| Woken (waiter : nat).

(** [isPaused()] *)
Definition isPaused (c : PauseController) : bool := pc_paused c.

(** [pause()] *)
Definition pause (c : PauseController) : PauseController * list Effect :=
  if pc_paused c then (c, [])
  else (mkPauseController true (bindings c) (resumeWaiters c),
        map (fun b => RlPause (b_rl b)) (bindings c)).

(** [resume()] *)
Definition resume (c : PauseController) : PauseController * list Effect :=
  if negb (pc_paused c) then (c, [])
  else (mkPauseController false (bindings c) [],
        map (fun b => RlResume (b_rl b)) (bindings c)
        ++ map Woken (resumeWaiters c)).

(** [bindReadline(rl)] for an interface with [pause] and [resume]; [id]
    names the new binding. *)
Definition bindReadline (c : PauseController) (id rl : nat)
    : PauseController * list Effect :=
  (mkPauseController (pc_paused c) (bindings c ++ [mkBinding id rl])
     (resumeWaiters c),
   if pc_paused c then [RlPause rl] else []).

(** The function [bindReadline] returns: [this.bindings.delete(binding)] *)
Definition unbind (c : PauseController) (id : nat) : PauseController :=
  mkPauseController (pc_paused c)
    (filter (fun b => negb (Nat.eqb (b_id b) id)) (bindings c))
    (resumeWaiters c).

(** [waitIfPaused(signal)] up to its promise, for the call named
    [waiter]: it returns at once when the controller is not paused, and
    when the signal has aborted already. *)
Definition waitIfPaused (c : PauseController) (waiter : nat)
    (signal : option Abort.Signal) : PauseController * list Effect :=
  if negb (pc_paused c) then (c, [Woken waiter])
  else if Abort.signalAborted signal then (c, [Woken waiter])
  else (mkPauseController (pc_paused c) (bindings c) (resumeWaiters c ++ [waiter]),
        []).

(** The listener [onAbort] of a pending call. *)
Definition onAbort (c : PauseController) (waiter : nat)
    : PauseController * list Effect :=
  if existsb (Nat.eqb waiter) (resumeWaiters c)
  then (mkPauseController (pc_paused c) (bindings c)
          (filter (fun w => negb (Nat.eqb w waiter)) (resumeWaiters c)),
        [Woken waiter])
  else (c, []).

(** The calls a controller receives. *)
Inductive Op : Type :=
| DoPause
| DoResume
| DoBind (id rl : nat)
| DoUnbind (id : nat)
| DoWait (waiter : nat) (signal : option Abort.Signal)
| DoAbort (waiter : nat).

(** One call. *)
Definition apply (c : PauseController) (op : Op) : PauseController * list Effect :=
  match op with
  | DoPause => pause c
  | DoResume => resume c
  | DoBind id rl => bindReadline c id rl
  | DoUnbind id => (unbind c id, [])
  | DoWait w sg => waitIfPaused c w sg
  | DoAbort w => onAbort c w
  end.

(** The controller after a sequence of calls. *)
Definition run (ops : list Op) : PauseController :=
  fold_left (fun c op => fst (apply c op)) ops newPauseController.

(** *** isDangerousPath and validateFilePath *)

(** The functions of Node's [path] module that the guards call. *)
Record PathModule := mkPathModule {
  resolve : jsstring -> jsstring;
  normalize : jsstring -> jsstring;
  isAbsolute : jsstring -> bool
}.

(** [s.includes(t)] *)
Fixpoint includes (s t : jsstring) : bool :=
  startsWith s t
  || match s with
     | [] => false
     | _ :: s' => includes s' t
     end.

(** [[A-Za-z]] *)
Definition driveLetter : Regex := Class false isAlpha.

(** [/^[A-Za-z]:\\name($|\\)/i] *)
Definition windowsDirectory (name : string) : RegExp :=
  mkRegExp
    (seqs [Bol; driveLetter; Config.str ":"; Lit Config.backslash; Config.str name;
           Group 1 (Alt Eol (Lit Config.backslash))])
    false true false.

(** [/^name($|\/)/i] *)
Definition unixDirectory (name : string) : RegExp :=
  mkRegExp (seqs [Bol; Config.str name; Group 1 (Alt Eol (Config.str "/"))])
    false true false.

(** [sensitivePaths], in the order of main.js. *)
Definition sensitivePaths : list RegExp :=
  [ windowsDirectory "Windows";
    windowsDirectory "Program Files";
    windowsDirectory "Program Files (x86)";
    windowsDirectory "ProgramData";
    windowsDirectory "System Volume Information";
    windowsDirectory "Recovery";
    unixDirectory "/etc";
    unixDirectory "/usr/bin";
    unixDirectory "/boot";
    unixDirectory "/root" ].

(** [isDangerousPath(filePath)]; a value that is no string, and the empty
    string, are dangerous. *)
Definition isDangerousPath (P : PathModule) (filePath : jsval) : bool :=
  match filePath with
  | VString (c :: s) =>
      let filePath := c :: s in
      let resolved := resolve P filePath in
      if existsb (fun pattern => test pattern resolved) sensitivePaths then true
      else if includes filePath (js "..")
           then includes (normalize P filePath) (js "..")
           else false
  | _ => true
  end.

(** The messages of the errors of [validateFilePath]. *)
Definition msgInvalidPath : jsstring :=
  [26080; 25928; 30340; 25991; 20214; 36335; 24452]%N.
Definition msgNotAbsolute : jsstring :=
  [24517; 39035; 26159; 32477; 23545; 36335; 24452]%N.
Definition msgDenied : jsstring :=
  [35775; 38382; 34987; 25298; 32477; 65306; 36335; 24452; 36229; 20986; 20801;
   35768; 30340; 30446; 24405; 33539; 22260]%N.

(** [validateFilePath(filePath)] *)
Definition validateFilePath (P : PathModule) (filePath : jsval) : result jsstring :=
  match filePath with
  | VString (c :: s) =>
      let filePath := c :: s in
      if negb (isAbsolute P filePath) then Throw (newError msgNotAbsolute)
      else if isDangerousPath P (VString filePath) then Throw (newError msgDenied)
      else Ok filePath
  | _ => Throw (newError msgInvalidPath)
  end.

End Main.


(* ===================================================================== *)
(** * Properties *)
(* ===================================================================== *)

(** ** Strings *)

Lemma str_eqb_eq a b : str_eqb a b = true <-> a = b.
Proof.
  revert b. induction a as [|x a IH]; intros [|y b]; simpl; split;
    try discriminate; try reflexivity.
  - intros H. apply andb_true_iff in H. destruct H as [H1 H2].
    apply N.eqb_eq in H1. apply IH in H2. congruence.
  - intros H. inversion H; subst. rewrite N.eqb_refl. simpl. apply IH. reflexivity.
Qed.

Lemma str_eqb_refl a : str_eqb a a = true.
Proof. apply str_eqb_eq. reflexivity. Qed.

(** ** Replacement by a regular expression *)

Section Replace.

(** The text a list of pieces came from. *)
Definition flatten (ps : list piece) : jsstring := rebuildPure m_str ps.

Lemma firstn_own_length {A} n (l : list A) :
  firstn (length (firstn n l)) l = firstn n l.
Proof.
  revert l. induction n as [|n IH]; intros [|x l]; simpl; try reflexivity.
  rewrite IH. reflexivity.
Qed.

Lemma execAt_prefix re before rest m :
  execAt re before rest = Some m ->
  m_str m = firstn (length (m_str m)) rest.
Proof.
  unfold execAt.
  destruct (rmatch _ _ _ _) as [y|]; [|discriminate].
  intros H. inversion H; subst; simpl.
  symmetry. apply firstn_own_length.
Qed.

Lemma scan_flatten re rest :
  forall before skip, flatten (scan re before rest skip) = skipn skip rest.
Proof.
  induction rest as [|c rest IH]; intros before skip.
  - destruct skip; simpl; [| reflexivity].
    destruct (execAt re before []) as [m|] eqn:E; [| reflexivity].
    unfold flatten. simpl. apply execAt_prefix in E.
    rewrite firstn_nil in E. rewrite E. reflexivity.
  - destruct skip as [|skip]; simpl.
    + destruct (execAt re before (c :: rest)) as [m|] eqn:E.
      * apply execAt_prefix in E. unfold flatten. simpl.
        destruct (length (m_str m)) as [|n] eqn:L.
        -- apply length_zero_iff_nil in L. rewrite L. simpl.
           f_equal. apply (IH (c :: before) 0).
        -- rewrite E. simpl. f_equal.
           fold (flatten (scan re (c :: before) rest n)).
           rewrite IH. apply firstn_skipn.
      * unfold flatten. simpl. f_equal. apply (IH (c :: before) 0).
    + apply IH.
Qed.

Lemma flatten_keep s : flatten (map Keep s) = s.
Proof. induction s as [|c s IH]; simpl; [reflexivity|]. unfold flatten in *. simpl. now rewrite IH. Qed.

Lemma scanFirst_flatten re rest :
  forall before, flatten (scanFirst re before rest) = rest.
Proof.
  induction rest as [|c rest IH]; intros before; simpl.
  - destruct (execAt re before []) as [m|] eqn:E; [| reflexivity].
    apply execAt_prefix in E. rewrite firstn_nil in E.
    unfold flatten. simpl. rewrite E. reflexivity.
  - destruct (execAt re before (c :: rest)) as [m|] eqn:E.
    + apply execAt_prefix in E. unfold flatten. simpl.
      fold (flatten (map Keep (skipn (length (m_str m)) (c :: rest)))).
      rewrite flatten_keep. rewrite E at 1. apply firstn_skipn.
    + unfold flatten. simpl. f_equal. apply IH.
Qed.

(** The pieces of a text are the text, cut. *)
Lemma pieces_flatten re s : flatten (pieces re s) = s.
Proof.
  unfold pieces. destruct (re_global re).
  - apply (scan_flatten re s [] 0).
  - apply scanFirst_flatten.
Qed.

Lemma rebuildPure_ext f g ps :
  (forall m, In m (hits ps) -> f m = g m) ->
  rebuildPure f ps = rebuildPure g ps.
Proof.
  induction ps as [|[c|m] ps IH]; intros H; simpl.
  - reflexivity.
  - f_equal. apply IH. exact H.
  - rewrite (H m) by (simpl; auto). f_equal. apply IH.
    intros m' Hm'. apply H. simpl. auto.
Qed.

(** A replacer that gives back each match leaves the text as it was. *)
Lemma replace_identity re f s :
  (forall m, In m (hits (pieces re s)) -> f m = m_str m) ->
  rebuildPure f (pieces re s) = s.
Proof.
  intros H. rewrite (rebuildPure_ext f m_str _ H). apply pieces_flatten.
Qed.

(** Without a match nothing is replaced. *)
Lemma replace_no_hit re f s :
  hits (pieces re s) = [] -> rebuildPure f (pieces re s) = s.
Proof.
  intros H. apply replace_identity. rewrite H. intros m [].
Qed.

End Replace.

(** ** The rounds of a quantifier *)

Section Quantifier.

Definition restLength (x : MState) : nat := length (ms_rest x).

(** A matcher that only moves forward: it asks its continuation about
    states no earlier than its own, and fails when the continuation always
    does. *)
Definition forward (m : Matcher) : Prop :=
  (forall x k k',
     (forall y, restLength y <= restLength x -> k y = k' y) ->
     m x k = m x k')
  /\ forall x, m x (fun _ => None) = None.

Lemma restLength_clearCaps gs x : restLength (clearCaps gs x) = restLength x.
Proof. reflexivity. Qed.

Lemma optionalRounds_ext m gs : forward m ->
  forall fuel extra x k k',
    (forall y, restLength y <= restLength x -> k y = k' y) ->
    optionalRounds m gs k fuel extra x = optionalRounds m gs k' fuel extra x.
Proof.
  intros [Loc _]. induction fuel as [|fuel IH]; intros extra x k k' H.
  - destruct extra as [[|e]|]; simpl; apply H; lia.
  - assert (Hx : k x = k' x) by (apply H; lia).
    destruct extra as [[|e]|]; simpl; try exact Hx.
    + rewrite (Loc (clearCaps gs x) _
                 (fun y => if Nat.eqb (length (ms_rest y)) (length (ms_rest x))
                           then None
                           else optionalRounds m gs k' fuel (Some e) y)).
      * rewrite Hx. reflexivity.
      * intros y Hy. destruct (Nat.eqb _ _); [reflexivity|].
        apply IH. intros z Hz. apply H. rewrite restLength_clearCaps in Hy. lia.
    + rewrite (Loc (clearCaps gs x) _
                 (fun y => if Nat.eqb (length (ms_rest y)) (length (ms_rest x))
                           then None
                           else optionalRounds m gs k' fuel None y)).
      * rewrite Hx. reflexivity.
      * intros y Hy. destruct (Nat.eqb _ _); [reflexivity|].
        apply IH. intros z Hz. apply H. rewrite restLength_clearCaps in Hy. lia.
Qed.

(** With nothing left to read no round can pass. *)
Lemma optionalRounds_at_end m gs : forward m ->
  forall fuel extra x k,
    restLength x = 0 -> optionalRounds m gs k fuel extra x = k x.
Proof.
  intros [Loc Fail] fuel extra x k Hx.
  destruct fuel as [|fuel]; [destruct extra as [[|e]|]; reflexivity|].
  assert (E : forall d : MState -> option MState,
            m (clearCaps gs x)
              (fun y => if Nat.eqb (length (ms_rest y)) (length (ms_rest x))
                        then None else d y) = None).
  { intros d. rewrite (Loc _ _ (fun _ => None)); [apply Fail|].
    intros y Hy. rewrite restLength_clearCaps in Hy. unfold restLength in *.
    replace (length (ms_rest y)) with 0 by lia. rewrite Hx. reflexivity. }
  destruct extra as [[|e]|]; simpl; try reflexivity; now rewrite E.
Qed.

(** The fuel of the optional rounds does not matter once it covers the
    input that is left. *)
Lemma optionalRounds_fuel m gs k : forward m ->
  forall f1 f2 extra x,
    restLength x <= f1 -> restLength x <= f2 ->
    optionalRounds m gs k f1 extra x = optionalRounds m gs k f2 extra x.
Proof.
  intros F. pose proof F as [Loc _].
  induction f1 as [|f1 IH]; intros f2 extra x H1 H2.
  - rewrite !(optionalRounds_at_end gs F) by lia. reflexivity.
  - destruct f2 as [|f2].
    + rewrite !(optionalRounds_at_end gs F) by lia. reflexivity.
    + destruct extra as [[|e]|]; simpl; try reflexivity.
      * rewrite (Loc (clearCaps gs x) _
                   (fun y => if Nat.eqb (length (ms_rest y)) (length (ms_rest x))
                             then None
                             else optionalRounds m gs k f2 (Some e) y));
          [reflexivity|].
        intros y Hy. rewrite restLength_clearCaps in Hy. unfold restLength in *.
        destruct (Nat.eqb_spec (length (ms_rest y)) (length (ms_rest x)));
          [reflexivity|]. apply IH; unfold restLength; lia.
      * rewrite (Loc (clearCaps gs x) _
                   (fun y => if Nat.eqb (length (ms_rest y)) (length (ms_rest x))
                             then None
                             else optionalRounds m gs k f2 None y));
          [reflexivity|].
        intros y Hy. rewrite restLength_clearCaps in Hy. unfold restLength in *.
        destruct (Nat.eqb_spec (length (ms_rest y)) (length (ms_rest x)));
          [reflexivity|]. apply IH; unfold restLength; lia.
Qed.

Lemma optionalRounds_none m gs : forward m ->
  forall fuel extra x, optionalRounds m gs (fun _ => None) fuel extra x = None.
Proof.
  intros [Loc Fail]. induction fuel as [|fuel IH]; intros extra x.
  - destruct extra as [[|e]|]; reflexivity.
  - destruct extra as [[|e]|]; simpl; try reflexivity.
    + rewrite (Loc _ _ (fun _ => None)); [now rewrite Fail|].
      intros y _. destruct (Nat.eqb _ _); [reflexivity | apply IH].
    + rewrite (Loc _ _ (fun _ => None)); [now rewrite Fail|].
      intros y _. destruct (Nat.eqb _ _); [reflexivity | apply IH].
Qed.

Lemma mandatoryRounds_forward m gs extra n :
  forward m -> forward (fun x k => mandatoryRounds m gs k extra n x).
Proof.
  intros F. pose proof F as [Loc Fail].
  induction n as [|n [IHl IHf]]; split.
  - intros x k k' H. simpl. now apply optionalRounds_ext.
  - intros x. simpl. now apply optionalRounds_none.
  - intros x k k' H. simpl. apply Loc. intros y Hy.
    apply IHl. intros z Hz. apply H. rewrite restLength_clearCaps in Hy. lia.
  - intros x. simpl. rewrite (Loc _ _ (fun _ => None)); [apply Fail|].
    intros y _. apply IHf.
Qed.

(** Every matcher of the syntax moves forward. *)
Lemma rmatch_forward ic ml r : forward (rmatch ic ml r).
Proof.
  induction r as [| c | neg p | | r1 [L1 F1] r2 [L2 F2] | r1 [L1 F1] r2 [L2 F2]
                  | min extra r1 IH | i r1 [L1 F1] | | | |].
  - split; [intros x k k' H; simpl; apply H; lia | reflexivity].
  - split; [|intros x; simpl; destruct (ms_rest x) as [|c0 rest]; [|destruct (N.eqb _ _)]; reflexivity].
    intros x k k' H. simpl. destruct (ms_rest x) as [|c0 rest] eqn:E; [reflexivity|].
    destruct (N.eqb _ _); [|reflexivity].
    apply H. unfold restLength. rewrite E. simpl. lia.
  - split; [|intros x; simpl; destruct (ms_rest x) as [|c0 rest]; [|destruct (xorb _ _)]; reflexivity].
    intros x k k' H. simpl. destruct (ms_rest x) as [|c0 rest] eqn:E; [reflexivity|].
    destruct (xorb _ _); [|reflexivity].
    apply H. unfold restLength. rewrite E. simpl. lia.
  - split; [|intros x; simpl; destruct (ms_rest x) as [|c0 rest]; [|destruct (negb _)]; reflexivity].
    intros x k k' H. simpl. destruct (ms_rest x) as [|c0 rest] eqn:E; [reflexivity|].
    destruct (negb _); [|reflexivity].
    apply H. unfold restLength. rewrite E. simpl. lia.
  - split.
    + intros x k k' H. simpl. apply L1. intros y Hy. apply L2.
      intros z Hz. apply H. lia.
    + intros x. simpl. rewrite (L1 _ _ (fun _ => None)); [apply F1|].
      intros y _. apply F2.
  - split.
    + intros x k k' H. simpl. rewrite (L1 x k k' H), (L2 x k k' H). reflexivity.
    + intros x. simpl. rewrite F1. apply F2.
  - exact (mandatoryRounds_forward (groups r1) extra min IH).
  - split.
    + intros x k k' H. simpl. apply L1. intros y Hy. apply H. exact Hy.
    + intros x. simpl. apply F1.
  - split; [intros x k k' H; simpl; destruct (atWordBoundary x); [apply H; lia | reflexivity]
           | intros x; simpl; destruct (atWordBoundary x); reflexivity].
  - split; [intros x k k' H; simpl; destruct (atWordBoundary x); [reflexivity | apply H; lia]
           | intros x; simpl; destruct (atWordBoundary x); reflexivity].
  - split; [intros x k k' H; simpl; destruct (atLineEdge ml _); [apply H; lia | reflexivity]
           | intros x; simpl; destruct (atLineEdge ml _); reflexivity].
  - split; [intros x k k' H; simpl; destruct (atLineEdge ml _); [apply H; lia | reflexivity]
           | intros x; simpl; destruct (atLineEdge ml _); reflexivity].
Qed.

(** The optional rounds of a quantifier satisfy the equation of the
    RepeatMatcher of ECMAScript, whatever fuel covers the input: an
    exhausted count goes on with the continuation; otherwise one more
    round of the body is tried, a round that consumed nothing being
    rejected, and the continuation is the way out. *)
Lemma optionalRounds_equation ic ml r k fuel extra x :
  restLength x <= fuel ->
  optionalRounds (rmatch ic ml r) (groups r) k fuel extra x
  = match extra with
    | Some 0 => k x
    | _ =>
        match rmatch ic ml r (clearCaps (groups r) x)
                (fun y =>
                   if Nat.eqb (restLength y) (restLength x) then None
                   else optionalRounds (rmatch ic ml r) (groups r) k (restLength y)
                          (option_map pred extra) y) with
        | Some z => Some z
        | None => k x
        end
    end.
Proof.
  intros H. pose proof (rmatch_forward ic ml r) as F. pose proof F as [Loc Fail].
  destruct fuel as [|fuel].
  - rewrite (optionalRounds_at_end (groups r) F) by lia.
    assert (E : rmatch ic ml r (clearCaps (groups r) x)
                  (fun y =>
                     if Nat.eqb (restLength y) (restLength x) then None
                     else optionalRounds (rmatch ic ml r) (groups r) k (restLength y)
                            (option_map pred extra) y) = None).
    { rewrite (Loc _ _ (fun _ => None)); [apply Fail|].
      intros y Hy. rewrite restLength_clearCaps in Hy.
      replace (restLength y) with 0 by lia. replace (restLength x) with 0 by lia.
      reflexivity. }
    rewrite E. destruct extra as [[|e]|]; reflexivity.
  - destruct extra as [[|e]|]; simpl; try reflexivity.
    + rewrite (Loc (clearCaps (groups r) x) _
                 (fun y => if Nat.eqb (restLength y) (restLength x) then None
                           else optionalRounds (rmatch ic ml r) (groups r) k
                                  (restLength y) (Some e) y)); [reflexivity|].
      intros y Hy. rewrite restLength_clearCaps in Hy. unfold restLength in *.
      destruct (Nat.eqb_spec (length (ms_rest y)) (length (ms_rest x)));
        [reflexivity|].
      apply optionalRounds_fuel; [exact F | unfold restLength; lia
                                 | unfold restLength; lia].
    + rewrite (Loc (clearCaps (groups r) x) _
                 (fun y => if Nat.eqb (restLength y) (restLength x) then None
                           else optionalRounds (rmatch ic ml r) (groups r) k
                                  (restLength y) None y)); [reflexivity|].
      intros y Hy. rewrite restLength_clearCaps in Hy. unfold restLength in *.
      destruct (Nat.eqb_spec (length (ms_rest y)) (length (ms_rest x)));
        [reflexivity|].
      apply optionalRounds_fuel; [exact F | unfold restLength; lia
                                 | unfold restLength; lia].
Qed.

End Quantifier.

(** ** The nesting of [maskJsonLine] *)

Section JsonInduction.

Variable P : json -> Prop.
Hypothesis P_null : P JNull.
Hypothesis P_bool : forall b, P (JBool b).
Hypothesis P_num : forall l, P (JNum l).
Hypothesis P_str : forall s, P (JStr s).
Hypothesis P_arr : forall elems, Forall P elems -> P (JArr elems).
Hypothesis P_obj : forall members,
  Forall (fun kv => P (snd kv)) members -> P (JObj members).

(** Induction over a JSON value and the values inside it. *)
Fixpoint json_nested_ind (v : json) : P v :=
  match v with
  | JNull => P_null
  | JBool b => P_bool b
  | JNum l => P_num l
  | JStr s => P_str s
  | JArr elems =>
      P_arr
        ((fix all (l : list json) : Forall P l :=
            match l with
            | [] => Forall_nil P
            | x :: l' => Forall_cons x (json_nested_ind x) (all l')
            end) elems)
  | JObj members =>
      P_obj
        ((fix all (l : list (jsstring * json))
            : Forall (fun kv => P (snd kv)) l :=
            match l with
            | [] => Forall_nil _
            | kv :: l' =>
                @Forall_cons _ (fun kv => P (snd kv)) kv l'
                  (json_nested_ind (snd kv)) (all l')
            end) members)
  end.

End JsonInduction.

(** The string values of a JSON value: where [maskValue] calls
    [maskJsonLine] again. *)
Fixpoint stringsOf (v : json) : list jsstring :=
  match v with
  | JStr s => [s]
  | JArr elems => flat_map stringsOf elems
  | JObj members => flat_map (fun kv => stringsOf (snd kv)) members
  | _ => []
  end.

Section Nesting.
Import Scrubber.
Context {RT : Runtime}.
Variable this : Scrubber.

Lemma maskValue_ext (n1 n2 : jsstring -> JsonLine) (v : json) :
  (forall s, In s (stringsOf v) -> n1 s = n2 s) ->
  maskValue this n1 v = maskValue this n2 v.
Proof.
  induction v as [| b | l | s | elems IH | members IH] using json_nested_ind;
    intros H; try reflexivity.
  - simpl. rewrite (H s) by (simpl; auto). reflexivity.
  - cbn [maskValue].
    assert (E : map (maskValue this n1) elems = map (maskValue this n2) elems).
    { simpl in H. induction IH as [|x l Hx Hl IHl]; [reflexivity|].
      simpl. rewrite Hx, IHl; [reflexivity | |];
        intros s Hs; apply H; simpl; apply in_or_app; auto. }
    rewrite E. reflexivity.
  - cbn [maskValue]. simpl in H.
    assert (E : forall acc,
      fold_left
        (fun (acc : list (jsstring * json) * bool) (kv : jsstring * json) =>
           let (k, v) := kv in
           let lowerKey := toLowerCase k in
           let (mv, c) :=
             if hasKey this lowerKey
             then (JStr (defaultMask this),
                   strictNotEqual (JObj members) (defaultMask this))
             else maskValue this n1 v in
           (obj_assign k mv (fst acc), snd acc || c)) members acc
      = fold_left
        (fun (acc : list (jsstring * json) * bool) (kv : jsstring * json) =>
           let (k, v) := kv in
           let lowerKey := toLowerCase k in
           let (mv, c) :=
             if hasKey this lowerKey
             then (JStr (defaultMask this),
                   strictNotEqual (JObj members) (defaultMask this))
             else maskValue this n2 v in
           (obj_assign k mv (fst acc), snd acc || c)) members acc).
    { generalize (strictNotEqual (JObj members) (defaultMask this)). intros flag.
      induction IH as [|[k v] l Hx Hl IHl]; intros acc; [reflexivity|].
      simpl. simpl in Hx. rewrite Hx.
      - apply IHl. intros s Hs. apply H. simpl. apply in_or_app. auto.
      - intros s Hs. apply H. simpl. apply in_or_app. auto. }
    rewrite E. reflexivity.
Qed.

Lemma maskJsonBody_ext (n1 n2 : jsstring -> JsonLine) (line : jsstring) :
  (forall v s, parse (trim line) = Some v -> In s (stringsOf v) -> n1 s = n2 s) ->
  maskJsonBody this n1 line = maskJsonBody this n2 line.
Proof.
  intros H. unfold maskJsonBody.
  destruct (_ && _); [reflexivity|].
  destruct (parse (trim line)) as [v|] eqn:E; [|reflexivity].
  rewrite (maskValue_ext n1 n2 v (fun s Hs => H v s eq_refl Hs)). reflexivity.
Qed.

End Nesting.

(** *** A string value is shorter than the text it was parsed from *)

Section ParseBound.

(** A string of the text read so far, [n] characters: it fits in them
    with its two quotes. *)
Definition tokenFits (n : nat) (t : token) : Prop :=
  match t with
  | TString s => length s + 2 <= n
  | _ => True
  end.

Definition modeFits (n : nat) (m : lexMode) : Prop :=
  match m with
  | LString acc | LEscape acc | LUnicode acc _ _ => length acc + 1 <= n
  | LWord _ t => tokenFits n t
  | _ => True
  end.

Definition lexFits (n : nat) (st : lexMode * list token) : Prop :=
  modeFits n (fst st) /\ Forall (tokenFits n) (snd st).

Lemma tokenFits_mono n m t : n <= m -> tokenFits n t -> tokenFits m t.
Proof. destruct t; simpl; auto. lia. Qed.

Lemma tokensFit_mono n m ts :
  n <= m -> Forall (tokenFits n) ts -> Forall (tokenFits m) ts.
Proof.
  intros H F. eapply Forall_impl; [|exact F].
  intros t. now apply tokenFits_mono.
Qed.

Lemma lexNormal_fits n c out st' :
  Forall (tokenFits n) out -> lexNormal c out = Some st' -> lexFits (S n) st'.
Proof.
  intros F H. unfold lexNormal in H.
  assert (F' : Forall (tokenFits (S n)) out) by (eapply tokensFit_mono; [|exact F]; lia).
  repeat match type of H with
         | (if ?b then _ else _) = _ => destruct b
         end;
    try discriminate; inversion H; subst; split; simpl; auto; try lia;
    constructor; simpl; auto.
Qed.

Lemma lexStep_fits n st c st' :
  lexFits n st -> lexStep st c = Some st' -> lexFits (S n) st'.
Proof.
  intros [M F] H. destruct st as [mode out]. simpl in *.
  assert (F' : Forall (tokenFits (S n)) out) by (eapply tokensFit_mono; [|exact F]; lia).
  destruct mode; simpl in *.
  - eapply lexNormal_fits; eauto.
  - repeat match type of H with
           | (if ?b then _ else _) = _ => destruct b
           end;
      try discriminate; inversion H; subst; split; simpl; auto; try lia.
    constructor; [|exact F']. simpl. rewrite length_rev. lia.
  - destruct (N.eqb c 117).
    + inversion H; subst. split; simpl; auto; try lia.
    + destruct (unescape c); [|discriminate].
      inversion H; subst. split; simpl; auto; try lia.
  - destruct (hexValue c); [|discriminate].
    destruct todo as [|[|todo]]; inversion H; subst; split; simpl; auto; try lia.
  - destruct (numStep n0 c).
    + inversion H; subst. split; simpl; auto.
    + destruct (numAccepting n0); [|discriminate].
      eapply lexNormal_fits; [|exact H].
      constructor; [exact I | exact F].
  - destruct expected as [|e expected]; [discriminate|].
    destruct (N.eqb c e); [|discriminate].
    assert (T : tokenFits (S n) t) by (eapply tokenFits_mono; [|exact M]; lia).
    destruct expected; inversion H; subst; split; simpl; auto.
Qed.

Lemma lexAll_fits s : forall n st st',
  lexFits n st -> lexAll st s = Some st' -> lexFits (n + length s) st'.
Proof.
  induction s as [|c s IH]; intros n st st' F H; simpl in *.
  - inversion H; subst. now rewrite Nat.add_0_r.
  - destruct (lexStep st c) as [st1|] eqn:E; [|discriminate].
    replace (n + S (length s)) with (S n + length s) by lia.
    eapply IH; [|exact H]. eapply lexStep_fits; eauto.
Qed.

Lemma tokenize_fits text ts :
  tokenize text = Some ts -> Forall (tokenFits (length text)) ts.
Proof.
  unfold tokenize. intros H.
  destruct (lexAll (LNormal, []) text) as [[mode out]|] eqn:E; [|discriminate].
  assert (F : lexFits (0 + length text) (mode, out)).
  { eapply lexAll_fits; [|exact E]. split; simpl; auto. }
  destruct F as [_ F]. simpl in F.
  destruct mode; try discriminate.
  - inversion H; subst. apply Forall_rev. exact F.
  - destruct (numAccepting n); [|discriminate].
    assert (Hts : ts = rev (TNumber (rev acc) :: out)) by congruence.
    rewrite Hts. apply Forall_rev. constructor; [exact I | exact F].
Qed.

(** The string values of a parsed value fit in [n] characters. *)
Definition jsonFits (n : nat) (v : json) : Prop :=
  Forall (fun s => length s + 2 <= n) (stringsOf v).

Definition membersFit (n : nat) (m : list (jsstring * json)) : Prop :=
  Forall (fun kv => jsonFits n (snd kv)) m.

Definition frameFits (n : nat) (f : frame) : Prop :=
  match f with
  | FArr done => Forall (jsonFits n) done
  | FObj done | FObjKey done _ => membersFit n done
  end.

Definition parseFits (n : nat) (st : list frame * parseMode) : Prop :=
  Forall (frameFits n) (fst st)
  /\ match snd st with
     | PDone v => jsonFits n v
     | _ => True
     end.

Lemma obj_update_fits n k v m :
  jsonFits n v -> membersFit n m -> membersFit n (obj_update k v m).
Proof.
  intros Hv Hm. induction Hm as [|[k' v'] m Hx Hm IH]; simpl; [constructor|].
  destruct (str_eqb k k'); constructor; auto.
Qed.

Lemma obj_insert_index_fits n i k v m :
  jsonFits n v -> membersFit n m -> membersFit n (obj_insert_index i k v m).
Proof.
  intros Hv Hm. induction Hm as [|[k' v'] m Hx Hm IH]; simpl.
  - constructor; [exact Hv | constructor].
  - destruct (arrayIndex k').
    + destruct (i <? n0)%N; repeat (constructor; auto).
    + repeat (constructor; auto).
Qed.

Lemma obj_set_fits n k v m :
  jsonFits n v -> membersFit n m -> membersFit n (obj_set k v m).
Proof.
  intros Hv Hm. unfold obj_set.
  destruct (obj_has k m); [now apply obj_update_fits|].
  destruct (arrayIndex k); [now apply obj_insert_index_fits|].
  apply Forall_app. split; [exact Hm | constructor; [exact Hv | constructor]].
Qed.

Lemma jsonFits_arr n l : Forall (jsonFits n) l -> jsonFits n (JArr l).
Proof.
  unfold jsonFits. simpl. induction 1 as [|x l Hx Hl IH]; simpl; [constructor|].
  apply Forall_app. split; assumption.
Qed.

Lemma jsonFits_obj n m : membersFit n m -> jsonFits n (JObj m).
Proof.
  unfold jsonFits, membersFit. simpl.
  induction 1 as [|x l Hx Hl IH]; simpl; [constructor|].
  apply Forall_app. split; assumption.
Qed.

Lemma complete_fits n v stack st' :
  jsonFits n v -> Forall (frameFits n) stack ->
  complete v stack = Some st' -> parseFits n st'.
Proof.
  intros Hv Hs H. destruct stack as [|[done|done|done k] stack]; simpl in H;
    inversion H; subst; clear H.
  - split; simpl; auto.
  - inversion Hs; subst. split; simpl; auto.
    constructor; [|assumption]. simpl. constructor; assumption.
  - inversion Hs; subst. split; simpl; auto.
    constructor; [|assumption]. simpl. now apply obj_set_fits.
Qed.

Lemma startValue_fits n t stack st' :
  tokenFits n t -> Forall (frameFits n) stack ->
  startValue t stack = Some st' -> parseFits n st'.
Proof.
  intros Ht Hs H. destruct t; simpl in H; try discriminate;
    try (eapply complete_fits; [|exact Hs|exact H]; unfold jsonFits; simpl;
         constructor; auto; fail).
  - inversion H; subst. split; simpl; auto. constructor; [constructor | exact Hs].
  - inversion H; subst. split; simpl; auto. constructor; [constructor | exact Hs].
Qed.

Lemma closeArray_fits n stack st' :
  Forall (frameFits n) stack -> closeArray stack = Some st' -> parseFits n st'.
Proof.
  intros Hs H. destruct stack as [|[done|done|done k] stack]; simpl in H;
    try discriminate.
  inversion Hs; subst. eapply complete_fits; [| eassumption | exact H].
  apply jsonFits_arr. apply Forall_rev. assumption.
Qed.

Lemma closeObject_fits n stack st' :
  Forall (frameFits n) stack -> closeObject stack = Some st' -> parseFits n st'.
Proof.
  intros Hs H. destruct stack as [|[done|done|done k] stack]; simpl in H;
    try discriminate.
  inversion Hs; subst. eapply complete_fits; [| eassumption | exact H].
  apply jsonFits_obj. assumption.
Qed.

Lemma takeKey_fits n t stack st' :
  Forall (frameFits n) stack -> takeKey t stack = Some st' -> parseFits n st'.
Proof.
  intros Hs H. destruct t; simpl in H; try discriminate.
  destruct stack as [|[done|done|done k] stack]; try discriminate.
  inversion H; subst. inversion Hs; subst. split; simpl; auto.
Qed.

Lemma parseStep_fits n st t st' :
  tokenFits n t -> parseFits n st -> parseStep st t = Some st' -> parseFits n st'.
Proof.
  intros Ht [Hs Hm] H. destruct st as [stack mode]. simpl in *.
  destruct mode.
  - eapply startValue_fits; eauto.
  - destruct t; try (eapply startValue_fits; eauto; fail).
    eapply closeArray_fits; eauto.
  - destruct t; try (eapply takeKey_fits; eauto; fail).
    eapply closeObject_fits; eauto.
  - eapply takeKey_fits; eauto.
  - destruct t; try discriminate. inversion H; subst. split; simpl; auto.
  - destruct t; try discriminate;
      destruct stack as [|[done|done|done k] stack]; try discriminate.
    + eapply closeObject_fits; eauto.
    + eapply closeArray_fits; eauto.
    + inversion H; subst. split; simpl; auto.
    + inversion H; subst. split; simpl; auto.
  - discriminate.
Qed.

Lemma parseAll_fits n ts : forall st st',
  Forall (tokenFits n) ts -> parseFits n st ->
  parseAll st ts = Some st' -> parseFits n st'.
Proof.
  induction ts as [|t ts IH]; intros st st' F P H; simpl in H.
  - inversion H; subst. exact P.
  - destruct (parseStep st t) as [st1|] eqn:E; [|discriminate].
    inversion F; subst.
    eapply IH; [eassumption | | exact H]. eapply parseStep_fits; eauto.
Qed.

(** Every string value of [JSON.parse(text)] is at least two characters
    shorter than [text]. *)
Lemma parse_fits text v :
  parse text = Some v -> jsonFits (length text) v.
Proof.
  unfold parse. intros H.
  destruct (tokenize text) as [ts|] eqn:T; [|discriminate].
  apply tokenize_fits in T.
  destruct (parseAll ([], PValue) ts) as [[stack mode]|] eqn:E; [|discriminate].
  assert (F : parseFits (length text) (stack, mode)).
  { eapply parseAll_fits; [exact T | | exact E]. split; simpl; auto. }
  destruct stack; [|discriminate]. destruct mode; try discriminate.
  inversion H; subst. exact (proj2 F).
Qed.

Lemma trimStart_length s : length (trimStart s) <= length s.
Proof.
  induction s as [|c s IH]; simpl; [lia|].
  destruct (isSpace c); simpl; lia.
Qed.

Lemma trim_length s : length (trim s) <= length s.
Proof.
  unfold trim, trimEnd. rewrite length_rev.
  pose proof (trimStart_length (rev (trimStart s))).
  rewrite length_rev in H. pose proof (trimStart_length s). lia.
Qed.

End ParseBound.

Section Depth.
Import Scrubber.
Context {RT : Runtime}.
Variable this : Scrubber.

(** Any depth above the length of the line gives the same result. *)
Lemma maskJsonDepth_enough d1 : forall d2 line,
  length line < d1 -> length line < d2 ->
  maskJsonDepth this d1 line = maskJsonDepth this d2 line.
Proof.
  induction d1 as [|d1 IH]; intros d2 line H1 H2; [lia|].
  destruct d2 as [|d2]; [lia|]. simpl.
  apply maskJsonBody_ext. intros v s Hp Hs.
  apply parse_fits in Hp. unfold jsonFits in Hp. rewrite Forall_forall in Hp.
  specialize (Hp s Hs). pose proof (trim_length line).
  apply IH; lia.
Qed.

(** [maskJsonLine] on a string satisfies the equation of its source: the
    bound on the nesting is never reached. *)
Lemma maskJsonString_unfold (line : jsstring) :
  maskJsonString this line = maskJsonBody this (maskJsonString this) line.
Proof.
  unfold maskJsonString at 1. simpl.
  apply maskJsonBody_ext. intros v s Hp Hs.
  apply parse_fits in Hp. unfold jsonFits in Hp. rewrite Forall_forall in Hp.
  specialize (Hp s Hs). pose proof (trim_length line).
  unfold maskJsonString. apply maskJsonDepth_enough; lia.
Qed.

End Depth.

(** ** The scrubber *)

Section ScrubberProperties.
Import Scrubber.
Context {RT : Runtime}.

(** The scrubber [new LogScrubber()] makes. *)
Definition defaultScrubber : Scrubber := fst (new noOptions).

Lemma defaultScrubber_fields :
  enableMasking defaultScrubber = true
  /\ maskUrlParams defaultScrubber = true
  /\ map key_text (sensitiveKeys defaultScrubber)
     = map key_text Config.SENSITIVE_KEYS
  /\ length (sensitiveKeys defaultScrubber) = 61
  /\ map p_name (patterns defaultScrubber)
     = map js ["chinese_phone"; "email"; "chinese_id_card"; "jwt_token";
               "base64_data"]%string
  /\ kvSeparators defaultScrubber = Config.KV_SEPARATORS
  /\ defaultMask defaultScrubber = js "***".
Proof. vm_compute. repeat split; reflexivity. Qed.

(** *** Fail closed *)

(** The result of the catch block. *)
Definition failClosed (this : Scrubber) (line : jsval) (e : JsError) : LineResult :=
  mkLineResult line (VString (defaultMask this)) true None (Some (err_message e)).

(** Without a throw the error counter stays and the result has no error. *)
Lemma processLine_no_error (this : Scrubber) (st : Stats) (line : jsval) r :
  maskLine this line = Ok r ->
  error (fst (processLine this st line)) = None
  /\ errors (snd (processLine this st line)) = errors st.
Proof.
  intros H. unfold processLine. destruct (negb (enableMasking this)); simpl.
  - split; reflexivity.
  - rewrite H. simpl. split; reflexivity.
Qed.

(** C1. [processLine] is a function of the line and the statistics: what
    the steps of its try block throw never leaves it.  When a step throws,
    the result has the mask for [masked], [hasChanges] true and the message
    of the error, [stats.errors] has grown by one and [stats.maskedLines]
    is as before; when none throws the result carries no error and
    [stats.errors] is as before.  The line is counted either way. *)
Theorem processLine_fail_closed (this : Scrubber) (st : Stats) (line : jsval) :
  enableMasking this = true ->
  let out := processLine this st line in
  totalLines (snd out) = S (totalLines st)
  /\ (forall e, maskLine this line = Throw e ->
        fst out = failClosed this line e
        /\ errors (snd out) = S (errors st)
        /\ maskedLines (snd out) = maskedLines st)
  /\ (forall r, maskLine this line = Ok r ->
        error (fst out) = None /\ errors (snd out) = errors st).
Proof.
  intros Hon out. subst out. split; [|split].
  - unfold processLine. rewrite Hon. simpl.
    destruct (maskLine this line); reflexivity.
  - intros e Hthrow. unfold processLine. rewrite Hon, Hthrow. simpl.
    repeat split; reflexivity.
  - intros r Hok. exact (processLine_no_error this st line Hok).
Qed.

(** *** The change flag *)

Lemma maskJsonDepth_unchanged (this : Scrubber) depth line :
  jl_hasChanges (maskJsonDepth this depth line) = false ->
  jl_masked (maskJsonDepth this depth line) = line.
Proof.
  destruct depth as [|depth]; simpl; [reflexivity|].
  unfold maskJsonBody.
  destruct (negb (startsWith (trim line) (js "{")) && negb (startsWith (trim line) (js "[")));
    [reflexivity|].
  destruct (parse (trim line)) as [v|]; [|reflexivity].
  destruct (maskValue this (maskJsonDepth this depth) v) as [mv changed].
  destruct changed; simpl; [discriminate | reflexivity].
Qed.

Lemma existsb_false_forall {A} (p : A -> bool) l :
  existsb p l = false -> forall x, In x l -> p x = false.
Proof.
  intros H x Hx. destruct (p x) eqn:E; [|reflexivity].
  assert (existsb p l = true) by (apply existsb_exists; eauto). congruence.
Qed.

Lemma maskKeyValuePairs_unchanged (this : Scrubber) s out :
  maskKeyValuePairs this (VString s) = Ok (out, false) -> out = s.
Proof.
  unfold maskKeyValuePairs. intros H. inversion H as [[H1 H2]]. clear H.
  apply replace_identity. intros m Hm. unfold kvReplacer.
  rewrite (existsb_false_forall _ _ H2 m Hm). reflexivity.
Qed.

Lemma length_zero_hits ps : Nat.eqb (length (hits ps)) 0 = true -> hits ps = [].
Proof. intros H. apply Nat.eqb_eq in H. now apply length_zero_iff_nil. Qed.

Lemma maskSensitiveKeywords_unchanged (this : Scrubber) s :
  snd (maskSensitiveKeywords this s) = false ->
  fst (maskSensitiveKeywords this s) = s.
Proof.
  unfold maskSensitiveKeywords. destruct (sensitiveKeys this); [reflexivity|].
  simpl. intros H. apply negb_false_iff in H.
  apply replace_no_hit. now apply length_zero_hits.
Qed.

Lemma patternStep_flag (this : Scrubber) acc p :
  pr_hasChanges (patternStep this acc p) = false ->
  patternStep this acc p = acc.
Proof.
  unfold patternStep. destruct (p_regex p) as [re|]; [|reflexivity].
  destruct (_ && _); [reflexivity|].
  destruct (pr_masked acc) as [| | | |masked]; try reflexivity.
  destruct (0 <? matchLength re masked); [|reflexivity].
  destruct (applyReplacement _ _ _ _); simpl; discriminate.
Qed.

Lemma patternStep_flag_stays (this : Scrubber) acc p :
  pr_hasChanges acc = true -> pr_hasChanges (patternStep this acc p) = true.
Proof.
  intros H. unfold patternStep. destruct (p_regex p) as [re|]; [|exact H].
  destruct (_ && _); [exact H|].
  destruct (pr_masked acc) as [| | | |masked]; try exact H.
  destruct (0 <? matchLength re masked); [|exact H].
  destruct (applyReplacement _ _ _ _); reflexivity.
Qed.

Lemma maskPatterns_fold_unchanged (this : Scrubber) ps acc :
  pr_hasChanges (fold_left (patternStep this) ps acc) = false ->
  fold_left (patternStep this) ps acc = acc.
Proof.
  revert acc. induction ps as [|p ps IH]; intros acc H; simpl in *; [reflexivity|].
  destruct (pr_hasChanges (patternStep this acc p)) eqn:E.
  - exfalso. clear IH.
    assert (G : forall l a, pr_hasChanges a = true ->
                pr_hasChanges (fold_left (patternStep this) l a) = true).
    { induction l as [|q l IHl]; intros a Ha; simpl; [exact Ha|].
      apply IHl. now apply patternStep_flag_stays. }
    rewrite (G ps _ E) in H. discriminate.
  - rewrite (IH _ H). now apply patternStep_flag.
Qed.

Lemma maskPatterns_unchanged (this : Scrubber) line :
  pr_hasChanges (maskPatterns this line) = false ->
  pr_masked (maskPatterns this line) = line.
Proof.
  unfold maskPatterns. intros H.
  rewrite (maskPatterns_fold_unchanged _ _ _ H). reflexivity.
Qed.


(** The key rule fires on [password=***], sets [hasChanges], and writes
    the text that was there. *)
Lemma processLine_masked_value :
  let line := js "password=***" in
  let r := fst (processLine defaultScrubber emptyStats (VString line)) in
  hasChanges r = true /\ masked r = VString line /\ error r = None.
Proof. vm_compute. repeat split; reflexivity. Qed.

(** The same happens on a JSON line, where [maskValue] compares the
    enclosing object, not the value of the key, with the mask. *)
Lemma processLine_masked_json_value :
  let line := jsq "{'password':'***'}" in
  let r := fst (processLine defaultScrubber emptyStats (VString line)) in
  hasChanges r = true /\ masked r = VString line /\ error r = None.
Proof. vm_compute. repeat split; reflexivity. Qed.

(** *** The example of the specification *)

(** C7. The default scrubber masks the password of the example line, and
    masking the output again gives the same text. *)
Theorem processLine_example (st st' : Stats) :
  masked (fst (processLine defaultScrubber st
                 (VString (jsq "{'password':'abc','user':'bob'}"))))
  = VString (jsq "{'password':'***','user':'bob'}")
  /\ masked (fst (processLine defaultScrubber st'
                    (VString (jsq "{'password':'***','user':'bob'}"))))
     = VString (jsq "{'password':'***','user':'bob'}").
Proof. split; vm_compute; reflexivity. Qed.

(** *** Values that are the mask already *)

Lemma maskValue_mask (this : Scrubber) nested :
  maskValue this nested (JStr (defaultMask this)) = (JStr (defaultMask this), false).
Proof. simpl. rewrite str_eqb_refl. reflexivity. Qed.

Lemma maskValue_mask_array (this : Scrubber) nested n :
  maskValue this nested (JArr (repeat (JStr (defaultMask this)) n))
  = (JArr (repeat (JStr (defaultMask this)) n), false).
Proof.
  cbn [maskValue].
  assert (M : map (maskValue this nested) (repeat (JStr (defaultMask this)) n)
              = repeat (JStr (defaultMask this), false) n).
  { induction n as [|n IH]; [reflexivity|].
    cbn [repeat map]. rewrite IH, maskValue_mask. reflexivity. }
  rewrite M. clear M. f_equal.
  - f_equal. induction n as [|n IH]; [reflexivity|]. simpl. now rewrite IH.
  - induction n as [|n IH]; [reflexivity|]. simpl. exact IH.
Qed.

(** The string branch of [maskValue]: a string equal to the mask comes
    back as it is, reported unchanged, whatever the scrubber's keys; a line
    that is an array of such strings is returned as it was read, not
    serialized again, and reported unchanged. *)
Lemma maskValue_masked_leaf (this : Scrubber) (nested : jsstring -> JsonLine) :
  maskValue this nested (JStr (defaultMask this))
  = (JStr (defaultMask this), false)
  /\ forall n line,
       startsWith (trim line) (js "[") = true ->
       parse (trim line) = Some (JArr (repeat (JStr (defaultMask this)) n)) ->
       maskJsonBody this nested line = mkJsonLine true line false.
Proof.
  split; [apply maskValue_mask|].
  intros n line Hs Hp. unfold maskJsonBody. rewrite Hs, Hp.
  rewrite andb_false_r, maskValue_mask_array. reflexivity.
Qed.

(** The object branch of [maskValue]: the value of a sensitive key is
    reported changed whatever it is, the mask too, since what the branch
    compares with the mask is the object it is in. *)
Lemma maskValue_sensitive_key (this : Scrubber) (nested : jsstring -> JsonLine)
    (k : jsstring) (v : json) :
  hasKey this (toLowerCase k) = true ->
  maskValue this nested (JObj [(k, v)])
  = (JObj (obj_assign k (JStr (defaultMask this)) []), true).
Proof.
  intros H. cbn [maskValue fold_left]. rewrite H. reflexivity.
Qed.

End ScrubberProperties.

(** A runtime for closed examples: it prints a number as its literal was
    written.  No example below has a number in it. *)
Definition literalNumbers : Runtime := {| serializeNumber := fun l => l |}.

Lemma processLine_fail_closed_witness :
  let thrown := newTypeError (js "Cannot read properties of null (reading 'replace')") in
  Scrubber.maskLine (RT := literalNumbers) defaultScrubber VNull = Throw thrown
  /\ fst (Scrubber.processLine (RT := literalNumbers) defaultScrubber Scrubber.emptyStats VNull)
     = failClosed defaultScrubber VNull thrown
  /\ Scrubber.errors
       (snd (Scrubber.processLine (RT := literalNumbers) defaultScrubber Scrubber.emptyStats VNull))
     = 1.
Proof.
  cbv zeta.
  split; [reflexivity|].
  destruct (processLine_fail_closed (RT := literalNumbers) defaultScrubber
              Scrubber.emptyStats VNull eq_refl) as [_ [H _]].
  destruct (H _ eq_refl) as [H1 [H2 _]].
  split; [exact H1 | exact H2].
Defined.



(** C10 fails under a sensitive key.  The mask as an element of an array
    or as the value of another key leaves the line as it was read,
    reported unchanged, as the string branch of [maskValue] has it.  The
    mask as the value of [password] is reported changed: the line is
    serialized again (the blank after the colon is gone) and it is counted
    as masked. *)
Lemma masked_leaf_under_sensitive_key :
  let run := fun line =>
    Scrubber.processLine (RT := literalNumbers) defaultScrubber
      Scrubber.emptyStats (VString line) in
  let seen := fun line =>
    (Scrubber.masked (fst (run line)), Scrubber.hasChanges (fst (run line)),
     Scrubber.maskedLines (snd (run line))) in
  seen (jsq "['***', '***']") = (VString (jsq "['***', '***']"), false, 0)
  /\ seen (jsq "{'note': '***'}") = (VString (jsq "{'note': '***'}"), false, 0)
  /\ seen (jsq "{'password': '***'}") = (VString (jsq "{'password':'***'}"), true, 1).
Proof. vm_compute. repeat split; reflexivity. Qed.

(** ** The binary check *)

Section BinaryCheck.
Import Processor.

(** The double-precision comparison of [isBinaryFile] agrees with exact
    arithmetic on every count a 512-byte buffer can give. *)
Definition ratioAgrees (b : nat) : bool :=
  forallb (fun n => Bool.eqb (ratioOver n b) (3 * b <? 10 * n)) (seq 0 (S b)).

Lemma ratioOver_table : forallb ratioAgrees (seq 0 513) = true.
Proof. vm_compute. reflexivity. Qed.

Lemma ratioOver_exact n b :
  n <= b -> b <= 512 -> ratioOver n b = (3 * b <? 10 * n).
Proof.
  intros Hn Hb.
  pose proof ratioOver_table as T.
  rewrite forallb_forall in T.
  assert (Hin : In b (seq 0 513)) by (apply in_seq; lia).
  specialize (T b Hin). unfold ratioAgrees in T.
  rewrite forallb_forall in T.
  assert (Hin' : In n (seq 0 (S b))) by (apply in_seq; lia).
  specialize (T n Hin').
  apply Bool.eqb_prop in T. exact T.
Qed.

Lemma countIf_le p l : countIf p l <= length l.
Proof. unfold countIf. apply filter_length_le. Qed.

Lemma existsb_eqb_In (x : N) l : existsb (N.eqb x) l = true <-> In x l.
Proof.
  rewrite existsb_exists. split.
  - intros [y [Hy E]]. apply N.eqb_eq in E. subst. exact Hy.
  - intros H. exists x. split; [exact H | apply N.eqb_refl].
Qed.

(** What the specification says of the check: binary when an inspected
    byte is null or more than 30% of the inspected bytes lie outside
    printable ASCII, tab, LF and CR. *)
Definition outsideText (byte : N) : bool :=
  negb (between 32 126 byte || N.eqb byte 9 || N.eqb byte 10 || N.eqb byte 13).

Definition specBinary (f : FileView) : Prop :=
  let inspected := firstn 512 (content f) in
  In 0%N inspected
  \/ 3 * length inspected < 10 * countIf outsideText inspected.

(** C8, as the code has it: the check looks at the first 512 bytes only,
    and answers binary exactly when the file could be read and an
    inspected byte is null or more than 30% of the inspected bytes are
    control characters other than tab, LF and CR. Bytes from 127 up count
    as text. *)
Theorem isBinaryFile_iff (f : FileView) :
  isBinaryFile f = true <->
  openError f = None /\
  (let inspected := firstn 512 (content f) in
   In 0%N inspected
   \/ 3 * length inspected < 10 * countIf nonPrintableByte inspected).
Proof.
  unfold isBinaryFile. destruct (openError f) as [e|].
  - split; [discriminate | intros [H _]; discriminate].
  - cbv zeta.
    set (buffer := firstn 512 (content f)).
    assert (Hlen : length buffer <= 512) by (apply firstn_le_length).
    destruct (existsb (N.eqb 0) buffer) eqn:E.
    + apply existsb_eqb_In in E. tauto.
    + rewrite ratioOver_exact by (auto using countIf_le).
      rewrite Nat.ltb_lt. split.
      * intros H. split; [reflexivity | right; exact H].
      * intros [_ [H | H]]; [| exact H].
        apply existsb_eqb_In in H. congruence.
Qed.

(** C8 as stated fails: three bytes 0xFF lie outside printable ASCII, and
    the check calls the file text. *)
Lemma isBinaryFile_high_bytes :
  let f := mkFileView None None true 3 None [255; 255; 255]%N in
  specBinary f /\ isBinaryFile f = false.
Proof.
  split.
  - right. vm_compute. lia.
  - vm_compute. reflexivity.
Qed.

End BinaryCheck.

(** ** One file *)

Section ProcessFileProperties.
Import Abort Scrubber Processor.
Context {RT : Runtime}.
Variable call : Call.

(** The three ways a run ends, as [processFile] fills its result. *)
Definition disposition (r : ProcessingResult) : Prop :=
  (success r = true /\ cancelled r = false /\ Processor.error r = None)
  \/ (success r = false /\ cancelled r = true
      /\ Processor.error r = Some msgCancelledShort)
  \/ (success r = false /\ cancelled r = false
      /\ exists m, Processor.error r = Some m).

Definition wellEnded (run : Run) : Prop :=
  match phase run with
  | Returned r => disposition r /\ inputPath r = c_inputPath call
  | _ => True
  end.

Lemma catchBlock_returned run e :
  exists r, phase (catchBlock call run e) = Returned r
            /\ success r = false
            /\ outputPath r = r_outputPath run
            /\ inputPath r = c_inputPath call
            /\ disposition r.
Proof.
  unfold catchBlock.
  set (run' := if tempFileCreated run && tempExists (host call)
               then logOp run (OpUnlink (tempPath run)) else run).
  assert (Hs : signal run' = signal run)
    by (unfold run'; destruct (_ && _); reflexivity).
  assert (Ho : r_outputPath run' = r_outputPath run)
    by (unfold run'; destruct (_ && _); reflexivity).
  eexists. split; [reflexivity|]. simpl. rewrite Ho.
  repeat split.
  unfold disposition. simpl.
  destruct (isAbortError e || signalAborted (signal run')).
  - right. left. repeat split.
  - right. right. repeat split. eauto.
Qed.

Lemma wellEnded_catchBlock run e : wellEnded (catchBlock call run e).
Proof.
  destruct (catchBlock_returned run e) as [r [H [_ [_ [Hi Hd]]]]].
  unfold wellEnded. rewrite H. split; assumption.
Qed.

Lemma wellEnded_publish run : wellEnded (publish call run).
Proof.
  unfold publish.
  assert (S : forall run',
            wellEnded (setPhase run'
              (Returned (mkResult (c_inputPath call) (r_outputPath run') true false
                           None (Some (getStats (r_stats run')))
                           (elapsed (host call)))))).
  { intros run'. unfold wellEnded. simpl. split; [|reflexivity].
    left. repeat split. }
  destruct (tempFileCreated run); [|apply S].
  destruct (if outputExists (host call) then unlinkOutputError (host call) else None);
    [apply wellEnded_catchBlock|].
  destruct (renameError (host call)); [apply wellEnded_catchBlock | apply S].
Qed.

Lemma wellEnded_afterValidation run f :
  wellEnded (afterValidation call run f).
Proof.
  unfold afterValidation.
  destruct (validateFile (options call) f); [|apply wellEnded_catchBlock].
  destruct (if dirExists (host call) then None else mkdirError (host call));
    [apply wellEnded_catchBlock|].
  destruct (_ && _); [apply wellEnded_catchBlock | exact I].
Qed.

Lemma wellEnded_afterPause run line w : wellEnded (afterPause call run line w).
Proof.
  unfold afterPause.
  destruct (throwIfAborted (signal run)); [|apply wellEnded_catchBlock].
  destruct (processLine _ _ _) as [res st].
  destruct w; exact I.
Qed.

Lemma wellEnded_onDrainWait run ev :
  wellEnded run -> wellEnded (onDrainWait call run ev).
Proof.
  intros H. unfold onDrainWait.
  destruct (waitForDrain_on None ev) as [|[u|e]];
    [exact H | exact I | apply wellEnded_catchBlock].
Qed.

Lemma wellEnded_phase run run' :
  phase run' = phase run -> wellEnded run -> wellEnded run'.
Proof. unfold wellEnded. intros E. rewrite E. trivial. Qed.

Lemma wellEnded_step run ev : wellEnded run -> wellEnded (step call run ev).
Proof.
  intros H. destruct ev; simpl.
  - destruct (signal run); [|exact H].
    cbn [withSignal phase].
    destruct (phase run) eqn:P;
      try (apply (wellEnded_phase run); [reflexivity | exact H]).
    apply wellEnded_afterPause.
  - destruct (paused run); [|exact H].
    apply (wellEnded_phase run); [reflexivity | exact H].
  - destruct (paused run) as [[|]|]; try exact H.
    cbn [withPaused phase].
    destruct (phase run) eqn:P;
      try (apply (wellEnded_phase run); [reflexivity | exact H]).
    apply wellEnded_afterPause.
  - destruct (phase run) eqn:P; try exact H. apply wellEnded_afterValidation.
  - destruct (phase run) eqn:P; try exact H.
    unfold onLine. destruct (paused run) as [[|]|]; try apply wellEnded_afterPause.
    destruct (signalAborted (signal run)); [apply wellEnded_afterPause | exact I].
  - destruct (phase run) eqn:P; try exact H. exact I.
  - destruct (phase run) eqn:P; destruct src; try exact H;
      try apply wellEnded_catchBlock.
  - destruct (phase run) eqn:P; try exact H. apply wellEnded_onDrainWait. exact H.
  - destruct (phase run) eqn:P; try exact H. apply wellEnded_publish.
  - destruct (phase run) eqn:P; try exact H. apply wellEnded_catchBlock.
Qed.

Lemma wellEnded_start sg p st : wellEnded (start call sg p st).
Proof.
  unfold start. destruct (throwIfAborted sg); [exact I | apply wellEnded_catchBlock].
Qed.

Lemma wellEnded_run events : forall run,
  wellEnded run -> wellEnded (fold_left (step call) events run).
Proof.
  induction events as [|ev events IH]; intros run H; simpl; [exact H|].
  apply IH. now apply wellEnded_step.
Qed.

(** C3, as the code has it: a returned result is of exactly one of three
    kinds: success, with no error; cancelled, without success and with the
    fixed text of a cancellation for its error; failure, neither success
    nor cancelled, with the message of the fault. *)
Theorem processFile_disposition (sg : option Signal) (pausedNow : option bool)
    (st : Stats) (events : list Event) (r : ProcessingResult) :
  phase (processFile call sg pausedNow st events) = Returned r ->
  disposition r /\ inputPath r = c_inputPath call.
Proof.
  intros H.
  pose proof (wellEnded_run events _ (wellEnded_start sg pausedNow st)) as W.
  unfold processFile in H. unfold wellEnded in W. rewrite H in W. exact W.
Qed.

(** The three kinds exclude one another. *)
Lemma disposition_exclusive r :
  disposition r ->
  (success r = true -> cancelled r = false /\ Processor.error r = None)
  /\ (cancelled r = true -> success r = false
                            /\ Processor.error r = Some msgCancelledShort).
Proof.
  intros [[H1 [H2 H3]] | [[H1 [H2 H3]] | [H1 [H2 H3]]]]; split; intros H;
    try congruence; split; congruence.
Qed.

(** *** A file that is too large *)

Lemma validateFile_too_large f :
  (Config.maxFileSize (options call) < size f)%N ->
  exists err, validateFile (options call) f = Invalid err.
Proof.
  intros H. unfold validateFile.
  destruct (accessError f); [eauto|].
  destruct (statError f); [eauto|].
  destruct (negb (isFile f)); [eauto|].
  apply N.ltb_lt in H. rewrite H. eauto.
Qed.

(** No operation on the file system so far, and none to come: the run is
    still validating, or it has returned a failure without an output. *)
Definition untouched (run : Run) : Prop :=
  fsLog run = [] /\ tempFileCreated run = false
  /\ (phase run = Validating
      \/ exists r, phase run = Returned r /\ success r = false
                   /\ outputPath r = None)
  /\ r_outputPath run = None.

Definition failedEmpty (run : Run) : Prop :=
  fsLog run = []
  /\ exists r, phase run = Returned r /\ success r = false /\ outputPath r = None.

Lemma untouched_catchBlock run e :
  fsLog run = [] -> tempFileCreated run = false -> r_outputPath run = None ->
  failedEmpty (catchBlock call run e).
Proof.
  intros Hl Ht Ho.
  destruct (catchBlock_returned run e) as [r [H [Hs [Hp _]]]].
  split.
  - unfold catchBlock. rewrite Ht. simpl. exact Hl.
  - exists r. rewrite Hp, Ho. auto.
Qed.

Lemma returned_step run ev r :
  phase run = Returned r ->
  phase (step call run ev) = Returned r /\ fsLog (step call run ev) = fsLog run.
Proof.
  intros Hp.
  destruct ev; simpl; rewrite ?Hp; auto.
  - destruct (signal run); simpl; rewrite ?Hp; auto.
  - destruct (paused run); simpl; auto.
  - destruct (paused run) as [[|]|]; simpl; rewrite ?Hp; auto.
Qed.

Lemma failedEmpty_step run ev : failedEmpty run -> failedEmpty (step call run ev).
Proof.
  intros [Hl [r [Hp Hr]]].
  destruct (returned_step run ev Hp) as [Hp' Hl'].
  split; [congruence | eauto].
Qed.

Lemma failedEmpty_run events : forall run,
  failedEmpty run -> failedEmpty (fold_left (step call) events run).
Proof.
  induction events as [|ev events IH]; intros run H; simpl; [exact H|].
  apply IH. now apply failedEmpty_step.
Qed.

Definition notValidated (ev : Event) : Prop :=
  match ev with
  | Validated _ => False
  | _ => True
  end.

Lemma untouched_step run ev :
  notValidated ev -> untouched run -> untouched (step call run ev).
Proof.
  intros Hn [Hl [Ht [Hp Ho]]].
  destruct Hp as [Hp | [r [Hp Hr]]].
  - destruct ev; simpl in *; try contradiction; rewrite ?Hp;
      try (repeat split; auto; fail).
    + destruct (signal run); simpl; rewrite ?Hp; repeat split; auto.
    + destruct (paused run); simpl; repeat split; auto.
    + destruct (paused run) as [[|]|]; simpl; rewrite ?Hp; repeat split; auto.
  - destruct (returned_step run ev Hp) as [Hp' Hl'].
    repeat split.
    + congruence.
    + destruct ev; simpl in *; try contradiction; rewrite ?Hp; auto.
      * destruct (signal run); simpl; rewrite ?Hp; auto.
      * destruct (paused run); simpl; auto.
      * destruct (paused run) as [[|]|]; simpl; rewrite ?Hp; auto.
    + right. eauto.
    + destruct ev; simpl in *; try contradiction; rewrite ?Hp; auto.
      * destruct (signal run); simpl; rewrite ?Hp; auto.
      * destruct (paused run); simpl; auto.
      * destruct (paused run) as [[|]|]; simpl; rewrite ?Hp; auto.
Qed.

Lemma untouched_run events : forall run,
  Forall notValidated events -> untouched run ->
  untouched (fold_left (step call) events run).
Proof.
  induction events as [|ev events IH]; intros run HF H; simpl; [exact H|].
  inversion HF; subst. apply IH; [assumption|]. now apply untouched_step.
Qed.

Lemma untouched_start sg p st : untouched (start call sg p st).
Proof.
  unfold start. destruct (throwIfAborted sg) as [u|e].
  - repeat split; auto.
  - destruct (untouched_catchBlock (mkRun Validating sg p st None [] false [] []) e
                eq_refl eq_refl eq_refl) as [Hl [r [Hp Hr]]].
    repeat split; auto.
    right. eauto.
Qed.

(** C9. When the file [validateFile] looks at is larger than
    [maxFileSize], the run returns a result without success and without
    an output path, and it has done nothing on the file system: no
    directory, no temporary file, no output file.  [before] is what
    happened while the validation was pending, [after] what happens
    later. *)
Theorem processFile_too_large (sg : option Signal) (pausedNow : option bool)
    (st : Stats) (f : FileView) (before after : list Event) :
  (Config.maxFileSize (options call) < size f)%N ->
  Forall notValidated before ->
  let run := processFile call sg pausedNow st (before ++ Validated f :: after) in
  fsLog run = []
  /\ exists r, phase run = Returned r /\ success r = false /\ outputPath r = None.
Proof.
  intros Hbig Hbefore. cbv zeta. unfold processFile.
  rewrite fold_left_app. simpl.
  apply failedEmpty_run.
  pose proof (@untouched_run before _ Hbefore (untouched_start sg pausedNow st)) as U.
  set (run := fold_left (step call) before (start call sg pausedNow st)) in *.
  destruct U as [Hl [Ht [[Hp | [r [Hp Hr]]] Ho]]].
  - rewrite Hp. unfold afterValidation.
    destruct (validateFile_too_large f Hbig) as [err E]. rewrite E.
    now apply untouched_catchBlock.
  - rewrite Hp. split; eauto.
Qed.

(** *** The waits and the signal *)

(** At the wait for a resume the abort of the signal ends the run as
    cancelled. *)
Lemma pause_wait_observes_abort run line w sg reason :
  phase run = WaitingPause line w -> signal run = Some sg ->
  exists r, phase (step call run (Abort reason)) = Returned r
            /\ cancelled r = true /\ success r = false.
Proof.
  intros Hp Hs. simpl. rewrite Hs. simpl. rewrite Hp.
  unfold afterPause. simpl.
  destruct (catchBlock_returned (withSignal run (Some (mkSignal true reason)))
              (createAbortError (abortMessage reason))) as [r [H [Hsucc _]]].
  exists r. split; [exact H|]. split; [|exact Hsucc].
  unfold catchBlock in H. simpl in H. inversion H. reflexivity.
Qed.

(** Before each line the signal is looked at: a line that comes after the
    abort ends the run as cancelled. *)
Lemma line_observes_abort run line w sg :
  phase run = AwaitingLine -> signal run = Some sg -> aborted sg = true ->
  exists r, phase (step call run (Line line w)) = Returned r
            /\ cancelled r = true /\ success r = false.
Proof.
  intros Hp Hs Ha. simpl. rewrite Hp. unfold onLine.
  assert (A : exists r, phase (afterPause call run line w) = Returned r
                        /\ cancelled r = true /\ success r = false).
  { unfold afterPause. rewrite Hs. simpl. rewrite Ha. simpl.
    destruct (catchBlock_returned run (createAbortError (abortMessage (reason sg))))
      as [r [H [Hsucc _]]].
    exists r. split; [exact H|]. split; [|exact Hsucc].
    unfold catchBlock in H. simpl in H. inversion H. reflexivity. }
  destruct (paused run) as [[|]|]; try exact A.
  rewrite Hs. simpl. rewrite Ha. exact A.
Qed.

(** At the wait for [drain] the abort of the signal changes nothing but
    the signal: the run stays in the wait. *)
Lemma drain_wait_ignores_abort run reason :
  phase run = WaitingDrain ->
  phase (step call run (Abort reason)) = WaitingDrain.
Proof.
  intros Hp. simpl. destruct (signal run); [|exact Hp].
  simpl. rewrite Hp. exact Hp.
Qed.

End ProcessFileProperties.

(** *** Sample runs *)

Definition samplePaths : Processor.PathApi :=
  Processor.mkPathApi (fun _ => js "/logs") (fun _ => js ".log")
    (fun _ _ => js "app") (fun d f => d ++ js "/" ++ f).

Definition sampleHost : Processor.Host :=
  Processor.mkHost samplePaths 4242 1700000000000 false true None
    (fun e => str_eqb e (js "utf8")) false None None true 12.

(** [new FileProcessor()] on [/logs/app.log], no output directory. *)
Definition sampleCall : Processor.Call :=
  Processor.mkCall Config.DEFAULT_OPTIONS defaultScrubber sampleHost
    (js "/logs/app.log") None.

Definition liveSignal : option Abort.Signal :=
  Some (Abort.mkSignal false Abort.ReasonOther).

Definition abortedSignal : option Abort.Signal :=
  Some (Abort.mkSignal true Abort.ReasonOther).

Definition textFile : Processor.FileView :=
  Processor.mkFileView None None true 19 None (js "password=secret123" ++ [10%N]).

Definition hugeFile : Processor.FileView :=
  Processor.mkFileView None None true (10 * 1024 * 1024 * 1024 + 1) None [].

Section SampleRuns.
Import Abort Scrubber Processor.

Definition runSample := processFile (RT := literalNumbers) sampleCall.

(** A run to the end: one line, masked, written and published. *)
Lemma sample_success :
  let run := runSample liveSignal (Some false) emptyStats
               [Validated textFile; Line (js "password=secret123") true;
                InputEnd; Finish] in
  phase run
  = Returned (mkResult (js "/logs/app.log") (Some (js "/logs/app.masked.log"))
                true false None (Some (mkStats 1 1 0 [])) 12)
  /\ written run = [js "password=***" ++ [10%N]]
  /\ fsLog run
     = [OpCreate (js "/logs/app.masked.log.tmp.4242.1700000000000");
        OpRename (js "/logs/app.masked.log.tmp.4242.1700000000000")
          (js "/logs/app.masked.log")].
Proof. vm_compute. repeat split; reflexivity. Qed.

Lemma processFile_disposition_witness :
  disposition (mkResult (js "/logs/app.log") (Some (js "/logs/app.masked.log"))
                 true false None (Some (mkStats 1 1 0 [])) 12).
Proof.
  apply (@processFile_disposition literalNumbers sampleCall
           liveSignal (Some false) emptyStats
           [Validated textFile; Line (js "password=secret123") true;
            InputEnd; Finish]).
  vm_compute. reflexivity.
Defined.

(** C3 as stated fails: a cancelled run returns a result with
    [cancelled] true and an error text, so two of the three dispositions
    hold at once. *)
Lemma cancelled_result_has_error :
  phase (runSample abortedSignal None emptyStats [])
  = Returned (mkResult (js "/logs/app.log") None false true
                (Some msgCancelledShort) None 0).
Proof. vm_compute. reflexivity. Qed.

Lemma processFile_too_large_witness :
  let run := runSample liveSignal (Some false) emptyStats
               ([Pause] ++ Validated hugeFile :: [Line (js "x") true; InputEnd]) in
  fsLog run = []
  /\ exists r, phase run = Returned r /\ success r = false /\ outputPath r = None.
Proof.
  apply (@processFile_too_large literalNumbers sampleCall liveSignal
           (Some false) emptyStats hugeFile [Pause]
           [Line (js "x") true; InputEnd]).
  - vm_compute. reflexivity.
  - repeat constructor.
Defined.

(** What the too-large file returns. *)
Lemma sample_too_large :
  phase (runSample liveSignal (Some false) emptyStats [Validated hugeFile])
  = Returned (mkResult (js "/logs/app.log") None false false
                (Some (js "File size (10737418241) exceeds maximum allowed size (10737418240)"))
                None 0).
Proof. vm_compute. reflexivity. Qed.


End SampleRuns.

(** ** The batch *)

Section TaskLists.
Import Batch.

Definition tasklist := list (jsstring * TaskState).

Lemma nth_error_setTask_same (ts : tasklist) : forall i p st st',
  nth_error ts i = Some (p, st) ->
  nth_error (setTask i st' ts) i = Some (p, st').
Proof.
  induction ts as [|[q s] ts IH]; intros [|i] p st st' H; simpl in *;
    try discriminate.
  - inversion H; subst. reflexivity.
  - eapply IH. exact H.
Qed.

Lemma nth_error_setTask_other (ts : tasklist) : forall i j st',
  i <> j -> nth_error (setTask i st' ts) j = nth_error ts j.
Proof.
  induction ts as [|[q s] ts IH]; intros [|i] [|j] st' H; simpl; try reflexivity.
  - contradiction.
  - apply IH. congruence.
Qed.

Lemma map_fst_setTask (ts : tasklist) : forall i st,
  map fst (setTask i st ts) = map fst ts.
Proof.
  induction ts as [|[q s] ts IH]; intros [|i] st; simpl; try reflexivity.
  now rewrite IH.
Qed.

Definition b2n (b : bool) : nat := if b then 1 else 0.

(** Changing the state of one task changes a count by what the old and
    the new state weigh. *)
Lemma count_setTask (f : jsstring * TaskState -> bool) (ts : tasklist) :
  forall i p st st',
    nth_error ts i = Some (p, st) ->
    length (filter f (setTask i st' ts)) + b2n (f (p, st))
    = length (filter f ts) + b2n (f (p, st')).
Proof.
  induction ts as [|[q s] ts IH]; intros [|i] p st st' H; simpl in *;
    try discriminate.
  - inversion H; subst.
    destruct (f (p, st)), (f (p, st')); simpl; lia.
  - specialize (IH i p st st' H).
    destruct (f (q, s)); simpl; lia.
Qed.

Lemma filter_setTask_out (f : jsstring * TaskState -> bool) (ts : tasklist) :
  forall i p st st',
    nth_error ts i = Some (p, st) ->
    f (p, st) = false -> f (p, st') = false ->
    filter f (setTask i st' ts) = filter f ts.
Proof.
  induction ts as [|[q s] ts IH]; intros [|i] p st st' H F F'; simpl in *;
    try discriminate.
  - inversion H; subst. rewrite F, F'. reflexivity.
  - rewrite (IH i p st st' H F F'). reflexivity.
Qed.

Lemma filter_setTask_in (f : jsstring * TaskState -> bool) (ts : tasklist) :
  forall i p st st',
    nth_error ts i = Some (p, st) ->
    f (p, st) = false -> f (p, st') = true ->
    Permutation (map fst (filter f (setTask i st' ts)))
                (p :: map fst (filter f ts)).
Proof.
  induction ts as [|[q s] ts IH]; intros [|i] p st st' H F F'; simpl in *;
    try discriminate.
  - inversion H; subst. rewrite F, F'. reflexivity.
  - specialize (IH i p st st' H F F').
    destruct (f (q, s)); simpl; [|exact IH].
    rewrite IH. apply perm_swap.
Qed.

(** The positions of the tasks that wait in the queue, from position [k]
    on. *)
Fixpoint queuedFrom (k : nat) (ts : tasklist) : list nat :=
  match ts with
  | [] => []
  | (_, TQueued) :: ts' => k :: queuedFrom (S k) ts'
  | _ :: ts' => queuedFrom (S k) ts'
  end.

Lemma queuedFrom_head (ts : tasklist) : forall k j rest,
  queuedFrom k ts = j :: rest ->
  k <= j
  /\ (exists p, nth_error ts (j - k) = Some (p, TQueued))
  /\ forall st', st' <> TQueued -> queuedFrom k (setTask (j - k) st' ts) = rest.
Proof.
  induction ts as [|[q s] ts IH]; intros k j rest H; simpl in H; [discriminate|].
  destruct s.
  1:{ inversion H; subst. rewrite Nat.sub_diag. split; [lia|].
      split; [exists q; reflexivity|].
      intros st' Hst. simpl. destruct st'; try reflexivity. now elim Hst. }
  all: destruct (IH (S k) j rest H) as [Hk [[p Hp] Hset]];
    replace (j - k) with (S (j - S k)) by lia;
    (split; [lia|]); (split; [exists p; exact Hp|]);
    intros st' Hst; simpl; apply Hset; exact Hst.
Qed.

Lemma queuedFrom_setTask (ts : tasklist) : forall k i p st st',
  nth_error ts i = Some (p, st) ->
  st <> TQueued -> st' <> TQueued ->
  queuedFrom k (setTask i st' ts) = queuedFrom k ts.
Proof.
  induction ts as [|[q s] ts IH]; intros k [|i] p st st' H Hs Hs'; simpl in *;
    try discriminate.
  - inversion H; subst. destruct st, st'; try reflexivity; congruence.
  - rewrite (IH (S k) i p st st' H Hs Hs'). reflexivity.
Qed.

Lemma queuedFrom_In (ts : tasklist) : forall k j,
  In j (queuedFrom k ts) <->
  k <= j /\ exists p, nth_error ts (j - k) = Some (p, TQueued).
Proof.
  induction ts as [|[q s] ts IH]; intros k j; simpl.
  - split; [intros [] | intros [_ [p H]]]. destruct (j - k); discriminate.
  - assert (T : In j (queuedFrom (S k) ts) <->
                S k <= j /\ exists p, nth_error ts (j - S k) = Some (p, TQueued))
      by apply IH.
    assert (Shift : S k <= j ->
              nth_error ((q, s) :: ts) (j - k) = nth_error ts (j - S k)).
    { intros Hk. replace (j - k) with (S (j - S k)) by lia. reflexivity. }
    destruct s; simpl;
      try (rewrite T; split;
           [ intros [Hk [p Hp]]; split; [lia|]; exists p;
             rewrite (Shift Hk); exact Hp
           | intros [Hk [p Hp]];
             destruct (Nat.eq_dec j k) as [->|Hne];
             [ rewrite Nat.sub_diag in Hp; simpl in Hp; congruence
             | split; [lia|]; exists p; rewrite <- Shift by lia; exact Hp ] ]).
    split.
    + intros [<- | Hin].
      * split; [lia|]. rewrite Nat.sub_diag. simpl. eauto.
      * apply T in Hin. destruct Hin as [Hk [p Hp]].
        split; [lia|]. exists p. rewrite (Shift Hk). exact Hp.
    + intros [Hk [p Hp]].
      destruct (Nat.eq_dec j k) as [->|Hne]; [left; reflexivity|].
      right. apply T. split; [lia|]. exists p. rewrite <- Shift by lia. exact Hp.
Qed.

(** The listeners of an abort reject the queued tasks one by one. *)
Definition rejectAll (l : list nat) (ts : tasklist) : tasklist :=
  fold_left (fun ts j => setTask j TRejected ts) l ts.

Lemma tell_rejected (q : list Entry) (ts : tasklist) :
  tell (map (fun e => (e_task e, Rejected)) q) ts = rejectAll (map e_task q) ts.
Proof.
  unfold tell, rejectAll. revert ts.
  induction q as [|e q IH]; intros ts; simpl; [reflexivity|]. apply IH.
Qed.

Lemma rejectAll_spec (l : list nat) : forall ts,
  queuedFrom 0 ts = l ->
  queuedFrom 0 (rejectAll l ts) = []
  /\ map fst (rejectAll l ts) = map fst ts
  /\ (forall f, (forall p, f (p, TQueued) = false) ->
                (forall p, f (p, TRejected) = false) ->
                filter f (rejectAll l ts) = filter f ts)
  /\ (forall i p, nth_error ts i = Some (p, TQueued) ->
                  nth_error (rejectAll l ts) i = Some (p, TRejected))
  /\ (forall i p st, nth_error ts i = Some (p, st) -> st <> TQueued ->
                     nth_error (rejectAll l ts) i = Some (p, st)).
Proof.
  induction l as [|j l IH]; intros ts H.
  - simpl. repeat split; auto.
    intros i p Hi. exfalso.
    assert (In i (queuedFrom 0 ts)).
    { apply queuedFrom_In. split; [lia|]. rewrite Nat.sub_0_r. eauto. }
    rewrite H in *. contradiction.
  - destruct (queuedFrom_head ts 0 H) as [_ [[pj Hj] Hset]].
    rewrite Nat.sub_0_r in *.
    assert (Hrest : queuedFrom 0 (setTask j TRejected ts) = l)
      by (apply Hset; discriminate).
    destruct (IH _ Hrest) as [A [B [C [D E]]]].
    simpl. repeat split.
    + exact A.
    + rewrite B. apply map_fst_setTask.
    + intros f Fq Fr. rewrite (C f Fq Fr).
      eapply filter_setTask_out; [exact Hj | apply Fq | apply Fr].
    + intros i p Hi. destruct (Nat.eq_dec i j) as [->|Hne].
      * apply (E j p TRejected); [|discriminate].
        rewrite Hj in Hi. inversion Hi; subst.
        eapply nth_error_setTask_same. exact Hj.
      * apply D. rewrite nth_error_setTask_other by congruence. exact Hi.
    + intros i p st Hi Hst. apply E; [|exact Hst].
      destruct (Nat.eq_dec i j) as [->|Hne].
      * congruence.
      * rewrite nth_error_setTask_other by congruence. exact Hi.
Qed.

End TaskLists.

Section SemaphoreProperties.
Import Abort Processor Batch.

Definition hasSig (sg : option Signal) : bool :=
  match sg with
  | Some _ => true
  | None => false
  end.

Lemma release_empty sem sg :
  queue sem = [] ->
  release sem sg = (mkSemaphore (max sem) (current sem - 1) [], []).
Proof. intros H. unfold release. rewrite H. reflexivity. Qed.

(** [release] gives the slot to the head of the queue. *)
Lemma release_head sem sg e q :
  queue sem = e :: q ->
  e_hasSignal e && signalAborted sg = false ->
  release sem sg
  = (mkSemaphore (max sem) (current sem - 1 + 1) q, [(e_task e, Granted)]).
Proof. intros H A. unfold release. rewrite H. simpl. rewrite A. reflexivity. Qed.

(** [acquire] puts a waiter at the end of the queue. *)
Lemma acquire_queued sem task sg sem' :
  acquire sem task sg = (sem', Queued) ->
  queue sem' = queue sem ++ [mkEntry task (hasSig sg)]
  /\ current sem' = current sem /\ (max sem <= current sem)%Z.
Proof.
  unfold acquire. destruct (signalAborted sg); [discriminate|].
  destruct (current sem <? max sem)%Z eqn:L; [discriminate|].
  intros H. inversion H; subst. simpl. repeat split.
  apply Z.ltb_ge in L. exact L.
Qed.

Lemma launch_spec sg : forall paths sem k sem' ts,
  launch sem sg k paths = (sem', ts) ->
  max sem' = max sem
  /\ map fst ts = paths
  /\ current sem' = (current sem + Z.of_nat (length (filter isActive ts)))%Z
  /\ ((current sem <= max sem)%Z -> (current sem' <= max sem')%Z)
  /\ filter isDone ts = []
  /\ exists es,
       queue sem' = queue sem ++ es
       /\ map e_task es = queuedFrom k ts
       /\ Forall (fun e => e_hasSignal e = hasSig sg) es
       /\ (signalAborted sg = true -> es = []).
Proof.
  induction paths as [|p ps IH]; intros sem k sem' ts H; simpl in H.
  - inversion H; subst. simpl. repeat split; try lia.
    exists []. rewrite app_nil_r. auto.
  - destruct (acquire sem k sg) as [sem1 a] eqn:A.
    destruct (launch sem1 sg (S k) ps) as [sem2 ts'] eqn:L.
    inversion H; subst sem' ts. clear H.
    destruct (IH _ _ _ _ L) as [M [P [C [B [D [es [Q [E [F G]]]]]]]]].
    unfold acquire in A.
    destruct (signalAborted sg) eqn:SA.
    + inversion A; subst sem1 a. simpl. rewrite P.
      repeat split; auto.
      exists es. auto.
    + destruct (current sem <? max sem)%Z eqn:Lt; inversion A; subst sem1 a;
        simpl in *; rewrite P.
      * apply Z.ltb_lt in Lt. repeat split; auto; try lia.
        exists es. repeat split; auto.
      * repeat split; auto.
        exists (mkEntry k (hasSig sg) :: es). repeat split.
        -- rewrite Q, <- app_assoc. reflexivity.
        -- simpl. now rewrite E.
        -- constructor; [reflexivity | exact F].
        -- intros; discriminate.
Qed.

End SemaphoreProperties.

Section BatchProperties.
Import Abort Processor Batch.
Variable N : Z.
Variable paths : list jsstring.

(** What holds of a batch at every instant. *)
Record Inv (b : Batch) : Prop := mkInv {
  inv_max : max (sem b) = N;
  inv_current : current (sem b) = Z.of_nat (active b);
  inv_bound : (current (sem b) <= N)%Z;
  inv_queue : map e_task (queue (sem b)) = queuedFrom 0 (tasks b);
  inv_signal : Forall (fun e => e_hasSignal e = hasSig (b_signal b)) (queue (sem b));
  inv_aborted : signalAborted (b_signal b) = true -> queue (sem b) = [];
  inv_results : Permutation (map inputPath (results b))
                  (map fst (filter isDone (tasks b)));
  inv_paths : map fst (tasks b) = paths
}.

Lemma Inv_start sg : (0 <= N)%Z -> Inv (startBatch N sg paths).
Proof.
  intros HN. unfold startBatch.
  destruct (launch (newSemaphore N) sg 0 paths) as [sem' ts] eqn:L.
  destruct (launch_spec _ _ _ _ L) as [M [P [C [B [D [es [Q [E [F G]]]]]]]]].
  simpl in *. constructor; simpl.
  - exact M.
  - rewrite C. reflexivity.
  - rewrite <- M. apply B. exact HN.
  - rewrite Q. exact E.
  - rewrite Q. exact F.
  - intros A. rewrite Q. apply G. exact A.
  - rewrite D. constructor.
  - exact P.
Qed.

(** A task that holds a slot ends: its result is pushed and the slot goes
    to the head of the queue. *)
Lemma Inv_finish b i p st r :
  Inv b ->
  nth_error (tasks b) i = Some (p, st) ->
  isActive (p, st) = true ->
  inputPath r = p ->
  Inv (finish b i r).
Proof.
  intros I Hi Ha Hr. destruct I as [M C B Q S A R P].
  assert (Hq : st <> TQueued) by (intros ->; discriminate).
  assert (Hd : isDone (p, st) = false) by (destruct st; try reflexivity; discriminate).
  pose proof (count_setTask isActive (tasks b) i TDone Hi) as Cnt.
  rewrite Ha in Cnt. simpl in Cnt.
  pose proof (@queuedFrom_setTask (tasks b) 0 i p st TDone Hi Hq ltac:(discriminate)) as Q1.
  pose proof (@filter_setTask_in isDone (tasks b) i p st TDone Hi Hd eq_refl) as D1.
  assert (Res : Permutation (map inputPath (results b ++ [r]))
                  (p :: map fst (filter isDone (tasks b)))).
  { rewrite map_app. simpl. rewrite Hr.
    rewrite <- Permutation_cons_append. now apply perm_skip. }
  unfold finish.
  destruct (queue (sem b)) as [|e q] eqn:Eq.
  - rewrite (release_empty _ _ Eq). simpl.
    constructor; simpl; auto.
    + unfold active in *. simpl. lia.
    + lia.
    + rewrite Q1. exact Q.
    + rewrite Res. symmetry. exact D1.
    + rewrite map_fst_setTask. exact P.
  - assert (Live : signalAborted (b_signal b) = false).
    { destruct (signalAborted (b_signal b)); [|reflexivity].
      specialize (A eq_refl). discriminate. }
    rewrite (@release_head (sem b) (b_signal b) e q Eq)
      by (rewrite Live; apply andb_false_r).
    simpl in Q. rewrite <- Q1 in Q. symmetry in Q.
    destruct (@queuedFrom_head _ 0 _ _ Q) as [_ [[pj Hj] Hset]].
    rewrite Nat.sub_0_r in *.
    pose proof (count_setTask isActive _ (e_task e) TGranted Hj) as Cnt2.
    simpl in Cnt2.
    assert (D2 : filter isDone (setTask (e_task e) TGranted (setTask i TDone (tasks b)))
                 = filter isDone (setTask i TDone (tasks b))).
    { eapply filter_setTask_out; [exact Hj | reflexivity | reflexivity]. }
    constructor; simpl.
    + exact M.
    + unfold active in *. simpl. lia.
    + lia.
    + symmetry. apply Hset. discriminate.
    + inversion S; assumption.
    + rewrite Live. discriminate.
    + rewrite D2, Res. symmetry. exact D1.
    + rewrite !map_fst_setTask. exact P.
Qed.

Lemma Inv_step b ev : Inv b -> Inv (batchStep b ev).
Proof.
  intros I. destruct ev as [reason | i | i r]; simpl.
  - destruct (b_signal b) as [sg|] eqn:Sg; [|exact I].
    destruct (aborted sg) eqn:Ab; [exact I|].
    destruct I as [M C B Q S A R P].
    unfold abortQueue.
    assert (All : filter e_hasSignal (queue (sem b)) = queue (sem b)).
    { rewrite Sg in S. simpl in S. clear -S.
      induction (queue (sem b)) as [|e q IH]; [reflexivity|].
      inversion S; subst. simpl. rewrite H1. f_equal. now apply IH. }
    assert (Non : filter (fun e => negb (e_hasSignal e)) (queue (sem b)) = []).
    { rewrite Sg in S. simpl in S. clear -S.
      induction (queue (sem b)) as [|e q IH]; [reflexivity|].
      inversion S; subst. simpl. rewrite H1. simpl. now apply IH. }
    rewrite All, Non, tell_rejected.
    destruct (@rejectAll_spec _ (tasks b) (eq_sym Q)) as [Q' [P' [F' _]]].
    constructor; simpl; auto.
    + unfold active in *. simpl. rewrite F'; auto.
    + rewrite F'; auto.
    + rewrite P'. exact P.
  - destruct (nth_error (tasks b) i) as [[p st]|] eqn:Hi; [|exact I].
    destruct st; try exact I.
    + destruct (throwIfAborted (b_signal b)).
      * destruct I as [M C B Q S A R P].
        pose proof (count_setTask isActive (tasks b) i TRunning Hi) as Cnt.
        simpl in Cnt.
        constructor; simpl; auto.
        -- unfold active in *. simpl. lia.
        -- erewrite queuedFrom_setTask; [exact Q | exact Hi | discriminate | discriminate].
        -- erewrite filter_setTask_out; [exact R | exact Hi | reflexivity | reflexivity].
        -- rewrite map_fst_setTask. exact P.
      * eapply Inv_finish; [exact I | exact Hi | reflexivity | reflexivity].
    + destruct I as [M C B Q S A R P].
      pose proof (count_setTask isActive (tasks b) i TDone Hi) as Cnt.
      simpl in Cnt.
      constructor; simpl; auto.
      * unfold active in *. simpl. lia.
      * erewrite queuedFrom_setTask; [exact Q | exact Hi | discriminate | discriminate].
      * rewrite map_app. simpl.
        rewrite (@filter_setTask_in isDone (tasks b) i p TRejected TDone Hi eq_refl eq_refl).
        rewrite <- Permutation_cons_append. now apply perm_skip.
      * rewrite map_fst_setTask. exact P.
  - destruct (nth_error (tasks b) i) as [[p st]|] eqn:Hi; [|exact I].
    destruct st; try exact I.
    destruct (str_eqb (inputPath r) p) eqn:E; [|exact I].
    apply str_eqb_eq in E.
    eapply Inv_finish; [exact I | exact Hi | reflexivity | exact E].
Qed.

Lemma Inv_run events : forall b, Inv b -> Inv (fold_left batchStep events b).
Proof.
  induction events as [|ev events IH]; intros b I; simpl; [exact I|].
  apply IH. now apply Inv_step.
Qed.

End BatchProperties.

(** *** The final order *)

Section FinalOrder.
Import Processor Batch.

Lemma sorted_perm_unique (l1 : list nat) : forall l2,
  StronglySorted le l1 -> StronglySorted le l2 -> Permutation l1 l2 -> l1 = l2.
Proof.
  induction l1 as [|x l1 IH]; intros l2 S1 S2 P.
  - apply Permutation_nil in P. now subst.
  - destruct l2 as [|y l2].
    + symmetry in P. apply Permutation_nil in P. discriminate.
    + inversion S1 as [|? ? S1' F1]; subst. inversion S2 as [|? ? S2' F2]; subst.
      assert (x = y).
      { assert (Hx : In x (y :: l2)) by (eapply Permutation_in; [exact P | left; reflexivity]).
        assert (Hy : In y (x :: l1))
          by (eapply Permutation_in; [symmetry; exact P | left; reflexivity]).
        rewrite Forall_forall in F1, F2.
        destruct Hx as [<-|Hx]; [reflexivity|].
        destruct Hy as [<-|Hy]; [reflexivity|].
        pose proof (F1 _ Hy). pose proof (F2 _ Hx). lia. }
      subst y. f_equal. apply IH; auto.
      eapply Permutation_cons_inv. exact P.
Qed.

Lemma sorted_seq n : forall k, StronglySorted le (seq k n).
Proof.
  induction n as [|n IH]; intros k; simpl; constructor.
  - apply IH.
  - apply Forall_forall. intros x Hx. apply in_seq in Hx. lia.
Qed.

Lemma map_injective_on {A B} (f : A -> B) (l1 : list A) : forall l2,
  (forall x y, In x l1 -> In y l2 -> f x = f y -> x = y) ->
  map f l1 = map f l2 -> l1 = l2.
Proof.
  induction l1 as [|x l1 IH]; intros [|y l2] Inj H; simpl in H; try discriminate.
  - reflexivity.
  - inversion H. f_equal.
    + apply Inj; simpl; auto.
    + apply IH; [|assumption]. intros a b Ha Hb. apply Inj; simpl; auto.
Qed.

Variable safePaths : list jsstring.

Definition position (p : jsstring) : nat :=
  match indexByPath safePaths 0 p with
  | Some i => i
  | None => 0
  end.

Lemma indexByPath_absent qs : forall i p,
  ~ In p qs -> indexByPath qs i p = None.
Proof.
  induction qs as [|q qs IH]; intros i p H; simpl; [reflexivity|].
  rewrite IH by (intros Hin; apply H; right; exact Hin).
  destruct (str_eqb p q) eqn:E; [|reflexivity].
  apply str_eqb_eq in E. subst. elim H. left. reflexivity.
Qed.

Lemma indexByPath_nth qs : forall i k p,
  NoDup qs -> nth_error qs k = Some p -> indexByPath qs i p = Some (i + k).
Proof.
  induction qs as [|q qs IH]; intros i [|k] p ND H; simpl in *; try discriminate.
  - inversion H; subst. inversion ND; subst.
    rewrite indexByPath_absent by assumption.
    rewrite str_eqb_refl. f_equal. lia.
  - inversion ND; subst. rewrite (IH (S i) k p) by assumption. f_equal. lia.
Qed.

Lemma position_nth k p :
  NoDup safePaths -> nth_error safePaths k = Some p -> position p = k.
Proof.
  intros ND H. unfold position. now rewrite (indexByPath_nth 0 _ ND H).
Qed.

Lemma map_position_paths :
  NoDup safePaths -> map position safePaths = seq 0 (length safePaths).
Proof.
  intros ND.
  apply nth_error_ext. intros k.
  rewrite nth_error_map.
  destruct (nth_error safePaths k) as [p|] eqn:E; simpl.
  - rewrite (position_nth _ ND E).
    assert (k < length safePaths) by (apply nth_error_Some; congruence).
    rewrite nth_error_seq.
    destruct (Nat.ltb_spec k (length safePaths)); [reflexivity | lia].
  - apply nth_error_None in E. symmetry. apply nth_error_None.
    rewrite length_seq. exact E.
Qed.

Lemma position_injective x y :
  NoDup safePaths -> In x safePaths -> In y safePaths ->
  position x = position y -> x = y.
Proof.
  intros ND Hx Hy E.
  apply In_nth_error in Hx. destruct Hx as [i Hi].
  apply In_nth_error in Hy. destruct Hy as [j Hj].
  rewrite (position_nth _ ND Hi), (position_nth _ ND Hj) in E. congruence.
Qed.

Definition byIndex (a b : ProcessingResult) : Prop :=
  indexOfResult safePaths a <= indexOfResult safePaths b.

Lemma insertByIndex_perm r l :
  Permutation (insertByIndex safePaths r l) (r :: l).
Proof.
  induction l as [|x l IH]; simpl; [reflexivity|].
  destruct (_ <=? _); [reflexivity|].
  rewrite IH. apply perm_swap.
Qed.

Lemma insertByIndex_sorted r l :
  StronglySorted byIndex l -> StronglySorted byIndex (insertByIndex safePaths r l).
Proof.
  induction l as [|x l IH]; intros S; simpl.
  - constructor; constructor.
  - destruct (Nat.leb_spec (indexOfResult safePaths r) (indexOfResult safePaths x)).
    + constructor; [exact S|].
      inversion S; subst. constructor; [exact H|].
      rewrite Forall_forall in *. intros y Hy. unfold byIndex in *.
      specialize (H3 y Hy). lia.
    + inversion S; subst. constructor; [apply IH; assumption|].
      rewrite Forall_forall in *. intros y Hy.
      assert (Hy' : In y (r :: l))
        by (eapply Permutation_in; [apply insertByIndex_perm | exact Hy]).
      destruct Hy' as [<-|Hy']; [unfold byIndex; lia | apply H3; exact Hy'].
Qed.

Lemma sortByIndex_perm l : Permutation (sortByIndex safePaths l) l.
Proof.
  induction l as [|r l IH]; simpl; [reflexivity|].
  rewrite insertByIndex_perm. now apply perm_skip.
Qed.

Lemma sortByIndex_sorted l : StronglySorted byIndex (sortByIndex safePaths l).
Proof.
  induction l as [|r l IH]; simpl; [constructor|].
  now apply insertByIndex_sorted.
Qed.

Lemma sorted_map_index l :
  StronglySorted byIndex l -> StronglySorted le (map (indexOfResult safePaths) l).
Proof.
  induction 1 as [|x l S IH F]; simpl; constructor; [exact IH|].
  rewrite Forall_forall in *. intros n Hn.
  apply in_map_iff in Hn. destruct Hn as [y [<- Hy]]. apply F. exact Hy.
Qed.

(** Sorting by position puts results with distinct paths in the order of
    the paths. *)
Lemma sortByIndex_order (results : list ProcessingResult) :
  NoDup safePaths ->
  Permutation (map inputPath results) safePaths ->
  map inputPath (sortByIndex safePaths results) = safePaths.
Proof.
  intros ND P.
  set (sorted := sortByIndex safePaths results).
  assert (PS : Permutation (map inputPath sorted) safePaths).
  { rewrite <- P. apply Permutation_map. apply sortByIndex_perm. }
  apply (map_injective_on position).
  - intros x y Hx Hy. apply position_injective; [exact ND | | exact Hy].
    eapply Permutation_in; [exact PS | exact Hx].
  - rewrite (map_position_paths ND).
    apply sorted_perm_unique.
    + rewrite map_map. apply (sorted_map_index (sortByIndex_sorted results)).
    + apply sorted_seq.
    + rewrite <- (map_position_paths ND). apply Permutation_map. exact PS.
Qed.

End FinalOrder.

Section BatchClaims.
Import Abort Processor Batch.

Lemma running_le_active b : running b <= active b.
Proof.
  unfold running, active.
  induction (tasks b) as [|[p st] ts IH]; simpl; [lia|].
  destruct st; simpl; lia.
Qed.

(** A task that was rejected or is done. *)
Definition out (st : TaskState) : Prop := st = TRejected \/ st = TDone.

Lemma finish_tasks N paths b i p st r :
  Inv N paths b ->
  nth_error (tasks b) i = Some (p, st) -> isActive (p, st) = true ->
  nth_error (tasks (finish b i r)) i = Some (p, TDone)
  /\ forall j q s, j <> i -> nth_error (tasks b) j = Some (q, s) -> s <> TQueued ->
       nth_error (tasks (finish b i r)) j = Some (q, s).
Proof.
  intros I Hi Ha. destruct I as [M C B Q S A R P].
  assert (Hq : st <> TQueued) by (intros ->; discriminate).
  unfold finish.
  destruct (queue (sem b)) as [|e q0] eqn:Eq.
  - rewrite (release_empty _ _ Eq). simpl. split.
    + eapply nth_error_setTask_same. exact Hi.
    + intros j q s Hne Hj _. rewrite nth_error_setTask_other by congruence. exact Hj.
  - assert (Live : signalAborted (b_signal b) = false).
    { destruct (signalAborted (b_signal b)); [|reflexivity].
      specialize (A eq_refl). discriminate. }
    rewrite (@release_head (sem b) (b_signal b) e q0 Eq)
      by (rewrite Live; apply andb_false_r).
    simpl in Q.
    assert (Hin : In (e_task e) (queuedFrom 0 (tasks b)))
      by (rewrite <- Q; left; reflexivity).
    apply queuedFrom_In in Hin. destruct Hin as [_ [pe He]].
    rewrite Nat.sub_0_r in He.
    assert (Hei : e_task e <> i) by (intros E; rewrite E in He; congruence).
    simpl. split.
    + rewrite nth_error_setTask_other by exact Hei.
      eapply nth_error_setTask_same. exact Hi.
    + intros j q s Hne Hj Hs.
      assert (e_task e <> j) by (intros E; rewrite E in He; congruence).
      rewrite !nth_error_setTask_other by congruence. exact Hj.
Qed.

Lemma out_step N paths b ev j q s :
  Inv N paths b ->
  nth_error (tasks b) j = Some (q, s) -> out s ->
  exists s', nth_error (tasks (batchStep b ev)) j = Some (q, s') /\ out s'.
Proof.
  intros I Hj Ho.
  assert (Hs : s <> TQueued) by (destruct Ho; subst; discriminate).
  assert (Hact : isActive (q, s) = false) by (destruct Ho; subst; reflexivity).
  destruct ev as [reason | i | i r]; simpl.
  - destruct (b_signal b) as [sg|] eqn:Sg; [|eauto].
    destruct (aborted sg) eqn:Ab; [eauto|].
    assert (All : filter e_hasSignal (queue (sem b)) = queue (sem b)).
    { pose proof (inv_signal I) as S. rewrite Sg in S. simpl in S. clear -S.
      induction (queue (sem b)) as [|e q IH]; [reflexivity|].
      inversion S; subst. simpl. rewrite H1. f_equal. now apply IH. }
    unfold abortQueue. simpl. rewrite All, tell_rejected.
    destruct (@rejectAll_spec _ (tasks b) (eq_sym (inv_queue I))) as [_ [_ [_ [_ K]]]].
    exists s. split; [apply K; assumption | exact Ho].
  - destruct (nth_error (tasks b) i) as [[p st]|] eqn:Hi; [|eauto].
    destruct (Nat.eq_dec j i) as [->|Hne].
    + rewrite Hi in Hj. inversion Hj; subst.
      destruct Ho as [-> | ->];
        [| exists TDone; split; [exact Hi | right; reflexivity]].
      simpl. exists TDone. split; [|right; reflexivity].
      eapply nth_error_setTask_same. exact Hi.
    + destruct st; eauto.
      * destruct (throwIfAborted (b_signal b)).
        -- simpl. exists s. split; [|exact Ho].
           rewrite nth_error_setTask_other by congruence. exact Hj.
        -- exists s. split; [|exact Ho].
           eapply (proj2 (@finish_tasks N paths b i p TGranted _ I Hi eq_refl));
             eauto.
      * simpl. exists s. split; [|exact Ho].
        rewrite nth_error_setTask_other by congruence. exact Hj.
  - destruct (nth_error (tasks b) i) as [[p st]|] eqn:Hi; [|eauto].
    destruct st; eauto.
    destruct (str_eqb (inputPath r) p); [|eauto].
    destruct (Nat.eq_dec j i) as [->|Hne].
    + rewrite Hi in Hj. inversion Hj; subst. destruct Ho; discriminate.
    + exists s. split; [|exact Ho].
      eapply (proj2 (@finish_tasks N paths b i p TRunning _ I Hi eq_refl)); eauto.
Qed.

Lemma out_run N paths events : forall b j q s,
  Inv N paths b ->
  nth_error (tasks b) j = Some (q, s) -> out s ->
  exists s', nth_error (tasks (fold_left batchStep events b)) j = Some (q, s')
             /\ out s'.
Proof.
  induction events as [|ev events IH]; intros b j q s I Hj Ho; simpl; [eauto|].
  destruct (@out_step N paths b ev j q s I Hj Ho) as [s' [Hj' Ho']].
  eapply IH; [apply Inv_step; exact I | exact Hj' | exact Ho'].
Qed.

(** C5. In a batch with concurrency [N >= 1], at every instant: the runs
    that hold a slot, and so the runs inside [processFile], are at most
    [N]; the queue holds the waiting tasks in the order they asked, and a
    release, while the signal has not aborted, gives the slot to the first
    of them; a task that is queued when the signal aborts is rejected at
    once, and from then on it is rejected or done, never running. *)
Theorem semaphore_bound (N : Z) (sg : option Signal) (paths : list jsstring)
    (events : list BatchEvent) :
  (1 <= N)%Z ->
  let b := processFiles N sg paths events in
  (Z.of_nat (running b) <= Z.of_nat (active b) <= N)%Z
  /\ map e_task (queue (sem b)) = queuedFrom 0 (tasks b)
  /\ (forall e q, queue (sem b) = e :: q ->
        release (sem b) (b_signal b)
        = (mkSemaphore N (current (sem b) - 1 + 1) q, [(e_task e, Granted)]))
  /\ (forall i p reason later,
        b_signal b <> None ->
        nth_error (tasks b) i = Some (p, TQueued) ->
        let b1 := batchStep b (BAbort reason) in
        nth_error (tasks b1) i = Some (p, TRejected)
        /\ exists st, nth_error (tasks (fold_left batchStep later b1)) i = Some (p, st)
                      /\ (st = TRejected \/ st = TDone)).
Proof.
  intros HN. cbv zeta.
  assert (I : Inv N paths (processFiles N sg paths events)).
  { unfold processFiles. apply Inv_run. apply Inv_start. lia. }
  set (b := processFiles N sg paths events) in *.
  split; [|split; [|split]].
  - pose proof (running_le_active b). pose proof (inv_current I).
    pose proof (inv_bound I). lia.
  - exact (inv_queue I).
  - intros e q Eq.
    assert (Live : signalAborted (b_signal b) = false).
    { destruct (signalAborted (b_signal b)) eqn:Ab; [|reflexivity].
      pose proof (inv_aborted I Ab). congruence. }
    rewrite (@release_head (sem b) (b_signal b) e q Eq)
      by (rewrite Live; apply andb_false_r).
    rewrite (inv_max I). reflexivity.
  - intros i p reason later Hsig Hi.
    assert (Hin : In i (queuedFrom 0 (tasks b))).
    { apply queuedFrom_In. split; [lia|]. rewrite Nat.sub_0_r. eauto. }
    rewrite <- (inv_queue I) in Hin.
    assert (Live : signalAborted (b_signal b) = false).
    { destruct (signalAborted (b_signal b)) eqn:Ab; [|reflexivity].
      rewrite (inv_aborted I Ab) in Hin. contradiction. }
    assert (R1 : nth_error (tasks (batchStep b (BAbort reason))) i = Some (p, TRejected)).
    { simpl. destruct (b_signal b) as [s|] eqn:Sg; [|congruence].
      simpl in Live. rewrite Live.
      assert (All : filter e_hasSignal (queue (sem b)) = queue (sem b)).
      { pose proof (inv_signal I) as S. rewrite Sg in S. simpl in S. clear -S.
        induction (queue (sem b)) as [|e q IH]; [reflexivity|].
        inversion S; subst. simpl. rewrite H1. f_equal. now apply IH. }
      unfold abortQueue. simpl. rewrite All, tell_rejected.
      destruct (@rejectAll_spec _ (tasks b) (eq_sym (inv_queue I))) as [_ [_ [_ [K _]]]].
      apply K. exact Hi. }
    split; [exact R1|].
    eapply out_run; [apply Inv_step; exact I | exact R1 | left; reflexivity].
Qed.

(** Three files, two slots: the third waits, gets the slot the first one
    to end leaves, and is rejected if the signal aborts before. *)
Definition threePaths : list jsstring := map js ["a.log"; "b.log"; "c.log"]%string.

Definition doneResult (p : jsstring) : ProcessingResult :=
  mkResult p (Some (p ++ js ".masked.log")) true false None
    (Some Scrubber.emptyStats) 5.

Lemma semaphore_bound_witness :
  let b := processFiles 2 liveSignal threePaths [BContinue 0; BContinue 1] in
  (Z.of_nat (running b) <= Z.of_nat (active b) <= 2)%Z
  /\ map snd (tasks b) = [TRunning; TRunning; TQueued]
  /\ map snd (tasks (batchStep b (BReturn 1 (doneResult (js "b.log")))))
     = [TRunning; TDone; TGranted]
  /\ map snd (tasks (batchStep b (BAbort ReasonOther)))
     = [TRunning; TRunning; TRejected].
Proof.
  destruct (@semaphore_bound 2 liveSignal threePaths [BContinue 0; BContinue 1])
    as [H _]; [lia|].
  split; [exact H|]. vm_compute. repeat split; reflexivity.
Defined.


Definition twoPaths : list jsstring := map js ["a.log"; "b.log"]%string.

Definition outOfOrder : list BatchEvent :=
  [BContinue 0; BContinue 1;
   BReturn 1 (doneResult (js "b.log")); BReturn 0 (doneResult (js "a.log"))].



End BatchClaims.


(* ===================================================================== *)
(** * Further properties of the code *)
(* ===================================================================== *)

(** ** The statistics of a scrubber *)

Section Statistics.
Import Scrubber.
Context {RT : Runtime}.
Variable this : Scrubber.

(** The results and the statistics after [processLine] has been called on
    each line in turn. *)
Definition processLines (st : Stats) (lines : list jsval)
    : list LineResult * Stats :=
  fold_left
    (fun (acc : list LineResult * Stats) line =>
       let (r, st') := processLine this (snd acc) line in
       (fst acc ++ [r], st'))
    lines ([], st).

Definition failed (r : LineResult) : bool :=
  match error r with
  | Some _ => true
  | None => false
  end.

Definition counted (r : LineResult) : bool := hasChanges r && negb (failed r).

Lemma processLine_counters st line :
  let out := processLine this st line in
  totalLines (snd out) = S (totalLines st)
  /\ errors (snd out) = errors st + (if failed (fst out) then 1 else 0)
  /\ maskedLines (snd out)
     = maskedLines st + (if counted (fst out) then 1 else 0).
Proof.
  unfold processLine, counted, failed.
  destruct (negb (enableMasking this)); simpl.
  - repeat split; lia.
  - destruct (maskLine this line) as [r|e]; simpl.
    + destruct (pr_hasChanges r); simpl; repeat split; lia.
    + repeat split; lia.
Qed.

Lemma processLines_app st l1 l2 :
  processLines st (l1 ++ l2)
  = (fst (processLines st l1) ++ fst (processLines (snd (processLines st l1)) l2),
     snd (processLines (snd (processLines st l1)) l2)).
Proof.
  unfold processLines. rewrite fold_left_app.
  generalize (fold_left
    (fun (acc : list LineResult * Stats) line =>
       let (r, st') := processLine this (snd acc) line in
       (fst acc ++ [r], st')) l1 ([], st)).
  intros [rs st1]. simpl.
  assert (G : forall l acc0 rs0,
    fold_left
      (fun (acc : list LineResult * Stats) line =>
         let (r, st') := processLine this (snd acc) line in
         (fst acc ++ [r], st')) l (rs0 ++ acc0, st1)
    = (rs0 ++ fst (fold_left
         (fun (acc : list LineResult * Stats) line =>
            let (r, st') := processLine this (snd acc) line in
            (fst acc ++ [r], st')) l (acc0, st1)),
       snd (fold_left
         (fun (acc : list LineResult * Stats) line =>
            let (r, st') := processLine this (snd acc) line in
            (fst acc ++ [r], st')) l (acc0, st1)))).
  { clear. intros l. revert st1. induction l as [|x l IH]; intros st1 acc0 rs0; simpl.
    - reflexivity.
    - destruct (processLine this st1 x) as [r st2]. simpl.
      rewrite <- app_assoc. apply IH. }
  specialize (G l2 [] rs). rewrite app_nil_r in G. exact G.
Qed.

(** X1. The counters of [this.stats] after any sequence of lines: every line
    is counted once; [errors] counts the results with an error,
    [maskedLines] the results with [hasChanges] and no error; so the two
    together never exceed [totalLines]. *)
Theorem stats_counters (st : Stats) (lines : list jsval) :
  let (rs, st') := processLines st lines in
  length rs = length lines
  /\ totalLines st' = totalLines st + length lines
  /\ errors st' = errors st + length (filter failed rs)
  /\ maskedLines st' = maskedLines st + length (filter counted rs)
  /\ maskedLines st' + errors st' <= maskedLines st + errors st + length lines.
Proof.
  induction lines as [|line lines IH] using rev_ind.
  - simpl. repeat split; lia.
  - rewrite processLines_app.
    destruct (processLines st lines) as [rs st1]. simpl.
    destruct IH as [L [T [E [M B]]]].
    pose proof (processLine_counters st1 line) as C. cbv zeta in C.
    unfold processLines. simpl.
    destruct (processLine this st1 line) as [r st2]. simpl in *.
    destruct C as [C1 [C2 C3]].
    rewrite !length_app, !filter_app, !length_app. simpl.
    assert (X : (if counted r then 1 else 0) + (if failed r then 1 else 0) <= 1).
    { unfold counted. destruct (failed r), (hasChanges r); simpl; lia. }
    destruct (failed r), (counted r); simpl in *; repeat split; lia.
Qed.

End Statistics.

(** ** The constructor of the scrubber *)

Section Constructor.
Import Scrubber.

Lemma toLowerCase_idem s : toLowerCase (toLowerCase s) = toLowerCase s.
Proof.
  unfold toLowerCase. rewrite map_map. apply map_ext. intros c.
  unfold lowerChar, isUpper, between.
  destruct ((65 <=? c)%N && (c <=? 90)%N) eqn:E; simpl.
  - apply andb_true_iff in E. destruct E as [E1 E2].
    apply N.leb_le in E1, E2.
    replace ((65 <=? c + 32)%N && (c + 32 <=? 90)%N) with false; [reflexivity|].
    symmetry. apply andb_false_iff. right. apply N.leb_gt. lia.
  - rewrite E. reflexivity.
Qed.

Lemma plainChar_lower c : plainChar c = true -> plainChar (lowerChar c) = true.
Proof.
  unfold lowerChar. destruct (isUpper c) eqn:U; [|auto].
  intros _. unfold isUpper, between in U.
  apply andb_true_iff in U. destruct U as [U1 U2]. apply N.leb_le in U1, U2.
  unfold plainChar, isWord, isAlpha, isLower, between.
  replace (97 <=? c + 32)%N with true by (symmetry; apply N.leb_le; lia).
  replace (c + 32 <=? 122)%N with true by (symmetry; apply N.leb_le; lia).
  simpl. rewrite orb_true_r. reflexivity.
Qed.

Lemma toKey_plain s :
  forallb plainChar s = true ->
  exists k, toKey s = Some k /\ key_text k = s.
Proof.
  intros H. unfold toKey.
  generalize (@eq_refl bool (forallb plainChar s)).
  generalize (forallb plainChar s) at 2 3.
  intros b. destruct b; intros E.
  - eexists. split; reflexivity.
  - congruence.
Qed.

(** [String(key).toLowerCase()] on a key. *)
Lemma lowerKey_text k : key_text (lowerKey k) = toLowerCase (key_text k).
Proof.
  unfold lowerKey.
  destruct (@toKey_plain (toLowerCase (key_text k))) as [k' [E T]].
  - pose proof (key_plain k) as P. unfold toLowerCase.
    rewrite forallb_forall in *. intros c Hc. apply in_map_iff in Hc.
    destruct Hc as [d [Hd Hin]]. subst c. apply plainChar_lower. apply P. exact Hin.
  - rewrite E. exact T.
Qed.

Definition seenIn (seen : list jsstring) (t : jsstring) : bool :=
  existsb (str_eqb t) seen.

Lemma seenIn_In seen t : seenIn seen t = true <-> In t seen.
Proof.
  unfold seenIn. rewrite existsb_exists. split.
  - intros [x [Hx E]]. apply str_eqb_eq in E. subst. exact Hx.
  - intros H. exists t. split; [exact H | apply str_eqb_refl].
Qed.

Lemma dedupKeys_In seen ks t :
  In t (map key_text (dedupKeys seen ks))
  <-> In t (map key_text ks) /\ ~ In t seen.
Proof.
  revert seen. induction ks as [|k ks IH]; intros seen; simpl.
  - tauto.
  - destruct (existsb (str_eqb (key_text k)) seen) eqn:E.
    + rewrite IH. apply (seenIn_In seen (key_text k)) in E.
      split; [tauto|]. intros [[H|H] N]; [subst; contradiction | tauto].
    + simpl. rewrite IH. simpl.
      assert (N : ~ In (key_text k) seen).
      { intros H. apply (seenIn_In seen) in H. unfold seenIn in H. congruence. }
      split.
      * intros [H|[H1 H2]]; [subst; tauto | tauto].
      * intros [[H|H] H2]; [tauto|].
        destruct (list_eq_dec N.eq_dec (key_text k) t) as [->|D]; [tauto|].
        right. split; [exact H|]. intros [X|X]; [congruence | tauto].
Qed.

Lemma dedupKeys_NoDup seen ks : NoDup (map key_text (dedupKeys seen ks)).
Proof.
  revert seen. induction ks as [|k ks IH]; intros seen; simpl.
  - constructor.
  - destruct (existsb (str_eqb (key_text k)) seen) eqn:E; [apply IH|].
    simpl. constructor; [|apply IH].
    rewrite dedupKeys_In. simpl. tauto.
Qed.


End Constructor.

(** ** The switch [maskUrlParams] *)

Section UrlParams.
Import Scrubber.

Definition isUrlRule (p : Pattern) : bool :=
  str_eqb (p_name p) (js "url_with_params").

(** The scrubber with the rules named [url_with_params] taken out. *)
Definition withoutUrlRule (this : Scrubber) : Scrubber :=
  mkScrubber (enableMasking this) (maskUrlParams this) (sensitiveKeys this)
    (filter (fun p => negb (isUrlRule p)) (patterns this))
    (kvSeparators this) (defaultMask this).

Lemma patternStep_withoutUrlRule this acc p :
  patternStep (withoutUrlRule this) acc p = patternStep this acc p.
Proof. reflexivity. Qed.

Lemma patternStep_url_skipped this acc p :
  maskUrlParams this = false -> isUrlRule p = true -> patternStep this acc p = acc.
Proof.
  intros M U. unfold patternStep. unfold isUrlRule in U. rewrite U, M. simpl.
  destruct (p_regex p); reflexivity.
Qed.

Lemma obj_get_assign_other (V : Type) k k' (v : V) m :
  k <> k' -> obj_get k (obj_assign k' v m) = obj_get k m.
Proof.
  intros D. unfold obj_assign. destruct (str_eqb k' (js "__proto__")); [reflexivity|].
  unfold obj_set.
  assert (U : forall m, obj_get k (obj_update k' v m) = obj_get k m).
  { clear m. induction m as [|[k0 v0] m IH]; simpl; [reflexivity|].
    destruct (str_eqb k' k0) eqn:E; simpl.
    - apply str_eqb_eq in E. subst k0.
      destruct (str_eqb k k') eqn:E'; [|reflexivity].
      apply str_eqb_eq in E'. contradiction.
    - destruct (str_eqb k k0); [reflexivity | apply IH]. }
  assert (Nk : str_eqb k k' = false).
  { destruct (str_eqb k k') eqn:E; [|reflexivity]. apply str_eqb_eq in E. contradiction. }
  destruct (obj_has k' m); [apply U|].
  destruct (arrayIndex k') as [i|].
  - clear U. induction m as [|[k0 v0] m IH]; simpl.
    + rewrite Nk. reflexivity.
    + destruct (arrayIndex k0) as [j|].
      * destruct (i <? j)%N; simpl.
        -- rewrite Nk. reflexivity.
        -- destruct (str_eqb k k0); [reflexivity | apply IH].
      * simpl. rewrite Nk. reflexivity.
  - clear U. induction m as [|[k0 v0] m IH]; simpl.
    + rewrite Nk. reflexivity.
    + destruct (str_eqb k k0); [reflexivity | apply IH].
Qed.

Lemma patternStep_other_name this acc p name :
  p_name p <> name ->
  obj_get name (pr_matches (patternStep this acc p)) = obj_get name (pr_matches acc).
Proof.
  intros D. unfold patternStep.
  destruct (p_regex p) as [re|]; [|reflexivity].
  destruct (str_eqb (p_name p) (js "url_with_params") && negb (maskUrlParams this));
    [reflexivity|].
  destruct (pr_masked acc) as [| | | |masked]; try reflexivity.
  destruct (0 <? matchLength re masked); [|reflexivity].
  destruct (applyReplacement this re (p_replacement p) masked); simpl;
    apply obj_get_assign_other; congruence.
Qed.


End UrlParams.

(** A scrubber with the masking of the parameters of a URL switched
    off. *)
Definition plainUrlScrubber : Scrubber.Scrubber :=
  fst (Scrubber.new
         (Scrubber.mkScrubberOptions None (Some false) None None None None)).


(** ** Sensitive keys in JSON mode *)

Section JsonKeys.
Import Scrubber.
Context {RT : Runtime}.
Variable this : Scrubber.

Definition isMask (v : json) : bool :=
  match v with
  | JStr s => str_eqb s (defaultMask this)
  | _ => false
  end.

(** Every property with a sensitive key, in the value and in the objects
    and arrays inside it, holds the mask. *)
Fixpoint keysMasked (v : json) : bool :=
  match v with
  | JArr elems => forallb keysMasked elems
  | JObj members =>
      forallb (fun kv : jsstring * json =>
                 let (k, x) := kv in
                 if hasKey this (toLowerCase k) then isMask x else keysMasked x)
        members
  | _ => true
  end.

Definition memberOk (kv : jsstring * json) : bool :=
  let (k, x) := kv in
  if hasKey this (toLowerCase k) then isMask x else keysMasked x.

Lemma obj_update_ok k v m :
  memberOk (k, v) = true -> forallb memberOk m = true ->
  forallb memberOk (obj_update k v m) = true.
Proof.
  intros Hv. induction m as [|[k0 v0] m IH]; cbn [obj_update forallb]; [reflexivity|].
  intros H. apply andb_true_iff in H. destruct H as [H0 Hm].
  destruct (str_eqb k k0) eqn:E; cbn [forallb]; apply andb_true_iff; split.
  - apply str_eqb_eq in E. subst k0. exact Hv.
  - exact Hm.
  - exact H0.
  - exact (IH Hm).
Qed.

Lemma obj_insert_index_ok i k v m :
  memberOk (k, v) = true -> forallb memberOk m = true ->
  forallb memberOk (obj_insert_index i k v m) = true.
Proof.
  intros Hv. induction m as [|[k0 v0] m IH]; cbn [obj_insert_index forallb].
  - intros _. rewrite andb_true_r. exact Hv.
  - intros H. pose proof H as H'. apply andb_true_iff in H. destruct H as [H0 Hm].
    destruct (arrayIndex k0) as [j|]; [destruct (i <? j)%N|];
      cbn [forallb]; apply andb_true_iff; split; auto.
Qed.

Lemma obj_assign_ok k v m :
  memberOk (k, v) = true -> forallb memberOk m = true ->
  forallb memberOk (obj_assign k v m) = true.
Proof.
  intros Hv Hm. unfold obj_assign. destruct (str_eqb k (js "__proto__")); [exact Hm|].
  unfold obj_set. destruct (obj_has k m).
  - apply obj_update_ok; assumption.
  - destruct (arrayIndex k).
    + apply obj_insert_index_ok; assumption.
    + rewrite forallb_app, Hm. cbn [forallb]. rewrite Hv. reflexivity.
Qed.

Lemma isMask_mask : isMask (JStr (defaultMask this)) = true.
Proof. apply str_eqb_refl. Qed.

(** What [maskValue] returns has the mask under every sensitive key. *)
Lemma maskValue_keysMasked (nested : jsstring -> JsonLine) (v : json) :
  keysMasked (fst (maskValue this nested v)) = true.
Proof.
  induction v as [| b | l | s | elems IH | members IH] using json_nested_ind;
    try reflexivity.
  - simpl. destruct (str_eqb s (defaultMask this)); [reflexivity|].
    destruct (isJson (nested s)); [reflexivity|].
    destruct (maskLeaf this s). reflexivity.
  - cbn [maskValue fst keysMasked]. rewrite map_map.
    induction IH as [|x l Hx Hl IHl]; simpl; [reflexivity|].
    rewrite Hx, IHl. reflexivity.
  - cbn [maskValue].
    generalize (strictNotEqual (JObj members) (defaultMask this)). intros flag.
    assert (G : forall acc, forallb memberOk (fst acc) = true ->
      forallb memberOk
        (fst (fold_left
           (fun (acc : list (jsstring * json) * bool) (kv : jsstring * json) =>
              let (k, v) := kv in
              let lowerKey := toLowerCase k in
              let (mv, c) :=
                if hasKey this lowerKey
                then (JStr (defaultMask this), flag)
                else maskValue this nested v in
              (obj_assign k mv (fst acc), snd acc || c)) members acc)) = true).
    { induction IH as [|[k x] l Hx Hl IHl]; intros acc Hacc; simpl; [exact Hacc|].
      apply IHl. simpl in Hx.
      destruct (hasKey this (toLowerCase k)) eqn:K; cbn [fst].
      - apply obj_assign_ok; [|exact Hacc]. simpl. rewrite K. apply isMask_mask.
      - destruct (maskValue this nested x) as [mv c] eqn:M. cbn [fst].
        apply obj_assign_ok; [|exact Hacc]. simpl. rewrite K. exact Hx. }
    specialize (G ([], false) eq_refl).
    destruct (fold_left _ members ([], false)) as [maskedObj objChanged].
    exact G.
Qed.

(** A value that [maskValue] reports unchanged has no sensitive key with
    another value than the mask: it has no sensitive key at all where
    [maskValue] looks. *)
Lemma maskValue_unchanged_keysMasked (nested : jsstring -> JsonLine) (v : json) :
  snd (maskValue this nested v) = false -> keysMasked v = true.
Proof.
  induction v as [| b | l | s | elems IH | members IH] using json_nested_ind;
    try reflexivity.
  - cbn [maskValue snd keysMasked]. intros H.
    induction IH as [|x l Hx Hl IHl]; simpl in *; [reflexivity|].
    apply orb_false_iff in H. destruct H as [H1 H2].
    rewrite (Hx H1), (IHl H2). reflexivity.
  - cbn [maskValue keysMasked].
    assert (F : strictNotEqual (JObj members) (defaultMask this) = true) by reflexivity.
    revert F. generalize (strictNotEqual (JObj members) (defaultMask this)).
    intros flag F. subst flag.
    assert (G : forall acc,
      snd (fold_left
           (fun (acc : list (jsstring * json) * bool) (kv : jsstring * json) =>
              let (k, v) := kv in
              let lowerKey := toLowerCase k in
              let (mv, c) :=
                if hasKey this lowerKey
                then (JStr (defaultMask this), true)
                else maskValue this nested v in
              (obj_assign k mv (fst acc), snd acc || c)) members acc) = false ->
      snd acc = false /\ forallb memberOk members = true).
    { induction IH as [|[k x] l Hx Hl IHl]; intros acc H; simpl in *; [tauto|].
      apply IHl in H. destruct H as [H1 H2]. rewrite H2, andb_true_r.
      destruct (hasKey this (toLowerCase k)) eqn:K; cbn [snd] in H1.
      - rewrite orb_true_r in H1. discriminate.
      - destruct (maskValue this nested x) as [mv c] eqn:M. cbn [snd] in *.
        apply orb_false_iff in H1. destruct H1 as [H1 H3]. subst c.
        split; [exact H1 | apply Hx; reflexivity]. }
    intros H. apply (G ([], false)).
    destruct (fold_left _ members ([], false)) as [maskedObj objChanged].
    exact H.
Qed.


End JsonKeys.


(** ** Matching along the input *)

Section Greedy.

(** The state [x] after the characters [s], with [rest] still to read. *)
Definition advance (x : MState) (s rest : jsstring) : MState :=
  mkMState (rev s ++ ms_before x) rest (ms_caps x).

Lemma advance_nil x : advance x [] (ms_rest x) = x.
Proof. destruct x. reflexivity. Qed.

Lemma advance_cons x c s rest :
  advance (mkMState (c :: ms_before x) (s ++ rest) (ms_caps x)) s rest
  = advance x (c :: s) rest.
Proof. unfold advance. simpl. rewrite <- app_assoc. reflexivity. Qed.

Lemma advance_advance x s1 s2 rest :
  advance (advance x s1 (s2 ++ rest)) s2 rest = advance x (s1 ++ s2) rest.
Proof. unfold advance. simpl. rewrite rev_app_distr, app_assoc. reflexivity. Qed.

Lemma clearCaps_nil x : clearCaps [] x = x.
Proof.
  destruct x as [b r caps]. unfold clearCaps. simpl. f_equal.
  induction caps as [|p caps IH]; simpl; [reflexivity | now rewrite IH].
Qed.

(** An expression for one character. *)
Definition oneChar (r : Regex) : bool :=
  match r with
  | Lit _ | Class _ _ | Dot => true
  | _ => false
  end.

Lemma oneChar_groups r : oneChar r = true -> groups r = [].
Proof. destruct r; try discriminate; reflexivity. Qed.

Lemma rmatch_oneChar ic ml r x k :
  oneChar r = true ->
  rmatch ic ml r x k
  = match ms_rest x with
    | c :: rest =>
        if charOk ic r c then k (mkMState (c :: ms_before x) rest (ms_caps x))
        else None
    | [] => None
    end.
Proof. destruct r; try discriminate; reflexivity. Qed.

(** Where a run of characters of [r] stops: at the end of the input or
    before a character that [r] refuses. *)
Definition stops (ic : bool) (r : Regex) (rest : jsstring) : bool :=
  match rest with
  | [] => true
  | c :: _ => negb (charOk ic r c)
  end.

(** A greedy quantifier over a one-character expression takes a whole
    run when the continuation accepts what follows the run. *)
Lemma optionalRounds_run ic ml r k z : oneChar r = true ->
  forall run x rest fuel,
    ms_rest x = run ++ rest ->
    forallb (charOk ic r) run = true ->
    stops ic r rest = true ->
    length (ms_rest x) <= fuel ->
    k (advance x run rest) = Some z ->
    optionalRounds (rmatch ic ml r) [] k fuel None x = Some z.
Proof.
  intros O. induction run as [|c run IH]; intros x rest fuel E A S F K.
  - simpl in E. rewrite <- E, advance_nil in K.
    destruct fuel as [|fuel]; simpl; [exact K|].
    rewrite clearCaps_nil, rmatch_oneChar by exact O. rewrite E.
    destruct rest as [|d rest]; [exact K|].
    simpl in S. apply negb_true_iff in S. rewrite S. exact K.
  - simpl in E, A. apply andb_true_iff in A. destruct A as [A1 A2].
    destruct fuel as [|fuel]; [rewrite E in F; simpl in F; lia|].
    simpl. rewrite clearCaps_nil, rmatch_oneChar by exact O. rewrite E, A1.
    cbn [ms_rest].
    replace (Nat.eqb (length (run ++ rest)) (length (c :: run ++ rest))) with false
      by (symmetry; apply Nat.eqb_neq; simpl; lia).
    rewrite (IH (mkMState (c :: ms_before x) (run ++ rest) (ms_caps x)) rest fuel);
      try reflexivity; try assumption.
    + rewrite E in F. simpl in *. lia.
    + rewrite advance_cons. exact K.
Qed.

Lemma mandatoryRounds_run ic ml r k z : oneChar r = true ->
  forall n run x rest,
    ms_rest x = run ++ rest ->
    forallb (charOk ic r) run = true ->
    stops ic r rest = true ->
    n <= length run ->
    k (advance x run rest) = Some z ->
    mandatoryRounds (rmatch ic ml r) [] k None n x = Some z.
Proof.
  intros O. induction n as [|n IH]; intros run x rest E A S L K.
  - simpl. eapply optionalRounds_run; eauto.
  - destruct run as [|c run]; [simpl in L; lia|].
    simpl in E, A. apply andb_true_iff in A. destruct A as [A1 A2].
    simpl. rewrite clearCaps_nil, rmatch_oneChar by exact O. rewrite E, A1.
    apply (IH run (mkMState (c :: ms_before x) (run ++ rest) (ms_caps x)) rest);
      try reflexivity; try assumption.
    + simpl in L. lia.
    + rewrite advance_cons. exact K.
Qed.

(** [r{n,}] for a one-character [r]. *)
Lemma rmatch_run ic ml r n k z run x rest :
  oneChar r = true ->
  ms_rest x = run ++ rest ->
  forallb (charOk ic r) run = true ->
  stops ic r rest = true ->
  n <= length run ->
  k (advance x run rest) = Some z ->
  rmatch ic ml (Repeat n None r) x k = Some z.
Proof.
  intros O E A S L K. cbn [rmatch]. rewrite (oneChar_groups r O).
  eapply mandatoryRounds_run; eauto.
Qed.

(** A sequence is matched part after part. *)
Lemma rmatch_seqs ic ml r rs x k :
  rmatch ic ml (seqs (r :: rs)) x k
  = rmatch ic ml r x (fun y => rmatch ic ml (seqs rs) y k).
Proof. destruct rs; reflexivity. Qed.

(** The text [t] read as the literal [s]: the same characters, up to case
    under the flag [i]. *)
Fixpoint sameText (ic : bool) (s t : jsstring) : bool :=
  match s, t with
  | [], [] => true
  | a :: s', b :: t' => N.eqb (canon ic a) (canon ic b) && sameText ic s' t'
  | _, _ => false
  end.

Lemma sameText_refl ic s : sameText ic s s = true.
Proof. induction s as [|c s IH]; simpl; [reflexivity|]. now rewrite N.eqb_refl. Qed.

Lemma rmatch_lit ic ml k : forall s t x rest,
  ms_rest x = t ++ rest ->
  sameText ic s t = true ->
  rmatch ic ml (lit s) x k = k (advance x t rest).
Proof.
  unfold lit. induction s as [|a s IH]; intros [|b t] x rest E T; try discriminate.
  - simpl in E. simpl. rewrite <- E, advance_nil. reflexivity.
  - simpl in T. apply andb_true_iff in T. destruct T as [T1 T2].
    cbn [map]. rewrite rmatch_seqs. cbn [rmatch]. simpl in E. rewrite E.
    cbn [charOk]. rewrite T1.
    rewrite (IH t (mkMState (b :: ms_before x) (t ++ rest) (ms_caps x)) rest);
      [|reflexivity | exact T2].
    rewrite advance_cons. reflexivity.
Qed.

(** A literal whose first character is not the next one fails. *)
Lemma rmatch_lit_fails ic ml k a s x c rest :
  ms_rest x = c :: rest ->
  N.eqb (canon ic a) (canon ic c) = false ->
  rmatch ic ml (lit (a :: s)) x k = None.
Proof.
  intros E D. unfold lit. cbn [map]. rewrite rmatch_seqs. cbn [rmatch].
  rewrite E. cbn [charOk]. rewrite D. reflexivity.
Qed.

(** *** Character classes under the flag [i] *)

Lemma lowerChar_alpha c : lowerChar c <> c -> isAlpha (lowerChar c) = true.
Proof.
  unfold lowerChar. destruct (isUpper c) eqn:U; [|congruence]. intros _.
  unfold isUpper, between in U. apply andb_true_iff in U. destruct U as [U1 U2].
  apply N.leb_le in U1, U2. unfold isAlpha, isLower, between.
  replace (97 <=? c + 32)%N with true by (symmetry; apply N.leb_le; lia).
  replace (c + 32 <=? 122)%N with true by (symmetry; apply N.leb_le; lia).
  apply orb_true_r.
Qed.

Lemma upperChar_alpha c : upperChar c <> c -> isAlpha (upperChar c) = true.
Proof.
  unfold upperChar. destruct (isLower c) eqn:U; [|congruence]. intros _.
  unfold isLower, between in U. apply andb_true_iff in U. destruct U as [U1 U2].
  apply N.leb_le in U1, U2. unfold isAlpha, isUpper, between.
  replace (65 <=? c - 32)%N with true by (symmetry; apply N.leb_le; lia).
  replace (c - 32 <=? 90)%N with true by (symmetry; apply N.leb_le; lia).
  reflexivity.
Qed.

(** A class without letters is the same class under the flag [i]. *)
Lemma classHas_no_letter ic p c :
  (forall d, isAlpha d = true -> p d = false) ->
  classHas ic p c = p c.
Proof.
  intros H. unfold classHas. destruct ic; [|reflexivity].
  destruct (N.eq_dec (lowerChar c) c) as [L|L];
    [rewrite L | rewrite (H _ (lowerChar_alpha L))];
    (destruct (N.eq_dec (upperChar c) c) as [U|U];
     [rewrite U | rewrite (H _ (upperChar_alpha U))]);
    destruct (p c); reflexivity.
Qed.

(** A character that is no letter is in a class under the flag [i] when
    it is in the class. *)
Lemma classHas_not_letter ic p c : isAlpha c = false -> classHas ic p c = p c.
Proof.
  intros H. unfold classHas. destruct ic; [|reflexivity].
  assert (L : lowerChar c = c).
  { unfold lowerChar. unfold isAlpha in H. apply orb_false_iff in H.
    destruct H as [H _]. rewrite H. reflexivity. }
  assert (U : upperChar c = c).
  { unfold upperChar. unfold isAlpha in H. apply orb_false_iff in H.
    destruct H as [_ H]. rewrite H. reflexivity. }
  rewrite L, U. destruct (p c); reflexivity.
Qed.

End Greedy.

(** ** The equations of the matcher *)

Section MatcherEquations.

Lemma rmatch_Seq ic ml r1 r2 x k :
  rmatch ic ml (Seq r1 r2) x k = rmatch ic ml r1 x (fun y => rmatch ic ml r2 y k).
Proof. reflexivity. Qed.

Lemma rmatch_Group ic ml i r x k :
  rmatch ic ml (Group i r) x k
  = rmatch ic ml r x (fun y => k (setCap i (between_states x y) y)).
Proof. reflexivity. Qed.

Lemma rmatch_Alt ic ml r1 r2 x k :
  rmatch ic ml (Alt r1 r2) x k
  = match rmatch ic ml r1 x k with
    | Some z => Some z
    | None => rmatch ic ml r2 x k
    end.
Proof. reflexivity. Qed.

Lemma rmatch_WordB ic ml x k :
  rmatch ic ml WordB x k = if atWordBoundary x then k x else None.
Proof. reflexivity. Qed.

Lemma between_states_advance x s rest : between_states x (advance x s rest) = s.
Proof.
  unfold between_states, consumed, advance. cbn [ms_before].
  rewrite length_app, length_rev.
  replace (length s + length (ms_before x) - length (ms_before x)) with (length (rev s))
    by (rewrite length_rev; lia).
  rewrite firstn_app, Nat.sub_diag, firstn_all. simpl. rewrite app_nil_r.
  apply rev_involutive.
Qed.

Lemma scan_skip re : forall rest before,
  scan re before rest (length rest) = scan re (rev rest ++ before) [] 0.
Proof.
  induction rest as [|c rest IH]; intros before; [reflexivity|].
  cbn [length scan]. rewrite IH. cbn [rev]. rewrite <- app_assoc. reflexivity.
Qed.

(** A match of the whole of a text that is not empty is its only piece,
    when the expression matches nothing at the end of the text. *)
Lemma pieces_whole re s m :
  re_global re = true -> s <> [] ->
  execAt re [] s = Some m -> m_str m = s ->
  execAt re (rev s) [] = None ->
  pieces re s = [Hit m].
Proof.
  intros G N E M Z. unfold pieces. rewrite G.
  destruct s as [|c s]; [congruence|]. cbn [scan]. rewrite E, M. cbn [length].
  rewrite scan_skip. cbn [scan].
  change (rev s ++ [c]) with (rev (c :: s)). rewrite Z. reflexivity.
Qed.

End MatcherEquations.

(** ** Key and value in text mode *)

Section KeyValue.
Import Scrubber.

(** A character of a key for [maskKeyValuePairs]: [[\w.-]]. *)
Definition keyChar (c : char) : bool := isWord c || Config.oneOf ".-" c.

Ltac ranges :=
  unfold isSpace, isWord, isAlpha, isUpper, isLower, isDigit, between in *;
  repeat match goal with
         | H : _ || _ = true |- _ => apply orb_true_iff in H; destruct H as [H|H]
         | H : _ && _ = true |- _ => apply andb_true_iff in H; destruct H as [? H]
         | H : N.eqb _ _ = true |- _ => apply N.eqb_eq in H
         | H : N.leb _ _ = true |- _ => apply N.leb_le in H
         | H : false = true |- _ => discriminate H
         end;
  repeat match goal with
         | |- _ || _ = false => apply orb_false_iff; split
         | |- _ && _ = false =>
             apply not_true_is_false; intros X;
             apply andb_true_iff in X; destruct X as [X1 X2];
             apply N.leb_le in X1, X2; lia
         | |- N.eqb _ _ = false => apply N.eqb_neq; lia
         | |- N.leb _ _ = false => apply N.leb_gt; lia
         | |- false = false => reflexivity
         end.

Lemma space_not_alpha c : isSpace c = true -> isAlpha c = false.
Proof. intros H. ranges. Qed.

Lemma keyChar_eq c : keyChar c = isWord c || (N.eqb c 46 || (N.eqb c 45 || false)).
Proof. reflexivity. Qed.

Lemma space_not_key c : isSpace c = true -> keyChar c = false.
Proof. intros H. rewrite keyChar_eq. ranges. Qed.

Lemma alpha_not_space d : isAlpha d = true -> isSpace d = false.
Proof.
  intros H. destruct (isSpace d) eqn:S; [|reflexivity].
  rewrite (space_not_alpha d S) in H. discriminate.
Qed.


Definition valueChar (c : char) : bool := negb (isSpace c).

(** [[^\s\n\r]] *)
Definition notBlank : char -> bool :=
  fun c => isSpace c || N.eqb c 10 || N.eqb c 13.

Lemma notBlank_eq c : notBlank c = isSpace c.
Proof.
  unfold notBlank. destruct (isSpace c) eqn:S; [reflexivity|]. simpl.
  destruct (N.eqb c 10) eqn:A.
  - apply N.eqb_eq in A. subst c. discriminate S.
  - simpl. destruct (N.eqb c 13) eqn:B; [|reflexivity].
    apply N.eqb_eq in B. subst c. discriminate S.
Qed.

Lemma charOk_key_run k :
  forallb keyChar k = true ->
  forallb (charOk true (Class false keyChar)) k = true.
Proof.
  intros H. rewrite forallb_forall in *. intros c Hc. specialize (H c Hc).
  cbn [charOk]. unfold classHas. rewrite H. reflexivity.
Qed.

Lemma charOk_space_run ws :
  forallb isSpace ws = true ->
  forallb (charOk true (Class false isSpace)) ws = true.
Proof.
  intros H. rewrite forallb_forall in *. intros c Hc. specialize (H c Hc).
  cbn [charOk]. unfold classHas. rewrite H. reflexivity.
Qed.

Lemma charOk_value_run v :
  forallb valueChar v = true ->
  forallb (charOk true (Class true notBlank)) v = true.
Proof.
  intros H. rewrite forallb_forall in *. intros c Hc. specialize (H c Hc).
  cbn [charOk]. rewrite classHas_no_letter.
  - rewrite notBlank_eq. unfold valueChar in H. destruct (isSpace c); [discriminate H|].
    reflexivity.
  - intros d Hd. rewrite notBlank_eq. apply alpha_not_space. exact Hd.
Qed.

(** What may follow a key: blanks and then a separator. *)
Definition separatorChar (c : char) : bool := N.eqb c 61 || N.eqb c 58.

Lemma separator_not_key c : separatorChar c = true ->
  charOk true (Class false keyChar) c = false.
Proof.
  intros H. unfold separatorChar in H. apply orb_true_iff in H.
  destruct H as [H|H]; apply N.eqb_eq in H; subst c; reflexivity.
Qed.

Lemma separator_not_space c : separatorChar c = true ->
  charOk true (Class false isSpace) c = false.
Proof.
  intros H. unfold separatorChar in H. apply orb_true_iff in H.
  destruct H as [H|H]; apply N.eqb_eq in H; subst c; reflexivity.
Qed.

Lemma space_stops_key c : isSpace c = true ->
  charOk true (Class false keyChar) c = false.
Proof.
  intros H. cbn [charOk]. rewrite classHas_not_letter by (apply space_not_alpha; exact H).
  rewrite (space_not_key c H). reflexivity.
Qed.

Lemma value_stops_space c : valueChar c = true ->
  charOk true (Class false isSpace) c = false.
Proof.
  intros H. cbn [charOk]. rewrite classHas_no_letter by apply alpha_not_space.
  unfold valueChar in H. destruct (isSpace c); [discriminate H | reflexivity].
Qed.

End KeyValue.

Section KeyValueLine.
Import Scrubber.

Lemma rmatch_Alt_first ic ml r1 r2 x k z :
  rmatch ic ml r1 x k = Some z -> rmatch ic ml (Alt r1 r2) x k = Some z.
Proof. intros H. rewrite rmatch_Alt, H. reflexivity. Qed.

Lemma rmatch_Alt_second ic ml r1 r2 x k :
  rmatch ic ml r1 x k = None ->
  rmatch ic ml (Alt r1 r2) x k = rmatch ic ml r2 x k.
Proof. intros H. rewrite rmatch_Alt, H. reflexivity. Qed.

Lemma rmatch_lit_then ic ml k s t x rest z :
  ms_rest x = t ++ rest -> sameText ic s t = true ->
  k (advance x t rest) = Some z ->
  rmatch ic ml (lit s) x k = Some z.
Proof. intros E T K. rewrite (rmatch_lit ic ml k s t x rest E T). exact K. Qed.

Lemma stops_head ic r c rest :
  charOk ic r c = false -> stops ic r (c :: rest) = true.
Proof. intros H. simpl. rewrite H. reflexivity. Qed.

Variable this : Scrubber.

(** The expression of [maskKeyValuePairs] at the end of the text. *)
Lemma kvRegex_at_end before : execAt (kvRegex this) before [] = None.
Proof.
  unfold execAt, kvRegex. cbn [re_body re_ignoreCase re_multiline].
  rewrite rmatch_seqs, rmatch_Group, rmatch_Seq, rmatch_WordB.
  destruct (atWordBoundary _); reflexivity.
Qed.

Lemma kvRegex_line (c0 s : char) (k' ws1 ws2 v : jsstring) :
  kvSeparators this = Config.KV_SEPARATORS ->
  isWord c0 = true -> forallb keyChar (c0 :: k') = true ->
  forallb isSpace ws1 = true -> separatorChar s = true ->
  forallb isSpace ws2 = true ->
  v <> [] -> forallb valueChar v = true ->
  let key := c0 :: k' in
  let line := key ++ ws1 ++ [s] ++ ws2 ++ v in
  execAt (kvRegex this) [] line
  = Some (mkMatch 0 line [(3, v); (2, ws1 ++ [s] ++ ws2); (1, key)]).
Proof.
  intros Seps W0 Hk H1 Hs H2 Nv Hv key line.
  assert (R : exists y,
    rmatch true false (re_body (kvRegex this)) (mkMState [] line []) Some = Some y
    /\ ms_caps y = [(3, v); (2, ws1 ++ [s] ++ ws2); (1, key)]
    /\ length (ms_before y) = length line).
  { eexists. split; [|split].
    - unfold kvRegex. rewrite Seps. cbn [re_body].
      rewrite rmatch_seqs, rmatch_Group, rmatch_Seq, rmatch_WordB.
      replace (atWordBoundary (mkMState [] line [])) with true
        by (unfold atWordBoundary; simpl; rewrite W0; reflexivity).
      unfold Plus.
      eapply (@rmatch_run true false _ 1 _ _ key _ (ws1 ++ [s] ++ ws2 ++ v));
        [reflexivity | reflexivity | apply charOk_key_run; exact Hk | | simpl; lia |].
      { destruct ws1 as [|w ws1]; apply stops_head.
        - apply separator_not_key. exact Hs.
        - apply space_stops_key. simpl in H1. apply andb_true_iff in H1. tauto. }
      cbv beta. rewrite between_states_advance.
      rewrite rmatch_seqs, rmatch_Group, rmatch_seqs. unfold Star.
      eapply (@rmatch_run true false _ 0 _ _ ws1 _ ([s] ++ ws2 ++ v));
        [reflexivity | reflexivity | apply charOk_space_run; exact H1
         | apply stops_head; apply separator_not_space; exact Hs | lia |].
      cbv beta. rewrite rmatch_seqs.
      change (alts (map lit Config.KV_SEPARATORS))
        with (Alt (lit [61%N]) (Alt (lit [58%N]) (Alt (lit [61; 62]%N) (lit [45; 62]%N)))).
      assert (K : forall x0 : MState,
        ms_rest x0 = [s] ++ ws2 ++ v ->
        forall k z, k (advance x0 [s] (ws2 ++ v)) = Some z ->
        rmatch true false
          (Alt (lit [61%N]) (Alt (lit [58%N]) (Alt (lit [61; 62]%N) (lit [45; 62]%N))))
          x0 k = Some z).
      { intros x0 E k z Kz. unfold separatorChar in Hs. apply orb_true_iff in Hs.
        destruct Hs as [Hs|Hs]; apply N.eqb_eq in Hs; subst s.
        - apply rmatch_Alt_first.
          eapply rmatch_lit_then; [exact E | reflexivity | exact Kz].
        - rewrite rmatch_Alt_second
            by (eapply rmatch_lit_fails; [exact E | reflexivity]).
          apply rmatch_Alt_first.
          eapply rmatch_lit_then; [exact E | reflexivity | exact Kz]. }
      apply K; [reflexivity|]. clear K.
      eapply (@rmatch_run true false _ 0 _ _ ws2 _ v);
        [reflexivity | reflexivity | apply charOk_space_run; exact H2 | | lia |].
      { destruct v as [|c v]; [congruence|]. apply stops_head.
        apply value_stops_space. simpl in Hv. apply andb_true_iff in Hv. tauto. }
      cbv beta. rewrite (advance_advance _ ws1 [s] (ws2 ++ v)).
      rewrite (advance_advance _ (ws1 ++ [s]) ws2 v), between_states_advance.
      cbn [seqs]. rewrite rmatch_Group.
      eapply (@rmatch_run true false _ 1 _ _ v _ []);
        [reflexivity | cbn; rewrite app_nil_r; reflexivity
         | apply charOk_value_run; exact Hv | reflexivity
         | destruct v; [congruence | simpl; lia] |].
      cbv beta. rewrite between_states_advance. reflexivity.
    - cbn. rewrite <- app_assoc. reflexivity.
    - cbn. unfold line, key. rewrite !length_app, !length_rev. cbn.
      rewrite !length_app. cbn. lia. }
  destruct R as [y [R [C L]]].
  unfold execAt.
  change (re_ignoreCase (kvRegex this)) with true.
  change (re_multiline (kvRegex this)) with false.
  rewrite R, C.
  unfold consumed. cbn [ms_before length]. rewrite Nat.sub_0_r, L, firstn_all.
  reflexivity.
Qed.

(** X5. A line that is a sensitive key, a separator [=] or [:] with blanks
    around it or none, and a value without blanks comes out of
    [maskKeyValuePairs] with the mask for the whole value, whatever the
    value is, and is reported changed. The key is a word character followed
    by word characters, dots and hyphens, in any case. *)
Theorem maskKeyValuePairs_masks_value (c0 s : char) (k' ws1 ws2 v : jsstring) :
  kvSeparators this = Config.KV_SEPARATORS ->
  isWord c0 = true -> forallb keyChar k' = true ->
  forallb isSpace ws1 = true -> separatorChar s = true ->
  forallb isSpace ws2 = true ->
  v <> [] -> forallb valueChar v = true ->
  hasKey this (toLowerCase (c0 :: k')) = true ->
  maskKeyValuePairs this (VString ((c0 :: k') ++ ws1 ++ [s] ++ ws2 ++ v))
  = Ok ((c0 :: k') ++ ws1 ++ [s] ++ ws2 ++ defaultMask this, true).
Proof.
  intros Seps W0 Hk H1 Hs H2 Nv Hv Key.
  assert (Hk' : forallb keyChar (c0 :: k') = true).
  { simpl. rewrite Hk, andb_true_r. unfold keyChar. rewrite W0. reflexivity. }
  pose proof (@kvRegex_line c0 s k' ws1 ws2 v Seps W0 Hk' H1 Hs H2 Nv Hv) as E.
  cbv zeta in E.
  unfold maskKeyValuePairs.
  assert (NE : (c0 :: k') ++ ws1 ++ [s] ++ ws2 ++ v <> []) by discriminate.
  rewrite (@pieces_whole (kvRegex this) _ _ eq_refl NE E eq_refl (kvRegex_at_end _)).
  cbn [hits flat_map app existsb rebuildPure].
  unfold kvReplacer, capStr, cap. cbn [m_caps getCap Nat.eqb m_str].
  rewrite Key. cbn [orb]. rewrite app_nil_r, <- !app_assoc. reflexivity.
Qed.

End KeyValueLine.

Lemma maskKeyValuePairs_masks_value_witness :
  Scrubber.maskKeyValuePairs defaultScrubber (VString (js "Password = hunter2"))
  = Ok (js "Password = ***", true).
Proof.
  apply (@maskKeyValuePairs_masks_value defaultScrubber 80%N 61%N (js "assword")
           (js " ") (js " ") (js "hunter2"));
    try (vm_compute; reflexivity).
  discriminate.
Defined.

(** ** The abort error *)

Section AbortError.
Import Abort.

Lemma nonBlank_msgCancelled : nonBlank msgCancelled = true.
Proof. reflexivity. Qed.

Lemma abortMessage_nonBlank r : nonBlank (abortMessage r) = true.
Proof.
  destruct r as [s | [m|] |]; simpl; try reflexivity.
  - destruct (nonBlank s) eqn:E; [exact E | reflexivity].
  - destruct (nonBlank m) eqn:E; [exact E | reflexivity].
Qed.

(** X6. [throwIfAborted] throws exactly when there is a signal and it has
    aborted; what it throws is an abort error for [isAbortError], and its
    message is never blank: the reason of the signal when that is a string
    or has a message with something in it, the default text otherwise. *)
Theorem throwIfAborted_spec (sg : option Signal) :
  (signalAborted sg = false -> throwIfAborted sg = Ok tt)
  /\ (signalAborted sg = true ->
      exists e, throwIfAborted sg = Throw e
                /\ isAbortError e = true
                /\ nonBlank (err_message e) = true
                /\ (forall s, option_map reason sg = Some (ReasonString s) ->
                    nonBlank s = true -> err_message e = s)).
Proof.
  destruct sg as [[a r]|]; simpl; split; intros H; try discriminate; subst;
    try reflexivity.
  eexists. split; [reflexivity|]. split; [reflexivity|].
  split; [apply abortMessage_nonBlank|].
  intros s E N. inversion E; subst. simpl. rewrite N. reflexivity.
Qed.

End AbortError.

(** ** Validation *)

Section Validation.
Import Processor.

(** X7. [validateFile] accepts a path exactly when it can be accessed and
    read, [stat] answers, it is a regular file, its size is at most
    [maxFileSize] (a file of exactly that size passes), and it is not taken
    for binary while [skipBinaryFiles] is on; and then it reports the size. *)
Theorem validateFile_valid_iff (options : Config.Options) (f : FileView) (n : N) :
  validateFile options f = Valid n
  <-> accessError f = None /\ statError f = None /\ isFile f = true
      /\ (size f <= Config.maxFileSize options)%N
      /\ (Config.skipBinaryFiles options = true -> isBinaryFile f = false)
      /\ n = size f.
Proof.
  unfold validateFile.
  destruct (accessError f); [split; [discriminate | intros [H _]; discriminate]|].
  destruct (statError f); [split; [discriminate | intros [_ [H _]]; discriminate]|].
  destruct (isFile f); simpl;
    [|split; [discriminate | intros [_ [_ [H _]]]; discriminate]].
  destruct (Config.maxFileSize options <? size f)%N eqn:L.
  - apply N.ltb_lt in L. split; [discriminate|]. intros [_ [_ [_ [H _]]]]. lia.
  - apply N.ltb_ge in L.
    destruct (Config.skipBinaryFiles options); simpl.
    + destruct (isBinaryFile f).
      * split; [discriminate|]. intros [_ [_ [_ [_ [H _]]]]].
        specialize (H eq_refl). discriminate.
      * split.
        -- intros H. inversion H. repeat split; auto.
        -- intros [_ [_ [_ [_ [_ H]]]]]. subst. reflexivity.
    + split.
      * intros H. inversion H. repeat split; auto. discriminate.
      * intros [_ [_ [_ [_ [_ H]]]]]. subst. reflexivity.
Qed.

End Validation.

(** ** One file: the start and the end of a run *)

Section RunProperties.
Import Abort Scrubber Processor.
Context {RT : Runtime}.
Variable call : Call.

(** *** A run whose signal has aborted before it starts *)

Lemma returned_run events : forall run r,
  phase run = Returned r ->
  phase (fold_left (step call) events run) = Returned r
  /\ fsLog (fold_left (step call) events run) = fsLog run.
Proof.
  induction events as [|ev events IH]; intros run r H; simpl; [auto|].
  destruct (returned_step call run ev H) as [H1 H2].
  destruct (IH _ _ H1) as [H3 H4]. split; congruence.
Qed.

(** X8. A run started on an aborted signal returns the cancelled result at
    once, whatever happens afterwards: no validation, no output path, no
    operation on the file system. *)
Theorem processFile_aborted_at_start (sg : option Signal)
    (pausedNow : option bool) (st : Stats) (events : list Event) :
  signalAborted sg = true ->
  let run := processFile call sg pausedNow st events in
  phase run
  = Returned (mkResult (c_inputPath call) None false true
                (Some msgCancelledShort) None 0)
  /\ fsLog run = [] /\ written run = [].
Proof.
  intros A. cbv zeta. unfold processFile.
  assert (S : start call sg pausedNow st
              = mkRun (Returned (mkResult (c_inputPath call) None false true
                                   (Some msgCancelledShort) None 0))
                  sg pausedNow st None [] false [] []).
  { unfold start. destruct sg as [[a r]|]; simpl in A; [|discriminate]. subst a.
    simpl. unfold catchBlock. simpl. reflexivity. }
  rewrite S.
  match goal with |- context [fold_left _ _ ?r0] => set (run0 := r0) end.
  destruct (@returned_run events run0 _ eq_refl) as [H1 H2].
  split; [exact H1|]. split; [exact H2|].
  clear H1 H2. assert (W : written run0 = []) by reflexivity.
  assert (P : exists r, phase run0 = Returned r) by (eexists; reflexivity).
  clearbody run0. clear S. revert run0 W P.
  induction events as [|ev events IH]; intros run0 W [r P]; simpl; [exact W|].
  apply IH.
  - destruct ev; simpl; rewrite ?P; auto.
    + destruct (signal run0); simpl; rewrite ?P; auto.
    + destruct (paused run0); simpl; auto.
    + destruct (paused run0) as [[|]|]; simpl; rewrite ?P; auto.
  - exists r. apply (returned_step call run0 ev P).
Qed.

(** *** The output file appears by a rename, at the end of a run that
    succeeds *)

Definition isRename (op : FsOp) : bool :=
  match op with
  | OpRename _ _ => true
  | _ => false
  end.

Definition isCreate (op : FsOp) : bool :=
  match op with
  | OpCreate _ => true
  | _ => false
  end.

Definition renamed (log : list FsOp) : bool := existsb isRename log.
Definition created (log : list FsOp) : bool := existsb isCreate log.

#[local] Arguments renamed : simpl never.
#[local] Arguments created : simpl never.

(** A run that has not returned: nothing was renamed, and the temporary
    file is in the log exactly when the run has created it. *)
Definition Live (run : Run) : Prop :=
  renamed (fsLog run) = false
  /\ created (fsLog run) = tempFileCreated run
  /\ (tempFileCreated run = true -> In (OpCreate (tempPath run)) (fsLog run)).

(** How a run has left the file system when it returns [r]. *)
Definition leaves (run : Run) (r : ProcessingResult) : Prop :=
  if success r
  then exists pre out,
         outputPath r = Some out
         /\ fsLog run = pre ++ [OpRename (tempPath run) out]
         /\ renamed pre = false
         /\ In (OpCreate (tempPath run)) pre
  else renamed (fsLog run) = false
       /\ (created (fsLog run) = true -> tempExists (host call) = true ->
           exists pre, fsLog run = pre ++ [OpUnlink (tempPath run)]).

Definition Tidy (run : Run) : Prop :=
  match phase run with
  | Validating => fsLog run = [] /\ tempFileCreated run = false
  | Returned r => leaves run r
  | _ => Live run /\ tempFileCreated run = true
         /\ exists out, r_outputPath run = Some out
  end.

Lemma renamed_app l1 l2 : renamed (l1 ++ l2) = renamed l1 || renamed l2.
Proof. apply existsb_app. Qed.

Lemma created_app l1 l2 : created (l1 ++ l2) = created l1 || created l2.
Proof. apply existsb_app. Qed.

Lemma catchBlock_tidy run e : Live run -> Tidy (catchBlock call run e).
Proof.
  intros [R [C I]]. unfold Tidy, catchBlock, leaves. cbn.
  destruct (tempFileCreated run && tempExists (host call)) eqn:T; cbn.
  - rewrite renamed_app, R. split; [reflexivity|]. intros _ _. eexists. reflexivity.
  - split; [exact R|]. intros Hc Hx. rewrite C in Hc. rewrite Hc, Hx in T. discriminate.
Qed.

Lemma Live_fresh run : fsLog run = [] -> tempFileCreated run = false -> Live run.
Proof.
  intros L T. unfold Live. rewrite L, T. repeat split. discriminate.
Qed.

Lemma afterValidation_tidy run f :
  fsLog run = [] -> tempFileCreated run = false ->
  Tidy (afterValidation call run f).
Proof.
  intros L T. unfold afterValidation.
  destruct (validateFile (options call) f); [|apply catchBlock_tidy, Live_fresh; assumption].
  destruct (dirExists (host call)) eqn:D.
  - destruct (negb _ && negb _).
    + apply catchBlock_tidy. apply Live_fresh; [exact L | reflexivity].
    + unfold Tidy, Live. cbn. rewrite L. cbn. repeat split; eauto.
  - destruct (mkdirError (host call)).
    + apply catchBlock_tidy. apply Live_fresh; [exact L | reflexivity].
    + destruct (negb _ && negb _).
      * apply catchBlock_tidy. unfold Live. cbn. rewrite L. cbn.
        repeat split. discriminate.
      * unfold Tidy, Live. cbn. rewrite L. cbn. repeat split; eauto.
Qed.

(** The phases between the creation of the temporary file and the
    return. *)
Definition working (run : Run) : Prop :=
  Live run /\ tempFileCreated run = true /\ exists out, r_outputPath run = Some out.

Lemma afterPause_tidy run line w : working run -> Tidy (afterPause call run line w).
Proof.
  intros [Lv [T O]]. unfold afterPause.
  destruct (throwIfAborted (signal run)); [|apply catchBlock_tidy; exact Lv].
  destruct (processLine (scrubber call) (r_stats run) (VString line)) as [pr st'].
  destruct w; cbn.
  - unfold Tidy. cbn. split; [exact Lv | split; assumption].
  - unfold Tidy. cbn. split; [exact Lv | split; assumption].
Qed.

Lemma onLine_tidy run line w : working run -> Tidy (onLine call run line w).
Proof.
  intros W. unfold onLine.
  destruct (paused run) as [[|]|]; try (apply afterPause_tidy; exact W).
  destruct (signalAborted (signal run)); [apply afterPause_tidy; exact W|].
  unfold Tidy. cbn. exact W.
Qed.

Lemma publish_tidy run : working run -> Tidy (publish call run).
Proof.
  intros [[R [C I]] [T [out O]]]. unfold publish. rewrite T, O.
  assert (F : Tidy (catchBlock call run (newError (js "Failed to save output file"))))
    by (apply catchBlock_tidy; repeat split; assumption).
  destruct (outputExists (host call)).
  - destruct (unlinkOutputError (host call)); [exact F|].
    destruct (renameError (host call)); [exact F|].
    unfold Tidy, leaves. cbn. exists (fsLog run ++ [OpUnlink out]), out.
    split; [first [reflexivity | exact O]|]. split; [reflexivity|]. split.
    + rewrite renamed_app, R. reflexivity.
    + apply in_or_app. left. apply I. exact T.
  - destruct (renameError (host call)); [exact F|].
    unfold Tidy, leaves. cbn. exists (fsLog run), out.
    split; [first [reflexivity | exact O]|]. split; [reflexivity|].
    split; [exact R | apply I; exact T].
Qed.

Lemma onDrainWait_tidy run ev :
  phase run = WaitingDrain -> working run -> Tidy (onDrainWait call run ev).
Proof.
  intros P W. unfold onDrainWait.
  destruct (waitForDrain_on None ev) as [|[u|e]].
  - unfold Tidy. rewrite P. exact W.
  - unfold Tidy. cbn. exact W.
  - apply catchBlock_tidy. apply W.
Qed.

Lemma withSignal_tidy run sg : Tidy run -> Tidy (withSignal run sg).
Proof. intros H. exact H. Qed.

Lemma withPaused_tidy run p : Tidy run -> Tidy (withPaused run p).
Proof. intros H. exact H. Qed.

Lemma Tidy_working run :
  Tidy run ->
  match phase run with
  | Validating | Returned _ => True
  | _ => working run
  end.
Proof. unfold Tidy, working. destruct (phase run); auto. Qed.

Lemma step_tidy run ev : Tidy run -> Tidy (step call run ev).
Proof.
  intros H. pose proof (Tidy_working run H) as W.
  destruct ev; cbn [step].
  - destruct (signal run) as [sg|]; [|exact H].
    destruct (phase run) eqn:P; cbn [phase withSignal]; rewrite ?P;
      try (apply withSignal_tidy; exact H).
    apply afterPause_tidy. exact W.
  - destruct (paused run); [apply withPaused_tidy|]; exact H.
  - destruct (paused run) as [[|]|]; try exact H.
    destruct (phase run) eqn:P; cbn [phase withPaused]; rewrite ?P;
      try (apply withPaused_tidy; exact H).
    apply afterPause_tidy. exact W.
  - destruct (phase run) eqn:P; try exact H.
    unfold Tidy in H. rewrite P in H. destruct H as [L T].
    apply afterValidation_tidy; assumption.
  - destruct (phase run) eqn:P; try exact H. apply onLine_tidy. exact W.
  - destruct (phase run) eqn:P; try exact H. unfold Tidy. cbn. exact W.
  - destruct (phase run) eqn:P; try exact H.
    + destruct src; try exact H. apply catchBlock_tidy. apply W.
    + destruct src; try exact H. apply onDrainWait_tidy; [exact P | exact W].
    + apply catchBlock_tidy. apply W.
  - destruct (phase run) eqn:P; try exact H.
    apply onDrainWait_tidy; [exact P | exact W].
  - destruct (phase run) eqn:P; try exact H. apply publish_tidy. exact W.
  - destruct (phase run) eqn:P; try exact H. apply catchBlock_tidy. apply W.
Qed.

Lemma start_tidy sg p st : Tidy (start call sg p st).
Proof.
  unfold start. destruct (throwIfAborted sg).
  - unfold Tidy. cbn. auto.
  - apply catchBlock_tidy. apply Live_fresh; reflexivity.
Qed.

Lemma processFile_tidy sg p st events : Tidy (processFile call sg p st events).
Proof.
  unfold processFile. generalize (start_tidy sg p st).
  generalize (start call sg p st). induction events as [|ev events IH];
    intros run H; simpl; [exact H|].
  apply IH. apply step_tidy. exact H.
Qed.


End RunProperties.

Lemma processFile_aborted_at_start_witness :
  let run := Processor.processFile (RT := literalNumbers) sampleCall abortedSignal
               None Scrubber.emptyStats
               [Processor.Validated textFile;
                Processor.Line (js "password=secret123") true;
                Processor.InputEnd; Processor.Finish] in
  Abort.signalAborted abortedSignal = true
  /\ Processor.phase run
     = Processor.Returned
         (Processor.mkResult (js "/logs/app.log") None false true
            (Some Abort.msgCancelledShort) None 0)
  /\ Processor.fsLog run = [] /\ Processor.written run = [].
Proof.
  intros run. split; [reflexivity|].
  apply (@processFile_aborted_at_start literalNumbers sampleCall abortedSignal).
  reflexivity.
Defined.

(** ** One file: the lines *)

Section Pipeline.
Import Abort Scrubber Processor.
Context {RT : Runtime}.
Variable call : Call.

(** *** What a run writes *)

(** The result of [processLine] does not depend on the statistics. *)
Lemma processLine_result_indep this st st' line :
  fst (processLine this st line) = fst (processLine this st' line).
Proof.
  unfold processLine. destruct (negb (enableMasking this)); [reflexivity|].
  destruct (maskLine this line); reflexivity.
Qed.

(** The chunk written for a line: the masked line and the line ending. *)
Definition chunkOf (line : jsstring) : jsstring :=
  textOf (masked (fst (processLine (scrubber call) emptyStats (VString line))))
  ++ lineEnding call.

(** A line as the run sees it: the line, and when [writer.write]
    returned false the [drain] event the run waits for. *)
Definition lineEvents (lw : jsstring * bool) : list Event :=
  if snd lw then [Line (fst lw) true] else [Line (fst lw) false; Drain].

Lemma processLines_cons this st x l :
  snd (processLines this st (x :: l))
  = snd (processLines this (snd (processLine this st x)) l).
Proof.
  change (x :: l) with ([x] ++ l). rewrite processLines_app. cbn [snd].
  unfold processLines at 2. simpl. destruct (processLine this st x). reflexivity.
Qed.

Lemma lines_run (lines : list (jsstring * bool)) : forall run,
  phase run = AwaitingLine ->
  signalAborted (signal run) = false ->
  paused run <> Some true ->
  let run' := fold_left (step call) (flat_map lineEvents lines) run in
  phase run' = AwaitingLine
  /\ written run' = written run ++ map (fun lw => chunkOf (fst lw)) lines
  /\ r_stats run'
     = snd (processLines (scrubber call) (r_stats run)
              (map (fun lw => VString (fst lw)) lines))
  /\ fsLog run' = fsLog run.
Proof.
  induction lines as [|[l w] lines IH]; intros run P A U; cbv zeta.
  - simpl. rewrite app_nil_r. auto.
  - cbn [flat_map]. rewrite fold_left_app.
    set (run1 := fold_left (step call) (lineEvents (l, w)) run).
    assert (H1 : phase run1 = AwaitingLine
                 /\ signal run1 = signal run /\ paused run1 = paused run
                 /\ written run1 = written run ++ [chunkOf l]
                 /\ r_stats run1
                    = snd (processLine (scrubber call) (r_stats run) (VString l))
                 /\ fsLog run1 = fsLog run).
    { unfold run1, lineEvents. cbn [snd fst].
      assert (T : throwIfAborted (signal run) = Ok tt).
      { destruct (signal run) as [[a r]|]; simpl in *; [subst a|]; reflexivity. }
      assert (O : onLine call run l w = afterPause call run l w).
      { unfold onLine. destruct (paused run) as [[|]|]; try reflexivity.
        exfalso. apply U. reflexivity. }
      unfold chunkOf.
      rewrite (processLine_result_indep (scrubber call) emptyStats (r_stats run)).
      destruct w; cbn [fold_left step]; rewrite P, O; unfold afterPause; rewrite T;
        destruct (processLine (scrubber call) (r_stats run) (VString l)) as [pr st'];
        cbn; repeat split; reflexivity. }
    destruct H1 as [P1 [S1 [U1 [W1 [R1 L1]]]]].
    destruct (IH run1 P1) as [P2 [W2 [R2 L2]]].
    + rewrite S1. exact A.
    + rewrite U1. exact U.
    + split; [exact P2|]. split; [|split].
      * rewrite W2, W1, <- app_assoc. reflexivity.
      * rewrite R2, R1. cbn [map fst]. rewrite processLines_cons. reflexivity.
      * congruence.
Qed.


End Pipeline.


(** ** The batch: its end *)

Section BatchEnd.
Import Abort Processor Batch.

(** *** The end of a batch *)

Lemma settled_idle (ts : list (jsstring * TaskState)) :
  forallb isDone ts = true ->
  length (filter isActive ts) = 0 /\ forall k, queuedFrom k ts = [].
Proof.
  induction ts as [|[p st] ts IH]; simpl; intros H; [auto|].
  apply andb_true_iff in H. destruct H as [H1 H2].
  destruct (IH H2) as [A Q]. unfold isDone in H1. simpl in H1.
  destruct st; try discriminate. simpl. split; [exact A | intros k; apply Q].
Qed.

(** X11. When [Promise.all] has resolved, the semaphore is as it was made:
    no slot is held and nobody waits, whatever the order of the events and
    whether files failed or the batch was cancelled. *)
Theorem processFiles_releases_slots (N : Z) (sg : option Signal)
    (paths : list jsstring) (events : list BatchEvent) :
  (1 <= N)%Z ->
  let b := processFiles N sg paths events in
  settled b = true ->
  current (sem b) = 0%Z /\ queue (sem b) = [] /\ max (sem b) = N.
Proof.
  intros HN b S.
  assert (I : Inv N paths b).
  { apply Inv_run. apply Inv_start. lia. }
  destruct (settled_idle (tasks b) S) as [A Q].
  split; [|split].
  - rewrite (inv_current I). unfold active. rewrite A. reflexivity.
  - pose proof (inv_queue I) as E. rewrite Q in E.
    destruct (queue (sem b)); [reflexivity | discriminate].
  - exact (inv_max I).
Qed.

(** *** A batch whose signal has aborted before it starts *)

Definition isOut (t : jsstring * TaskState) : bool :=
  match snd t with
  | TRejected | TDone => true
  | _ => false
  end.

(** The result of a file is the one the catch block of its task pushes
    for an abort error: cancelled, without an output path or statistics. *)
Definition cancelledOnly (r : ProcessingResult) : Prop :=
  r = cancelledResult (inputPath r).

(** Every task is rejected or done, and every result is the cancelled
    one. *)
Definition allCancelled (b : Batch) : Prop :=
  signalAborted (b_signal b) = true
  /\ forallb isOut (tasks b) = true
  /\ Forall cancelledOnly (results b)
  /\ sem b = newSemaphore (max (sem b)).

Lemma launch_aborted sg : signalAborted sg = true ->
  forall paths sem i,
    fst (launch sem sg i paths) = sem
    /\ forallb isOut (snd (launch sem sg i paths)) = true
    /\ map fst (snd (launch sem sg i paths)) = paths.
Proof.
  intros A. induction paths as [|p ps IH]; intros sem i; simpl; [auto|].
  unfold acquire. rewrite A.
  destruct (IH sem (S i)) as [H1 [H2 H3]].
  destruct (launch sem sg (S i) ps) as [sem2 ts]. simpl in *.
  subst. rewrite H2. auto.
Qed.

Lemma forallb_setTask (f : jsstring * TaskState -> bool) st :
  (forall p, f (p, st) = true) ->
  forall ts i, forallb f ts = true -> forallb f (setTask i st ts) = true.
Proof.
  intros F. induction ts as [|[p s] ts IH]; intros i H; [destruct i; exact H|].
  simpl in H. apply andb_true_iff in H. destruct H as [H1 H2].
  destruct i; simpl.
  - rewrite F, H2. reflexivity.
  - rewrite H1, (IH i H2). reflexivity.
Qed.

Lemma nth_error_forallb (A : Type) (f : A -> bool) l i x :
  forallb f l = true -> nth_error l i = Some x -> f x = true.
Proof.
  intros H E. rewrite forallb_forall in H. apply H. eapply nth_error_In. exact E.
Qed.

Lemma allCancelled_step b ev : allCancelled b -> allCancelled (batchStep b ev).
Proof.
  intros H. pose proof H as [A [T [R S]]]. destruct ev as [reason | i | i r]; simpl.
  - destruct (b_signal b) as [sg|] eqn:Sg; [|exact H].
    simpl in A. rewrite A. exact H.
  - destruct (nth_error (tasks b) i) as [[p st]|] eqn:E; [|exact H].
    pose proof (nth_error_forallb _ _ _ T E) as O. unfold isOut in O. simpl in O.
    destruct st; try discriminate; [|exact H].
    unfold allCancelled. simpl. split; [exact A|]. split; [|split; [|exact S]].
    + apply forallb_setTask; [reflexivity | exact T].
    + apply Forall_app. split; [exact R|]. constructor; [reflexivity | constructor].
  - destruct (nth_error (tasks b) i) as [[p st]|] eqn:E; [|exact H].
    pose proof (nth_error_forallb _ _ _ T E) as O. unfold isOut in O. simpl in O.
    destruct st; try discriminate; exact H.
Qed.

Lemma isOut_not_active ts :
  forallb isOut ts = true ->
  length (filter isActive ts) = 0 /\ length (filter isRunning ts) = 0.
Proof.
  induction ts as [|[p st] ts IH]; simpl; intros H; [auto|].
  apply andb_true_iff in H. destruct H as [H1 H2]. unfold isOut in H1. simpl in H1.
  destruct st; try discriminate; simpl; apply IH; exact H2.
Qed.

(** X12. A batch started on an aborted signal opens no file: every [acquire]
    rejects, no task ever holds a slot or is inside [processFile], and every
    result pushed is the cancelled one, with no output path. *)
Theorem processFiles_aborted_at_start (N : Z) (sg : option Signal)
    (paths : list jsstring) (events : list BatchEvent) :
  signalAborted sg = true ->
  let b := processFiles N sg paths events in
  active b = 0 /\ running b = 0
  /\ Forall cancelledOnly (results b)
  /\ sem b = newSemaphore N.
Proof.
  intros A b.
  assert (I : allCancelled b /\ max (sem b) = N).
  { subst b. unfold processFiles.
    assert (I0 : allCancelled (startBatch N sg paths)
                 /\ max (sem (startBatch N sg paths)) = N).
    { unfold startBatch.
      destruct (launch_aborted sg A paths (newSemaphore N) 0) as [H1 [H2 H3]].
      destruct (launch (newSemaphore N) sg 0 paths) as [s ts]. simpl in *. subst s.
      repeat split; auto. }
    revert I0. generalize (startBatch N sg paths).
    induction events as [|ev events IH]; intros b0 [H M]; simpl; [auto|].
    apply IH. split; [apply allCancelled_step; exact H|].
    pose proof H as [A0 [T0 [_ _]]].
    destruct ev as [reason | i | i r]; simpl.
    - destruct (b_signal b0) as [s0|] eqn:Sg; [|exact M].
      simpl in A0. rewrite A0. exact M.
    - destruct (nth_error (tasks b0) i) as [[p st]|] eqn:E; [|exact M].
      pose proof (nth_error_forallb _ _ _ T0 E) as O. unfold isOut in O. simpl in O.
      destruct st; try discriminate; exact M.
    - destruct (nth_error (tasks b0) i) as [[p st]|] eqn:E; [|exact M].
      pose proof (nth_error_forallb _ _ _ T0 E) as O. unfold isOut in O. simpl in O.
      destruct st; try discriminate; exact M. }
  destruct I as [[_ [T [R S]]] M].
  destruct (isOut_not_active _ T) as [H1 H2].
  repeat split; auto. rewrite S, M. reflexivity.
Qed.

End BatchEnd.

(** Two files, one slot: the second waits for the first. *)
Definition oneSlotRun : list Batch.BatchEvent :=
  [Batch.BContinue 0;
   Batch.BReturn 0 (Processor.mkResult (js "a.log") (Some (js "a.masked.log")) true
                      false None (Some Scrubber.emptyStats) 5);
   Batch.BContinue 1;
   Batch.BReturn 1 (Processor.mkResult (js "b.log") None false false
                      (Some (js "Path is not a file")) None 0)].

Lemma processFiles_releases_slots_witness :
  let b := Batch.processFiles 1 liveSignal [js "a.log"; js "b.log"] oneSlotRun in
  Batch.settled b = true
  /\ Batch.current (Batch.sem b) = 0%Z /\ Batch.queue (Batch.sem b) = []
  /\ Batch.max (Batch.sem b) = 1%Z.
Proof.
  intros b. assert (S : Batch.settled b = true) by (vm_compute; reflexivity).
  split; [exact S|].
  apply (@processFiles_releases_slots 1 liveSignal [js "a.log"; js "b.log"] oneSlotRun);
    [lia | exact S].
Defined.

Lemma processFiles_aborted_at_start_witness :
  let b := Batch.processFiles 2 abortedSignal [js "a.log"; js "b.log"]
             [Batch.BContinue 1; Batch.BContinue 0] in
  Batch.results b
  = [Batch.cancelledResult (js "b.log"); Batch.cancelledResult (js "a.log")]
  /\ Batch.active b = 0 /\ Batch.running b = 0
  /\ Forall cancelledOnly (Batch.results b)
  /\ Batch.sem b = Batch.newSemaphore 2.
Proof.
  intros b. split; [vm_compute; reflexivity|].
  apply (@processFiles_aborted_at_start 2 abortedSignal [js "a.log"; js "b.log"]).
  reflexivity.
Defined.

(** ** The cleanup of temporary files *)

Section TempFiles.
Import Processor Cleanup.

(** *** Decimal numerals *)

Lemma digitsOf_digits : forall fuel n acc,
  forallb isDigit acc = true -> forallb isDigit (digitsOf fuel n acc) = true.
Proof.
  induction fuel as [|fuel IH]; intros n acc H; cbn [digitsOf]; [exact H|].
  assert (D : isDigit (48 + n mod 10) = true).
  { unfold isDigit, between. apply andb_true_iff.
    pose proof (N.mod_upper_bound n 10 ltac:(discriminate)).
    split; apply N.leb_le; [apply N.le_add_r | lia]. }
  destruct (n <? 10)%N.
  - cbn [forallb]. rewrite D, H. reflexivity.
  - apply IH. cbn [forallb]. rewrite D, H. reflexivity.
Qed.

Lemma digitsOf_nonempty : forall fuel n acc,
  acc <> [] \/ fuel <> 0 -> digitsOf fuel n acc <> [].
Proof.
  induction fuel as [|fuel IH]; intros n acc H; simpl.
  - destruct H as [H|H]; [exact H | congruence].
  - destruct (n <? 10)%N; [discriminate|]. apply IH. left. discriminate.
Qed.

Lemma ofN_digits n : forallb isDigit (ofN n) = true /\ ofN n <> [].
Proof.
  unfold ofN. split.
  - apply digitsOf_digits. reflexivity.
  - apply digitsOf_nonempty. right. discriminate.
Qed.

(** *** The names the cleanup takes *)

Lemma scanFirst_finds re : forall pre before rest m,
  execAt re (rev pre ++ before) rest = Some m ->
  hits (scanFirst re before (pre ++ rest)) <> [].
Proof.
  induction pre as [|c pre IH]; intros before rest m E.
  - simpl in E. simpl. destruct rest as [|c rest]; simpl; rewrite E; discriminate.
  - cbn [app scanFirst].
    destruct (execAt re before (c :: pre ++ rest)); [simpl; discriminate|].
    simpl. apply (IH (c :: before) rest m).
    simpl in E. rewrite <- app_assoc in E. exact E.
Qed.

Lemma charOk_digit_run ds :
  forallb isDigit ds = true -> forallb (charOk false Config.digit) ds = true.
Proof.
  intros H. rewrite forallb_forall in *. intros c Hc. apply (H c Hc).
Qed.

Lemma tempPattern_matches before d1 d2 :
  forallb isDigit d1 = true -> d1 <> [] ->
  forallb isDigit d2 = true -> d2 <> [] ->
  exists m, execAt tempPattern before (js ".tmp." ++ d1 ++ js "." ++ d2) = Some m.
Proof.
  intros D1 N1 D2 N2.
  assert (R : exists y,
    rmatch false false (re_body tempPattern)
      (mkMState before (js ".tmp." ++ d1 ++ js "." ++ d2) []) Some = Some y).
  { eexists. unfold tempPattern. cbn [re_body].
    rewrite rmatch_seqs. unfold Config.str.
    eapply rmatch_lit_then; [reflexivity | apply sameText_refl |].
    rewrite rmatch_seqs. unfold Plus.
    eapply (@rmatch_run false false _ 1 _ _ d1 _ (js "." ++ d2));
      [reflexivity | reflexivity | apply charOk_digit_run; exact D1 | reflexivity
       | destruct d1; [congruence | simpl; lia] |].
    cbv beta. rewrite rmatch_seqs.
    eapply rmatch_lit_then; [reflexivity | apply sameText_refl |].
    rewrite rmatch_seqs.
    eapply (@rmatch_run false false _ 1 _ _ d2 _ []);
      [reflexivity | cbn; rewrite app_nil_r; reflexivity
       | apply charOk_digit_run; exact D2 | reflexivity
       | destruct d2; [congruence | simpl; lia] |].
    cbv beta. reflexivity. }
  destruct R as [y R]. unfold execAt.
  change (re_ignoreCase tempPattern) with false.
  change (re_multiline tempPattern) with false.
  rewrite R. eexists. reflexivity.
Qed.

(** The name of every temporary file of [processFile], the output path
    followed by [.tmp.], the process id, a dot and the time, is a name
    for the cleanup. *)
Lemma tempPattern_temp_name (name : jsstring) (pid now : N) :
  test tempPattern (name ++ js ".tmp." ++ ofN pid ++ js "." ++ ofN now) = true.
Proof.
  unfold test.
  destruct (ofN_digits pid) as [D1 N1]. destruct (ofN_digits now) as [D2 N2].
  destruct (@tempPattern_matches (rev name ++ []) (ofN pid) (ofN now) D1 N1 D2 N2)
    as [m E].
  pose proof (@scanFirst_finds tempPattern name [] _ m E) as F.
  destruct (hits _); [congruence | reflexivity].
Qed.

(** *** The names the cleanup leaves *)

(** The text is empty or its last character is no digit. *)
Fixpoint noDigitEnd (s : jsstring) : bool :=
  match s with
  | [] => true
  | c :: s' =>
      match s' with
      | [] => negb (isDigit c)
      | _ :: _ => noDigitEnd s'
      end
  end.

Lemma noDigitEnd_tail c s : noDigitEnd (c :: s) = true -> noDigitEnd s = true.
Proof. destruct s; [reflexivity | auto]. Qed.

Lemma noDigitEnd_suffix t s : noDigitEnd (t ++ s) = true -> noDigitEnd s = true.
Proof.
  induction t as [|c t IH]; intros H; [exact H|].
  apply IH. apply (@noDigitEnd_tail c _ H).
Qed.

Lemma noDigitEnd_digit c s :
  noDigitEnd (c :: s) = true -> isDigit c = true -> s <> [].
Proof. intros H D E. subst s. simpl in H. rewrite D in H. discriminate. Qed.

(** A literal fails or goes on after its text. *)
Lemma rmatch_lit_cases ic ml k : forall s x,
  rmatch ic ml (lit s) x k = None
  \/ exists t rest, ms_rest x = t ++ rest
                    /\ rmatch ic ml (lit s) x k = k (advance x t rest).
Proof.
  unfold lit. induction s as [|a s IH]; intros x.
  - right. exists [], (ms_rest x). split; [reflexivity|].
    simpl. rewrite advance_nil. reflexivity.
  - cbn [map]. rewrite rmatch_seqs. cbn [rmatch].
    destruct (ms_rest x) as [|c rest] eqn:E; [left; reflexivity|].
    destruct (charOk ic (Lit a) c); [|left; reflexivity].
    destruct (IH (mkMState (c :: ms_before x) rest (ms_caps x))) as [H|[t [r [H1 H2]]]].
    + left. exact H.
    + right. exists (c :: t), r. cbn [ms_rest] in H1. split.
      * rewrite H1. reflexivity.
      * rewrite H2. f_equal. unfold advance. simpl. rewrite <- app_assoc. reflexivity.
Qed.

Section DigitsNone.
Variable k : MState -> option MState.
Hypothesis k_none : forall z,
  ms_rest z <> [] -> noDigitEnd (ms_rest z) = true -> k z = None.

Lemma optionalRounds_digits_none : forall fuel x,
  ms_rest x <> [] -> noDigitEnd (ms_rest x) = true ->
  optionalRounds (rmatch false false Config.digit) [] k fuel None x = None.
Proof.
  induction fuel as [|fuel IH]; intros x N E; cbn [optionalRounds];
    [apply k_none; assumption|].
  rewrite clearCaps_nil, rmatch_oneChar by reflexivity.
  destruct (ms_rest x) as [|c rest] eqn:R; [congruence|].
  change (charOk false Config.digit c) with (isDigit c).
  destruct (isDigit c) eqn:D.
  - cbn [ms_rest].
    replace (Nat.eqb (length rest) (length (c :: rest))) with false
      by (symmetry; apply Nat.eqb_neq; simpl; lia).
    rewrite IH.
    + apply k_none; rewrite R; [discriminate | exact E].
    + cbn [ms_rest]. apply (@noDigitEnd_digit c rest E D).
    + cbn [ms_rest]. apply (@noDigitEnd_tail c _ E).
  - apply k_none; rewrite R; [discriminate | exact E].
Qed.

Lemma plus_digits_none x :
  noDigitEnd (ms_rest x) = true ->
  rmatch false false (Plus Config.digit) x k = None.
Proof.
  intros E. unfold Plus. cbn [rmatch].
  change (groups Config.digit) with (@nil nat). cbn [mandatoryRounds].
  rewrite clearCaps_nil, rmatch_oneChar by reflexivity.
  destruct (ms_rest x) as [|c rest] eqn:R; [reflexivity|].
  change (charOk false Config.digit c) with (isDigit c).
  destruct (isDigit c) eqn:D; [|reflexivity].
  apply optionalRounds_digits_none; cbn [ms_rest].
  - apply (@noDigitEnd_digit c rest E D).
  - apply (@noDigitEnd_tail c _ E).
Qed.

End DigitsNone.

Lemma tempPattern_rejects before rest :
  noDigitEnd rest = true -> execAt tempPattern before rest = None.
Proof.
  intros E. unfold execAt.
  change (re_ignoreCase tempPattern) with false.
  change (re_multiline tempPattern) with false.
  assert (R : rmatch false false (re_body tempPattern) (mkMState before rest []) Some
              = None).
  { unfold tempPattern. cbn [re_body]. rewrite rmatch_seqs. unfold Config.str.
    destruct (rmatch_lit_cases false false
                (fun y => rmatch false false
                   (seqs [Plus Config.digit; lit (js "."); Plus Config.digit; Eol])
                   y Some)
                (js ".tmp.") (mkMState before rest [])) as [H|[t [r [H1 H2]]]];
      [exact H|].
    rewrite H2. clear H2. cbn [ms_rest] in H1. subst rest.
    apply noDigitEnd_suffix in E.
    rewrite rmatch_seqs. apply plus_digits_none; [|exact E].
    intros z Nz Ez. rewrite rmatch_seqs.
    destruct (rmatch_lit_cases false false
                (fun y => rmatch false false (seqs [Plus Config.digit; Eol]) y Some)
                (js ".") z) as [H|[t' [r' [H1 H2]]]];
      [exact H|].
    rewrite H2. clear H2. rewrite H1 in Ez. apply noDigitEnd_suffix in Ez.
    rewrite rmatch_seqs. apply plus_digits_none; [|exact Ez].
    intros w Nw Ew. cbn [seqs rmatch]. destruct (ms_rest w); [congruence|reflexivity]. }
  rewrite R. reflexivity.
Qed.

Lemma test_rejects s : noDigitEnd s = true -> test tempPattern s = false.
Proof.
  intros E. unfold test.
  assert (H : forall before, hits (scanFirst tempPattern before s) = []).
  { induction s as [|c s IH]; intros before.
    - cbn [scanFirst]. rewrite (@tempPattern_rejects before [] eq_refl). reflexivity.
    - cbn [scanFirst]. rewrite (@tempPattern_rejects before (c :: s) E).
      cbn [hits flat_map app]. apply IH. apply (@noDigitEnd_tail c _ E). }
  rewrite H. reflexivity.
Qed.

(** X13. What [cleanupTempFiles] removes. An entry whose name does not end
    in a digit, as the name of every file with an extension of letters, is
    left alone; so is one whose [stat] fails, and one modified within the
    last hour; the temporary file of a run of [processFile], by its name, is
    removed once it is more than an hour old; and nothing is removed when
    the directory is missing or cannot be listed. *)
Theorem cleanupTempFiles_removes (P : PathApi) (directory : jsstring) :
  (forall e, noDigitEnd (de_name e) = true -> cleanupEntry P directory e = [])
  /\ (forall e, (forall t, de_mtime e = Ok t -> expired t (de_now e) = false) ->
                cleanupEntry P directory e = [])
  /\ (forall name pid now mtime today,
        expired mtime today = true ->
        let temp := name ++ js ".tmp." ++ ofN pid ++ js "." ++ ofN now in
        cleanupEntry P directory (mkDirEntry temp (Ok mtime) today)
        = [OpUnlink (pathJoin P directory temp)])
  /\ (forall files, cleanupTempFiles P directory false files = [])
  /\ (forall err, cleanupTempFiles P directory true (Throw err) = [])
  /\ (forall entries,
        cleanupTempFiles P directory true (Ok entries)
        = flat_map (cleanupEntry P directory)
            (filter (fun e => negb (noDigitEnd (de_name e))) entries)).
Proof.
  split; [|split; [|split; [|split; [|split]]]].
  - intros e H. unfold cleanupEntry. rewrite (@test_rejects _ H). reflexivity.
  - intros e H. unfold cleanupEntry. destruct (test tempPattern (de_name e)); [|reflexivity].
    destruct (de_mtime e) as [t|]; [|reflexivity]. rewrite (H t eq_refl). reflexivity.
  - intros name pid now mtime today H temp. unfold cleanupEntry. cbn [de_name de_mtime de_now].
    unfold temp. rewrite tempPattern_temp_name, H. reflexivity.
  - reflexivity.
  - reflexivity.
  - intros entries. cbn [cleanupTempFiles negb].
    induction entries as [|e entries IH]; [reflexivity|]. cbn [flat_map filter].
    destruct (noDigitEnd (de_name e)) eqn:N; cbn [negb].
    + unfold cleanupEntry at 1. rewrite (@test_rejects _ N). exact IH.
    + cbn [flat_map]. rewrite IH. reflexivity.
Qed.

End TempFiles.

Lemma cleanupTempFiles_removes_witness :
  let now := 1700003600001%Z in
  Cleanup.cleanupTempFiles samplePaths (js "/logs") true
    (Ok [Cleanup.mkDirEntry (js "app.log") (Ok 0%Z) now;
         Cleanup.mkDirEntry (js "app.masked.log.tmp.4242.1700000000000")
           (Ok 1700000000000%Z) now;
         Cleanup.mkDirEntry (js "b.masked.log.tmp.4242.1700003000000")
           (Ok 1700003000000%Z) now])
  = [Processor.OpUnlink (js "/logs/app.masked.log.tmp.4242.1700000000000")].
Proof.
  intros now.
  destruct (@cleanupTempFiles_removes samplePaths (js "/logs")) as [_ [Y [T [_ [_ F]]]]].
  transitivity
    (Cleanup.cleanupEntry samplePaths (js "/logs")
       (Cleanup.mkDirEntry
          (js "app.masked.log" ++ js ".tmp." ++ ofN 4242 ++ js "." ++ ofN 1700000000000)
          (Ok 1700000000000%Z) now)
     ++ Cleanup.cleanupEntry samplePaths (js "/logs")
          (Cleanup.mkDirEntry (js "b.masked.log.tmp.4242.1700003000000")
             (Ok 1700003000000%Z) now)
     ++ []);
    [rewrite F; reflexivity|].
  rewrite (Y (Cleanup.mkDirEntry (js "b.masked.log.tmp.4242.1700003000000")
                (Ok 1700003000000%Z) now))
    by (intros t E; injection E as <-; reflexivity).
  rewrite (T (js "app.masked.log") 4242%N 1700000000000%N 1700000000000%Z now eq_refl).
  reflexivity.
Defined.

(** ** The options of a job *)

Section JobOptions.
Import Scrubber Main.

Fixpoint distinct (l : list jsstring) : bool :=
  match l with
  | [] => true
  | x :: l' => negb (existsb (str_eqb x) l') && distinct l'
  end.

Lemma PATTERNS_names_distinct : distinct (map p_name Config.PATTERNS) = true.
Proof. vm_compute. reflexivity. Qed.

(** What the renderer asks for a rule: its own switch, or the switch of
    the catalog when it does not name the rule. *)
Definition enabledFor (ro : RendererOptions) (p : Pattern) : bool :=
  orDefault (enabledByName (orDefault (ro_patterns ro) []) (p_name p)) (p_enabled p).

(** The parts of a rule that act on a line. *)
Definition ruleOf (p : Pattern) : jsstring * option RegExp * Replacement :=
  (p_name p, p_regex p, p_replacement p).

Lemma dedupKeys_nonempty k ks : dedupKeys [] (k :: ks) <> [].
Proof. simpl. discriminate. Qed.


Lemma enabledByName_absent metas name :
  (forall n e, In (Some (mkPatternMeta (Some n) e)) metas -> n <> name) ->
  enabledByName metas name = None.
Proof.
  induction metas as [|m metas IH]; intros H; simpl; [reflexivity|].
  rewrite IH by (intros n e Hin; apply (H n e); right; exact Hin).
  destruct m as [[[n|] e]|]; try reflexivity.
  destruct (str_eqb n name) eqn:E; [|reflexivity].
  apply str_eqb_eq in E. exfalso. apply (H n e).
  - left. reflexivity.
  - exact E.
Qed.

Lemma enabledByName_own (ps : list Pattern) :
  distinct (map p_name ps) = true ->
  forall p, In p ps ->
  enabledByName
    (map (fun p => Some (mkPatternMeta (Some (p_name p)) (p_enabled p))) ps)
    (p_name p) = Some (p_enabled p).
Proof.
  induction ps as [|q ps IH]; intros D p Hin; [destruct Hin|].
  simpl in D. apply andb_true_iff in D. destruct D as [D1 D2].
  simpl. destruct Hin as [->|Hin].
  - rewrite enabledByName_absent.
    + rewrite str_eqb_refl. reflexivity.
    + intros n e Hm E. apply in_map_iff in Hm. destruct Hm as [q [Hq Hin]].
      injection Hq as Hn He. rewrite <- Hn in E.
      apply negb_true_iff in D1.
      assert (X : existsb (str_eqb (p_name p)) (map p_name ps) = true).
      { apply existsb_exists. exists (p_name q). split.
        - apply in_map. exact Hin.
        - rewrite E. apply str_eqb_refl. }
      congruence.
  - rewrite (IH D2 p Hin). reflexivity.
Qed.

Lemma withEnabled_own p : withEnabled p (p_enabled p) = p.
Proof. destruct p. reflexivity. Qed.

(** X15. The round trip of the default configuration: when the renderer
    sends back the metadata of the rules as [config:getDefault] gave it, the
    rules of the job are the catalog of config.js, whatever else it sends;
    and with the default keys, or none, and nothing else, the scrubber of
    the job is the scrubber of the defaults. *)
Theorem normalizeScrubberOptions_default :
  (forall keys separators mask masking urlParams,
     o_patterns (normalizeScrubberOptions
                   (mkRendererOptions (Some defaultPatternMeta) keys separators mask
                      masking urlParams))
     = Some Config.PATTERNS)
  /\ new (normalizeScrubberOptions
            (mkRendererOptions (Some defaultPatternMeta) (Some Config.SENSITIVE_KEYS)
               None None None None))
     = new noOptions
  /\ new (normalizeScrubberOptions
            (mkRendererOptions (Some defaultPatternMeta) None None None None None))
     = new noOptions.
Proof.
  assert (E : map (fun p => withEnabled p
                     (orDefault (enabledByName defaultPatternMeta (p_name p))
                        (p_enabled p))) Config.PATTERNS = Config.PATTERNS).
  { rewrite <- (map_id Config.PATTERNS) at 2. apply map_ext_in. intros p Hp.
    unfold defaultPatternMeta.
    rewrite (enabledByName_own Config.PATTERNS PATTERNS_names_distinct p Hp).
    apply withEnabled_own. }
  split; [|split].
  - intros keys separators mask masking urlParams. unfold normalizeScrubberOptions.
    cbn [ro_patterns o_patterns orDefault]. rewrite E. reflexivity.
  - unfold normalizeScrubberOptions, new.
    cbn [ro_patterns ro_sensitiveKeys ro_kvSeparators ro_defaultMask ro_enableMasking
         ro_maskUrlParams o_enableMasking o_maskUrlParams o_sensitiveKeys o_patterns
         o_kvSeparators o_defaultMask orDefault notFalse noOptions].
    rewrite E. reflexivity.
  - unfold normalizeScrubberOptions, new.
    cbn [ro_patterns ro_sensitiveKeys ro_kvSeparators ro_defaultMask ro_enableMasking
         ro_maskUrlParams o_enableMasking o_maskUrlParams o_sensitiveKeys o_patterns
         o_kvSeparators o_defaultMask orDefault notFalse noOptions].
    rewrite E. reflexivity.
Qed.

End JobOptions.

(** ** The pause controller *)

Section Pausing.
Import Main.

(** No call waits while the controller is not paused. *)
Definition noStrandedWaiter (c : PauseController) : Prop :=
  resumeWaiters c <> [] -> pc_paused c = true.

Lemma apply_noStrandedWaiter c op :
  noStrandedWaiter c -> noStrandedWaiter (fst (apply c op)).
Proof.
  unfold noStrandedWaiter. intros H. destruct op; simpl.
  - unfold pause. destruct (pc_paused c) eqn:P; simpl; auto.
  - unfold resume. destruct (pc_paused c) eqn:P; simpl.
    + intros X. exfalso. apply X. reflexivity.
    + rewrite P. exact H.
  - exact H.
  - exact H.
  - unfold waitIfPaused. destruct (pc_paused c) eqn:P; simpl.
    + destruct (Abort.signalAborted signal); simpl; auto.
    + rewrite P. exact H.
  - unfold onAbort. destruct (existsb (Nat.eqb waiter) (resumeWaiters c)) eqn:E; simpl.
    + intros X. apply H. intros Y. rewrite Y in E. discriminate.
    + exact H.
Qed.

(** X16. At every instant of a controller's life no call of [waitIfPaused]
    is pending unless the controller is paused; [resume] on a paused
    controller resolves every pending call, in the order of their arrival
    and after the interfaces have resumed, and leaves none; and [pause] and
    [resume] do nothing the second time. *)
Theorem pauseController_wakes_waiters (ops : list Op) :
  let c := run ops in
  (resumeWaiters c <> [] -> pc_paused c = true)
  /\ resumeWaiters (fst (resume c)) = []
  /\ pc_paused (fst (resume c)) = false
  /\ (pc_paused c = true ->
      snd (resume c) = map (fun b => RlResume (b_rl b)) (bindings c)
                       ++ map Woken (resumeWaiters c))
  /\ fst (pause (fst (pause c))) = fst (pause c)
  /\ snd (pause (fst (pause c))) = []
  /\ snd (resume (fst (resume c))) = [].
Proof.
  cbv zeta.
  assert (I : noStrandedWaiter (run ops)).
  { unfold run.
    assert (I0 : noStrandedWaiter newPauseController)
      by (intros X; exfalso; apply X; reflexivity).
    revert I0. generalize newPauseController.
    induction ops as [|op ops IH]; intros c H; simpl; [exact H|].
    apply IH. apply apply_noStrandedWaiter. exact H. }
  set (c := run ops) in *.
  split; [exact I|].
  unfold resume, pause. destruct (pc_paused c) eqn:P; simpl; rewrite ?P; simpl.
  - repeat split; auto.
  - repeat split; auto; try discriminate.
    destruct (resumeWaiters c) eqn:W; [reflexivity|].
    assert (X : pc_paused c = true) by (apply I; rewrite W; discriminate).
    congruence.
Qed.

End Pausing.

(** ** The guard of the paths *)

Section PathGuard.
Import Main.

(** A literal matches the texts that are the same up to case. *)
Lemma rmatch_lit_Some ic ml k z : forall s x,
  rmatch ic ml (lit s) x k = Some z ->
  exists t rest, ms_rest x = t ++ rest /\ sameText ic s t = true
                 /\ k (advance x t rest) = Some z.
Proof.
  unfold lit. induction s as [|a s IH]; intros x H.
  - exists [], (ms_rest x). simpl in H. rewrite advance_nil. auto.
  - cbn [map] in H. rewrite rmatch_seqs in H. cbn [rmatch] in H.
    destruct (ms_rest x) as [|c rest] eqn:E; [discriminate|].
    cbn [charOk] in H.
    destruct (N.eqb (canon ic a) (canon ic c)) eqn:C; [|discriminate].
    destruct (IH _ H) as [t [r [H1 [H2 H3]]]]. cbn [ms_rest] in H1.
    exists (c :: t), r. split; [rewrite H1; reflexivity|]. split.
    + simpl. rewrite C. exact H2.
    + rewrite <- H3. f_equal. unfold advance. simpl. rewrite <- app_assoc. reflexivity.
Qed.

(** Under the flag [i] a character that is no letter stands for itself
    only. *)
Lemma canon_not_letter a c :
  isAlpha a = false -> N.eqb (canon true a) (canon true c) = true -> c = a.
Proof.
  intros A H. apply N.eqb_eq in H. unfold canon in H.
  assert (U : upperChar a = a).
  { unfold upperChar. unfold isAlpha in A. apply orb_false_iff in A.
    destruct A as [_ A]. rewrite A. reflexivity. }
  rewrite U in H.
  destruct (N.eq_dec (upperChar c) c) as [E|E]; [congruence|].
  apply upperChar_alpha in E. rewrite <- H in E. congruence.
Qed.

Lemma canon_same a : N.eqb (canon true a) (canon true a) = true.
Proof. apply N.eqb_refl. Qed.

(** The text is under the directory [root]: it is [root], up to the case
    of the letters, or goes on with the separator. *)
Definition inDirectory (root : jsstring) (sep : char) (s : jsstring) : Prop :=
  exists d tail, s = d ++ tail /\ sameText true root d = true
                 /\ (tail = [] \/ exists t, tail = sep :: t).

(** [name($|sep)] *)
Lemma directory_tail root sep x :
  isAlpha sep = false ->
  (exists z, rmatch true false (seqs [lit root; Group 1 (Alt Eol (Lit sep))]) x Some
             = Some z)
  <-> inDirectory root sep (ms_rest x).
Proof.
  intros A. rewrite rmatch_seqs. cbn [seqs]. split.
  - intros [z H]. apply rmatch_lit_Some in H. destruct H as [t [rest [H1 [H2 H3]]]].
    exists t, rest. split; [exact H1|]. split; [exact H2|].
    rewrite rmatch_Group, rmatch_Alt in H3. cbn [rmatch advance ms_rest] in H3.
    destruct rest as [|c rest]; [left; reflexivity|]. right.
    cbn [atLineEdge andb charOk] in H3.
    destruct (N.eqb (canon true sep) (canon true c)) eqn:C; [|discriminate].
    apply (@canon_not_letter sep c A) in C. subst c. exists rest. reflexivity.
  - intros [d [tail [H1 [H2 H3]]]].
    rewrite (rmatch_lit true false _ root d x tail H1 H2).
    rewrite rmatch_Group, rmatch_Alt. cbn [rmatch advance ms_rest].
    destruct H3 as [H3|[t H3]]; subst tail.
    + cbn [atLineEdge]. eexists. reflexivity.
    + cbn [atLineEdge andb charOk]. rewrite canon_same. eexists. reflexivity.
Qed.

(** An expression that begins with [^], without the flags [g] and [m],
    is tried at the start of the text only. *)
Lemma test_anchored ic r rs s :
  test (mkRegExp (seqs (Bol :: r :: rs)) false ic false) s = true
  <-> exists z, rmatch ic false (seqs (r :: rs)) (mkMState [] s []) Some = Some z.
Proof.
  set (re := mkRegExp (seqs (Bol :: r :: rs)) false ic false).
  assert (Later : forall rest b before, hits (scanFirst re (b :: before) rest) = []).
  { induction rest as [|c rest IH]; intros b before; cbn [scanFirst];
      (replace (execAt re (b :: before) _) with (@None Match)
         by (unfold execAt, re; cbn [re_body re_ignoreCase re_multiline];
             rewrite rmatch_seqs; reflexivity));
      [reflexivity|].
    cbn [hits flat_map app]. apply IH. }
  assert (First : forall rest,
            execAt re [] rest
            = match rmatch ic false (seqs (r :: rs)) (mkMState [] rest []) Some with
              | Some y => Some (mkMatch 0 (firstn (consumed (mkMState [] rest []) y) rest)
                                  (ms_caps y))
              | None => None
              end).
  { intros rest. unfold execAt, re. cbn [re_body re_ignoreCase re_multiline].
    rewrite rmatch_seqs. reflexivity. }
  unfold test. destruct s as [|c s]; cbn [scanFirst]; rewrite First;
    destruct (rmatch ic false (seqs (r :: rs)) _ Some) as [y|].
  - cbn. split; [eauto | reflexivity].
  - cbn. split; [discriminate | intros [z Hz]; discriminate].
  - cbn. split; [eauto | reflexivity].
  - cbn [hits flat_map app]. fold (hits (scanFirst re [c] s)). rewrite Later.
    split; [discriminate | intros [z Hz]; discriminate].
Qed.

Lemma test_unixDirectory name s :
  test (unixDirectory name) s = true <-> inDirectory (js name) 47%N s.
Proof.
  unfold unixDirectory. rewrite test_anchored.
  change (seqs [Config.str name; Group 1 (Alt Eol (Config.str "/"))])
    with (seqs [lit (js name); Group 1 (Alt Eol (Lit 47%N))]).
  rewrite directory_tail by reflexivity. reflexivity.
Qed.

Lemma isAlpha_classHas l : classHas true isAlpha l = isAlpha l.
Proof.
  unfold classHas.
  destruct (isAlpha l) eqn:A; [reflexivity|].
  assert (L : lowerChar l = l).
  { unfold lowerChar. unfold isAlpha in A. apply orb_false_iff in A.
    destruct A as [A _]. rewrite A. reflexivity. }
  assert (U : upperChar l = l).
  { unfold upperChar. unfold isAlpha in A. apply orb_false_iff in A.
    destruct A as [_ A]. rewrite A. reflexivity. }
  rewrite L, U, A. reflexivity.
Qed.

Lemma test_windowsDirectory name s :
  test (windowsDirectory name) s = true
  <-> exists (l : char) rest, s = (l :: 58 :: 92 :: rest)%N /\ isAlpha l = true
                     /\ inDirectory (js name) 92%N rest.
Proof.
  unfold windowsDirectory. rewrite test_anchored.
  rewrite rmatch_seqs. unfold driveLetter at 1. cbn [rmatch ms_rest charOk xorb].
  change (Config.str ":") with (Lit 58%N). change Config.backslash with 92%N.
  split.
  - intros [z H]. destruct s as [|l s]; [discriminate|].
    rewrite isAlpha_classHas in H. destruct (isAlpha l) eqn:A; [|discriminate].
    rewrite rmatch_seqs in H. cbn [rmatch ms_rest charOk] in H.
    destruct s as [|c1 s]; [discriminate|].
    destruct (N.eqb (canon true 58%N) (canon true c1)) eqn:C1; [|discriminate].
    apply (@canon_not_letter 58%N c1 eq_refl) in C1. subst c1.
    rewrite rmatch_seqs in H. cbn [rmatch ms_rest charOk] in H.
    destruct s as [|c2 s]; [discriminate|].
    destruct (N.eqb (canon true 92%N) (canon true c2)) eqn:C2; [|discriminate].
    apply (@canon_not_letter 92%N c2 eq_refl) in C2. subst c2.
    exists l, s. split; [reflexivity|]. split; [exact A|].
    exact (proj1 (@directory_tail (js name) 92%N _ eq_refl) (ex_intro _ z H)).
  - intros [l [rest [E [A D]]]]. subst s. rewrite isAlpha_classHas, A.
    rewrite rmatch_seqs. cbn [rmatch ms_rest charOk]. rewrite canon_same.
    rewrite rmatch_seqs. cbn [rmatch ms_rest charOk]. rewrite canon_same.
    exact (proj2 (@directory_tail (js name) 92%N (mkMState _ rest _) eq_refl) D).
Qed.

Definition windowsNames : list string :=
  ["Windows"; "Program Files"; "Program Files (x86)"; "ProgramData";
   "System Volume Information"; "Recovery"]%string.

Definition unixNames : list string := ["/etc"; "/usr/bin"; "/boot"; "/root"]%string.

(** The resolved path is one of the protected directories or lies under
    one: a directory of [unixNames], or a directory of [windowsNames] at
    the root of a drive. *)
Definition systemDirectory (s : jsstring) : Prop :=
  (exists name, In name unixNames /\ inDirectory (js name) 47%N s)
  \/ (exists name (l : char) rest, In name windowsNames /\ s = (l :: 58 :: 92 :: rest)%N
                          /\ isAlpha l = true /\ inDirectory (js name) 92%N rest).

Lemma sensitivePaths_systemDirectory s :
  existsb (fun pattern => test pattern s) sensitivePaths = true <-> systemDirectory s.
Proof.
  change sensitivePaths
    with (map windowsDirectory windowsNames ++ map unixDirectory unixNames).
  rewrite existsb_app, orb_true_iff, !existsb_exists. unfold systemDirectory. split.
  - intros [[re [I T]]|[re [I T]]]; apply in_map_iff in I; destruct I as [name [E I]];
      subst re.
    + right. apply test_windowsDirectory in T. destruct T as [l [rest [E [A D]]]].
      exists name, l, rest. auto.
    + left. apply test_unixDirectory in T. exists name. auto.
  - intros [[name [I D]]|[name [l [rest [I [E [A D]]]]]]].
    + right. exists (unixDirectory name). split; [apply in_map; exact I|].
      apply test_unixDirectory. exact D.
    + left. exists (windowsDirectory name). split; [apply in_map; exact I|].
      apply test_windowsDirectory. exists l, rest. auto.
Qed.

Lemma isDangerousPath_false (P : PathModule) (p : jsstring) :
  isDangerousPath P (VString p) = false
  <-> p <> [] /\ ~ systemDirectory (resolve P p)
      /\ (includes p (js "..") = true -> includes (normalize P p) (js "..") = false).
Proof.
  destruct p as [|c s]; [simpl; split; [discriminate | intros [H _]; congruence]|].
  cbn [isDangerousPath].
  destruct (existsb _ sensitivePaths) eqn:E.
  - apply sensitivePaths_systemDirectory in E. split; [discriminate|].
    intros [_ [H _]]. contradiction.
  - assert (N : ~ systemDirectory (resolve P (c :: s))).
    { intros H. apply sensitivePaths_systemDirectory in H. congruence. }
    destruct (includes (c :: s) (js "..")).
    + split; [intros H; split; [discriminate | split; [exact N | intros _; exact H]]|].
      intros [_ [_ H]]. apply H. reflexivity.
    + split; [intros _; split; [discriminate | split; [exact N | discriminate]]|].
      reflexivity.
Qed.

(** X17. [validateFilePath] returns the path it was given, and only for a
    string that is not empty, that [path.isAbsolute] accepts, whose resolved
    form is none of the protected system directories nor under one, and that
    has no [..] left once normalized; everything else throws. *)
Theorem validateFilePath_accepts (P : PathModule) (filePath : jsval) (p : jsstring) :
  validateFilePath P filePath = Ok p
  <-> filePath = VString p /\ p <> [] /\ isAbsolute P p = true
      /\ ~ systemDirectory (resolve P p)
      /\ (includes p (js "..") = true -> includes (normalize P p) (js "..") = false).
Proof.
  split.
  - intros H. destruct filePath as [| |b|n|[|c s]]; try discriminate.
    cbn [validateFilePath] in H.
    destruct (isAbsolute P (c :: s)) eqn:A; [|discriminate]. cbn [negb] in H.
    destruct (isDangerousPath P (VString (c :: s))) eqn:D; [discriminate|].
    injection H as H. subst p. apply isDangerousPath_false in D.
    destruct D as [D1 [D2 D3]]. auto.
  - intros [E [N [A [S T]]]]. subst filePath. destruct p as [|c s]; [congruence|].
    cbn [validateFilePath]. rewrite A. cbn [negb].
    replace (isDangerousPath P (VString (c :: s))) with false; [reflexivity|].
    symmetry. apply isDangerousPath_false. auto.
Qed.

End PathGuard.

(** Paths as POSIX has them, for a path that needs no resolution. *)
Definition posixPaths : Main.PathModule :=
  Main.mkPathModule (fun p => p) (fun p => p) (fun p => startsWith p (js "/")).

Lemma validateFilePath_accepts_witness :
  Main.validateFilePath posixPaths (VString (js "/var/log/app.log"))
  = Ok (js "/var/log/app.log")
  /\ ~ systemDirectory (js "/var/log/app.log")
  /\ Main.validateFilePath posixPaths (VString (js "/ETC/passwd"))
     = Throw (newError Main.msgDenied)
  /\ Main.validateFilePath posixPaths (VString (js "/var/../root/.ssh"))
     = Throw (newError Main.msgDenied)
  /\ Main.validateFilePath posixPaths (VString (js "logs/app.log"))
     = Throw (newError Main.msgNotAbsolute).
Proof.
  assert (A : Main.validateFilePath posixPaths (VString (js "/var/log/app.log"))
              = Ok (js "/var/log/app.log")) by (vm_compute; reflexivity).
  split; [exact A|]. split; [|repeat split; vm_compute; reflexivity].
  destruct (proj1 (@validateFilePath_accepts posixPaths _ _) A) as [_ [_ [_ [S _]]]].
  exact S.
Defined.
